(** * fake_server: the copy-on-write session filesystem, the pseudo-shell
      and the Telnet read path, embedded from the Go sources.

    Go values are modelled as follows.
    - [string] is a sequence of bytes (Rocq [string]); text is taken to be
      valid UTF-8, so that ranging over runes and over bytes agree on the
      ASCII delimiters the code looks for.
    - [[]byte] is a slice header (pointer and length) into a heap of backing
      arrays; the capacity of a slice is the size of its array, because every
      slice of the program starts at offset 0 of an array it allocated.
    - pointers to [FileEntry] and [SessionFS] are addresses into heaps of objects.
    - [map[string]T] is [gmap string T]; a [nil] pointer stored in a map is
      [Some None].
    - [int] and [int64] are 64-bit two's complement integers ([Z] with the
      wrap-around written out where the code adds).
    - [time.Now()] reads a logical clock that is part of the world.
    - locks are not modelled: every method body runs atomically. *)

From Stdlib Require Import ZArith Strings.String Strings.Ascii Strings.Byte Lia.
From Stdlib Require Import Numbers.DecimalString Sorting.Sorted.
From stdpp Require Import gmap strings list sorting.

(** ** Characters and byte strings *)

Definition nl : string := String "010"%char "".
Definition cr : string := String "013"%char "".
Definition tab : string := String "009"%char "".
Definition esc : string := String "027"%char "".
Definition dq : string := String "034"%char "".
Definition sq : string := String "039"%char "".

Definition bytes := list byte.

(** [[]byte(s)] and [string(b)] *)
Definition to_bytes (s : string) : bytes := String.list_byte_of_string s.
Definition of_bytes (b : bytes) : string := String.string_of_list_byte b.

(** ** The parts of Go's standard library the program calls *)

Module strs.

Definition HasPrefix (s pre : string) : bool := String.prefix pre s.

Fixpoint Contains (s sub : string) : bool :=
  String.prefix sub s ||
  match s with
  | EmptyString => false
  | String _ s' => Contains s' sub
  end.

(** [strings.Split(s, sep)] for a one-byte separator: always at least one
    piece. *)
Fixpoint Split (s : string) (sep : ascii) : list string :=
  match s with
  | EmptyString => [EmptyString]
  | String c s' =>
      if Ascii.eqb c sep then EmptyString :: Split s' sep
      else match Split s' sep with
           | x :: xs => String c x :: xs
           | [] => [String c EmptyString]
           end
  end.

Definition Join (l : list string) (sep : string) : string := String.concat sep l.

Definition HasSuffix (s suf : string) : bool :=
  let n := String.length s in
  let k := String.length suf in
  (k <=? n)%nat && String.eqb (String.substring (n - k) k s) suf.

Definition lower_ascii (c : ascii) : ascii :=
  let n := nat_of_ascii c in
  if ((65 <=? n) && (n <=? 90))%nat then ascii_of_nat (n + 32) else c.

(** [strings.ToLower], on the ASCII letters. *)
Fixpoint ToLower (s : string) : string :=
  match s with
  | EmptyString => EmptyString
  | String c s' => String (lower_ascii c) (ToLower s')
  end.

Definition is_space (c : ascii) : bool :=
  let n := nat_of_ascii c in
  ((n =? 32) || ((9 <=? n) && (n <=? 13)))%nat.

Fixpoint TrimLeft (s : string) : string :=
  match s with
  | String c s' => if is_space c then TrimLeft s' else s
  | EmptyString => EmptyString
  end.

Fixpoint TrimRight (s : string) : string :=
  match s with
  | EmptyString => EmptyString
  | String c s' =>
      match TrimRight s' with
      | EmptyString => if is_space c then EmptyString else String c EmptyString
      | r => String c r
      end
  end.

Definition TrimSpace (s : string) : string := TrimRight (TrimLeft s).

Fixpoint drop (n : nat) (s : string) : string :=
  match n, s with
  | O, _ => s
  | S n', String _ s' => drop n' s'
  | S _, EmptyString => EmptyString
  end.

(** [strings.ReplaceAll(s, old, new)]: non-overlapping instances, left to
    right; an empty [old] matches before every byte and at the end. *)
Fixpoint replace_go (fuel : nat) (s old new : string) : string :=
  match fuel with
  | O => s
  | S fuel' =>
      match s with
      | EmptyString => EmptyString
      | String c s' =>
          if String.prefix old s
          then new +:+ replace_go fuel' (drop (String.length old) s) old new
          else String c (replace_go fuel' s' old new)
      end
  end.

Fixpoint intersperse_all (s new : string) : string :=
  match s with
  | EmptyString => new
  | String c s' => new +:+ String c (intersperse_all s' new)
  end.

Definition ReplaceAll (s old new : string) : string :=
  match old with
  | EmptyString => intersperse_all s new
  | _ => replace_go (String.length s) s old new
  end.

(** [strings.SplitN(s, sep, 2)] for a one-byte separator. *)
Fixpoint SplitN2 (s : string) (sep : ascii) : list string :=
  match s with
  | EmptyString => [EmptyString]
  | String c s' =>
      if Ascii.eqb c sep then [EmptyString; s']
      else match SplitN2 s' sep with
           | x :: xs => String c x :: xs
           | [] => [String c EmptyString]
           end
  end.

End strs.

Module strconv.

Definition Itoa (z : Z) : string := NilEmpty.string_of_int (Z.to_int z).

Definition digit_of (base : Z) (c : ascii) : option Z :=
  let n := Z.of_nat (nat_of_ascii c) in
  if ((48 <=? n) && (n <? 48 + base))%Z then Some (n - 48)%Z else None.

Fixpoint digits (base : Z) (s : string) (acc : Z) : option Z :=
  match s with
  | EmptyString => Some acc
  | String c s' =>
      match digit_of base c with
      | Some d => digits base s' (acc * base + d)%Z
      | None => None
      end
  end.

(** A signed number in the given base; [None] is a syntax error. *)
Definition signed (base : Z) (s : string) : option Z :=
  match s with
  | EmptyString => None
  | String "-"%char (String _ _ as r) => Z.opp <$> digits base r 0
  | String "+"%char (String _ _ as r) => digits base r 0
  | String "-"%char EmptyString | String "+"%char EmptyString => None
  | _ => digits base s 0
  end.

Definition clamp (bits : Z) (z : Z) : Z * bool :=
  let hi := (2 ^ (bits - 1) - 1)%Z in
  let lo := (- 2 ^ (bits - 1))%Z in
  if (hi <? z)%Z then (hi, false)
  else if (z <? lo)%Z then (lo, false)
  else (z, true).

(** [strconv.Atoi]: the value and whether [err == nil]; a syntax error
    gives 0, a range error the nearest bound. *)
Definition Atoi (s : string) : Z * bool :=
  match signed 10 s with
  | Some z => clamp 64 z
  | None => (0%Z, false)
  end.

(** [strconv.ParseInt(s, 8, 32)] *)
Definition ParseInt_8_32 (s : string) : Z * bool :=
  match signed 8 s with
  | Some z => clamp 32 z
  | None => (0%Z, false)
  end.

End strconv.

(** Go's [path] package (slash-separated, purely lexical), by its documented
    rules, computed on the list of slash-separated elements. *)
Module path.

Definition slash : ascii := "/"%char.

Definition rooted (p : string) : bool := strs.HasPrefix p "/".

(** The element stack of [Clean]: empty and [.] elements vanish, [..]
    removes the element before it, is dropped at the root of a rooted path
    and kept at the start of a relative one. *)
Fixpoint norm (root : bool) (elems : list string) (stack : list string) : list string :=
  match elems with
  | [] => rev stack
  | e :: rest =>
      if String.eqb e "" || String.eqb e "." then norm root rest stack
      else if String.eqb e ".." then
        match stack with
        | top :: below =>
            if String.eqb top ".." then norm root rest (e :: stack)
            else norm root rest below
        | [] => if root then norm root rest [] else norm root rest [e]
        end
      else norm root rest (e :: stack)
  end.

Definition render (root : bool) (elems : list string) : string :=
  match root, elems with
  | true, _ => "/" +:+ strs.Join elems "/"
  | false, [] => "."
  | false, _ => strs.Join elems "/"
  end.

Definition Clean (p : string) : string :=
  render (rooted p) (norm (rooted p) (strs.Split p slash) []).

(** [path.Split]: everything up to and including the final slash, and the
    rest. *)
Definition Split (p : string) : string * string :=
  let elems := strs.Split p slash in
  (strs.Join (removelast elems ++ [""]) "/", List.last elems "").

Definition Dir (p : string) : string := Clean (fst (Split p)).

Fixpoint last_nonempty (elems : list string) : option string :=
  match elems with
  | [] => None
  | e :: rest =>
      match last_nonempty rest with
      | Some x => Some x
      | None => if String.eqb e "" then None else Some e
      end
  end.

Definition Base (p : string) : string :=
  if String.eqb p "" then "."
  else match last_nonempty (strs.Split p slash) with
       | Some e => e
       | None => "/"
       end.

(** [path.Join]: empty elements are ignored, the result is cleaned, and it
    is empty when every element is. *)
Definition Join (elems : list string) : string :=
  match List.filter (fun e => negb (String.eqb e "")) elems with
  | [] => ""
  | l => Clean (strs.Join l "/")
  end.

End path.

Module bufio.

Definition MaxScanTokenSize : N := 65536.

Definition dropCR (s : string) : string :=
  if strs.HasSuffix s cr then String.substring 0 (String.length s - 1) s else s.

(** The raw tokens of [ScanLines]: the pieces before each newline, and the
    final piece when it is not empty. *)
Definition raw_lines (s : string) : list string :=
  let pieces := strs.Split s "010"%char in
  if String.eqb (List.last pieces "") "" then removelast pieces else pieces.

Fixpoint until_too_long (l : list string) : list string :=
  match l with
  | [] => []
  | x :: rest =>
      if (MaxScanTokenSize <=? N.of_nat (String.length x))%N then []
      else x :: until_too_long rest
  end.

(** Every [scanner.Text()] that a loop [for scanner.Scan()] sees on the
    given input, with the default buffer: scanning stops at a line that
    does not fit in [MaxScanTokenSize] bytes. *)
Definition scan_lines (s : string) : list string :=
  dropCR <$> until_too_long (raw_lines s).

End bufio.

(** ** fs.go: the data model *)

Definition loc := nat.

(** A slice header: the backing array ([None] for a nil slice) and [len];
    [cap] is the size of the array. *)
Record slice := { s_ptr : option loc; s_len : nat }.

Definition nil_slice : slice := {| s_ptr := None; s_len := 0 |}.

Definition MaxFileSize : Z := Z.shiftl 5 20.

Definition ModeDir : Z := Z.shiftl 1 31.

(** An octal literal such as [0644]. *)
Definition perm (digits : string) : Z := fst (strconv.ParseInt_8_32 digits).

Record FileEntry := {
  Name : string;
  IsDir : bool;
  Content : slice;
  Mode : Z;
  ModTime : Z;
  UID : Z;
  GID : Z;
  Nlink : Z;
}.

Definition zero_entry : FileEntry :=
  {| Name := ""; IsDir := false; Content := nil_slice; Mode := 0;
     ModTime := 0; UID := 0; GID := 0; Nlink := 0 |}.

(** The garbage-collected heap: the [FileEntry] objects, the backing arrays
    of byte slices, and the clock behind [time.Now()]. *)
Record Heap := {
  objects : gmap loc FileEntry;
  arrays : gmap loc bytes;
  clock : Z;
}.

Record SessionFS := {
  overlay : gmap string (option loc);
  cwd : string;
}.

(** The package-level variables of fs_data.go, written once by [initFS]. *)
Record Globals := {
  BaseFS : gmap string loc;
  BaseFSDirCache : gmap string (list loc);
  Users : gmap string Z;
  Groups : gmap string Z;
  startTime : Z;
  GlobalSessionFS : loc;
}.

Inductive error :=
  | ErrNotExist
  | ErrNew (msg : string)
  | ErrSSHFxOpUnsupported.

Definition deref (h : Heap) (l : loc) : FileEntry := default zero_entry (objects h !! l).

Definition store (l : loc) (e : FileEntry) (h : Heap) : Heap :=
  {| objects := <[l := e]> (objects h); arrays := arrays h; clock := clock h |}.

(** [&FileEntry{...}] *)
Definition new_entry (e : FileEntry) (h : Heap) : loc * Heap :=
  let l := fresh (dom (objects h)) in (l, store l e h).

Definition array_at (h : Heap) (a : loc) : bytes := default [] (arrays h !! a).

Definition set_array (a : loc) (b : bytes) (h : Heap) : Heap :=
  {| objects := objects h; arrays := <[a := b]> (arrays h); clock := clock h |}.

Definition new_array (b : bytes) (h : Heap) : loc * Heap :=
  let a := fresh (dom (arrays h)) in (a, set_array a b h).

(** [make([]byte, n, c)] *)
Definition make_slice (n c : nat) (h : Heap) : slice * Heap :=
  let '(a, h1) := new_array (replicate c Byte.x00) h in
  ({| s_ptr := Some a; s_len := n |}, h1).

(** A slice that holds exactly the given bytes, in an array of its own, as
    [[]byte(str)] or [buf.Bytes()] hand one to the filesystem. *)
Definition slice_of (b : bytes) (h : Heap) : slice * Heap :=
  let '(a, h1) := new_array b h in
  ({| s_ptr := Some a; s_len := length b |}, h1).

Definition cap (h : Heap) (s : slice) : nat :=
  match s_ptr s with
  | Some a => length (array_at h a)
  | None => 0
  end.

(** The bytes a slice shows. *)
Definition slice_bytes (h : Heap) (s : slice) : bytes :=
  match s_ptr s with
  | Some a => take (s_len s) (array_at h a)
  | None => []
  end.

Definition content (h : Heap) (l : loc) : bytes := slice_bytes h (Content (deref h l)).

Definition time_Now (h : Heap) : Z * Heap :=
  (clock h, {| objects := objects h; arrays := arrays h; clock := (clock h + 1)%Z |}).

Definition set_overlay (s : SessionFS) (o : gmap string (option loc)) : SessionFS :=
  {| overlay := o; cwd := cwd s |}.

Definition set_cwd (s : SessionFS) (d : string) : SessionFS :=
  {| overlay := overlay s; cwd := d |}.

(** ** fs.go: the operations *)

Definition NewSessionFS : SessionFS := {| overlay := ∅; cwd := "/root" |}.

Definition Abs (s : SessionFS) (p : string) : string :=
  if String.eqb p "" then cwd s
  else if String.eqb p "~" then "/root"
  else if strs.HasPrefix p "~/" then path.Join ["/root"; strs.drop 2 p]
  else if negb (strs.HasPrefix p "/") then path.Clean (path.Join [cwd s; p])
  else path.Clean p.

Definition GetEntry (G : Globals) (s : SessionFS) (p : string) : option loc :=
  let p := path.Clean p in
  match overlay s !! p with
  | Some None => None
  | Some (Some e) => Some e
  | None => BaseFS G !! p
  end.

(** One step of the loop over the overlay in [ListDir]. *)
Definition merge_overlay (h : Heap) (dirPath : string)
    (items : gmap string loc) (kv : string * option loc) : gmap string loc :=
  let '(p, e) := kv in
  if String.eqb (path.Dir p) dirPath && negb (String.eqb p dirPath) then
    match e with
    | None => delete (path.Base p) items
    | Some e => <[Name (deref h e) := e]> items
    end
  else items.

Definition lower_le (h : Heap) (a b : loc) : Prop :=
  String.le (strs.ToLower (Name (deref h a))) (strs.ToLower (Name (deref h b))).

#[global] Instance lower_le_dec h a b : Decision (lower_le h a b).
Proof. unfold lower_le. apply _. Defined.

(** [ListDir], with the order in which [range fs.overlay] visits the map
    made explicit: Go leaves it unspecified.  [sort.Slice] is modelled by a
    merge sort. *)
Definition ListDir_in (order : list (string * option loc))
    (G : Globals) (s : SessionFS) (h : Heap) (dirPath : string) : list loc + error :=
  let dirPath := path.Clean dirPath in
  match GetEntry G s dirPath with
  | None => inr ErrNotExist
  | Some entry =>
      if negb (IsDir (deref h entry)) then inr ErrNotExist
      else
        let items0 :=
          foldl (fun items e => <[Name (deref h e) := e]> items) ∅
                (default [] (BaseFSDirCache G !! dirPath)) in
        let items := foldl (merge_overlay h dirPath) items0 order in
        let res := snd <$> map_to_list items in
        inl (merge_sort (lower_le h) res)
  end.

Definition ListDir (G : Globals) (s : SessionFS) (h : Heap) (dirPath : string)
    : list loc + error :=
  ListDir_in (map_to_list (overlay s)) G s h dirPath.

Definition is_live (s : SessionFS) (p : string) : option loc :=
  match overlay s !! p with
  | Some (Some e) => Some e
  | _ => None
  end.

Definition Write (G : Globals) (p : string) (data : slice) (mode : Z)
    (s : SessionFS) (h : Heap) : option error * SessionFS * Heap :=
  if (Z.of_nat (s_len data) >? MaxFileSize)%Z then
    (Some (ErrNew "超出磁盘限额"), s, h)
  else
    let p := path.Clean p in
    match is_live s p with
    | Some existing =>
        let e := deref h existing in
        let '(now, h1) := time_Now h in
        let e' :=
          {| Name := Name e; IsDir := IsDir e; Content := data;
             Mode := if (mode =? 0)%Z then Mode e else mode;
             ModTime := now; UID := UID e; GID := GID e; Nlink := Nlink e |} in
        (None, s, store existing e' h1)
    | None =>
        let base := BaseFS G !! p in
        let '(uid, gid) :=
          match base with
          | Some b => (UID (deref h b), GID (deref h b))
          | None => (0%Z, 0%Z)
          end in
        let mode :=
          if (mode =? 0)%Z then
            match base with
            | Some b => Mode (deref h b)
            | None => perm "644"
            end
          else mode in
        let '(now, h1) := time_Now h in
        let '(l, h2) :=
          new_entry {| Name := path.Base p; IsDir := false; Content := data;
                       Mode := mode; ModTime := now; UID := uid; GID := gid;
                       Nlink := 1 |} h1 in
        (None, set_overlay s (<[p := Some l]> (overlay s)), h2)
    end.

Definition Mkdir (p : string) (s : SessionFS) (h : Heap)
    : option error * SessionFS * Heap :=
  let p := path.Clean p in
  let '(now, h1) := time_Now h in
  let '(l, h2) :=
    new_entry {| Name := path.Base p; IsDir := true; Content := nil_slice;
                 Mode := Z.lor (perm "755") ModeDir; ModTime := now;
                 UID := 0; GID := 0; Nlink := 2 |} h1 in
  (None, set_overlay s (<[p := Some l]> (overlay s)), h2).

Definition Remove (p : string) (s : SessionFS) (h : Heap)
    : option error * SessionFS * Heap :=
  let p := path.Clean p in
  (None, set_overlay s (<[p := None]> (overlay s)), h).

Definition Rename (G : Globals) (oldP newP : string) (s : SessionFS) (h : Heap)
    : option error * SessionFS * Heap :=
  match GetEntry G s oldP with
  | None => (Some ErrNotExist, s, h)
  | Some e =>
      let old := deref h e in
      let '(now, h1) := time_Now h in
      let '(l, h2) :=
        new_entry {| Name := path.Base newP; IsDir := IsDir old;
                     Content := Content old; Mode := Mode old; ModTime := now;
                     UID := UID old; GID := GID old; Nlink := Nlink old |} h1 in
      (None,
       set_overlay s (<[oldP := None]> (<[newP := Some l]> (overlay s))),
       h2)
  end.

Definition chmod_bits (old mode : Z) : Z :=
  Z.lor (Z.ldiff old (perm "777")) (Z.land mode (perm "777")).

Definition Chmod (G : Globals) (p : string) (mode : Z) (s : SessionFS) (h : Heap)
    : option error * SessionFS * Heap :=
  match GetEntry G s p with
  | None => (Some ErrNotExist, s, h)
  | Some e =>
      match is_live s p with
      | Some existing =>
          let x := deref h existing in
          let '(now, h1) := time_Now h in
          (None, s,
           store existing
             {| Name := Name x; IsDir := IsDir x; Content := Content x;
                Mode := chmod_bits (Mode x) mode; ModTime := now;
                UID := UID x; GID := GID x; Nlink := Nlink x |} h1)
      | None =>
          let x := deref h e in
          let '(now, h1) := time_Now h in
          let '(l, h2) :=
            new_entry {| Name := Name x; IsDir := IsDir x; Content := Content x;
                         Mode := chmod_bits (Mode x) mode; ModTime := now;
                         UID := UID x; GID := GID x; Nlink := Nlink x |} h1 in
          (None, set_overlay s (<[p := Some l]> (overlay s)), h2)
      end
  end.

Definition Chown (G : Globals) (p : string) (uid gid : Z) (s : SessionFS) (h : Heap)
    : option error * SessionFS * Heap :=
  match GetEntry G s p with
  | None => (Some ErrNotExist, s, h)
  | Some e =>
      let pick (new old : Z) := if (new =? -1)%Z then old else new in
      match is_live s p with
      | Some existing =>
          let x := deref h existing in
          let '(now, h1) := time_Now h in
          (None, s,
           store existing
             {| Name := Name x; IsDir := IsDir x; Content := Content x;
                Mode := Mode x; ModTime := now;
                UID := pick uid (UID x); GID := pick gid (GID x);
                Nlink := Nlink x |} h1)
      | None =>
          let x := deref h e in
          let '(now, h1) := time_Now h in
          let '(l, h2) :=
            new_entry {| Name := Name x; IsDir := IsDir x; Content := Content x;
                         Mode := Mode x; ModTime := now;
                         UID := pick uid (UID x); GID := pick gid (GID x);
                         Nlink := Nlink x |} h1 in
          (None, set_overlay s (<[p := Some l]> (overlay s)), h2)
      end
  end.

(** ** srv_sftp.go *)

(** What a call does: it returns, or the Go runtime panics. *)
Inductive outcome (A : Type) :=
  | Returns (a : A)
  | Panics (why : string).
Arguments Returns {A} a.
Arguments Panics {A} why.

(** [int] arithmetic: the sum of two 64-bit integers wraps around. *)
Definition wrap64 (z : Z) : Z := ((z + 2 ^ 63) mod 2 ^ 64 - 2 ^ 63)%Z.

Definition int_add (a b : Z) : Z := wrap64 (a + b).

(** The first half of [WriteAt], under the overlay lock: find the overlay
    entry of the path, or build one from [BaseFS] with a copy of the
    content.  Memory is unbounded: [make] never fails. *)
Definition find_or_create (G : Globals) (wpath : string) (p : bytes) (off : Z)
    (s : SessionFS) (h : Heap) : loc * SessionFS * Heap :=
  match is_live s wpath with
  | Some entry => (entry, s, h)
  | None =>
      let base := BaseFS G !! wpath in
      let baseContent :=
        match base with
        | Some b => slice_bytes h (Content (deref h b))
        | None => []
        end in
      let mode := match base with Some b => Mode (deref h b) | None => perm "644" end in
      let uid := match base with Some b => UID (deref h b) | None => 0%Z end in
      let gid := match base with Some b => GID (deref h b) | None => 0%Z end in
      let initCap := Z.of_nat (length baseContent) in
      let initCap :=
        if (int_add off (Z.of_nat (length p)) >? initCap)%Z
        then int_add off (Z.of_nat (length p)) else initCap in
      let '(newContent, h1) := make_slice (length baseContent) (Z.to_nat initCap) h in
      let h2 :=
        match s_ptr newContent with
        | Some a => set_array a (baseContent ++ drop (length baseContent) (array_at h1 a)) h1
        | None => h1
        end in
      let '(now, h3) := time_Now h2 in
      let '(entry, h4) :=
        new_entry {| Name := path.Base wpath; IsDir := false; Content := newContent;
                     Mode := mode; ModTime := now; UID := uid; GID := gid;
                     Nlink := 0 |} h3 in
      (entry, set_overlay s (<[wpath := Some entry]> (overlay s)), h4)
  end.

(** [copy(dst[off:], p)] on a backing array, when [p] fits. *)
Definition copy_at (arr : bytes) (off : nat) (p : bytes) : bytes :=
  take off arr ++ p ++ drop (off + length p) arr.

(** The growth step of [WriteAt]: when the write ends beyond the
    capacity, the content moves to a new array of twice the capacity, or of
    the size the write needs if that is more, and of [MaxFileSize] at
    most. *)
Definition grow (e : FileEntry) (end_ : Z) (h : Heap) : slice * Heap :=
  if (end_ >? Z.of_nat (cap h (Content e)))%Z then
    let newCap := end_ in
    let newCap :=
      if (newCap <? Z.of_nat (cap h (Content e)) * 2)%Z
      then (Z.of_nat (cap h (Content e)) * 2)%Z else newCap in
    let newCap := if (newCap >? MaxFileSize)%Z then MaxFileSize else newCap in
    let old := slice_bytes h (Content e) in
    let '(newSlice, h1) := make_slice (s_len (Content e)) (Z.to_nat newCap) h in
    match s_ptr newSlice with
    | Some a => (newSlice, set_array a (old ++ drop (length old) (array_at h1 a)) h1)
    | None => (newSlice, h1)
    end
  else (Content e, h).

(** The second half of [WriteAt], under the entry's own lock. *)
Definition write_bytes (entry : loc) (p : bytes) (off : Z) (h : Heap)
    : outcome (Z * option error) * Heap :=
  let end_ := int_add off (Z.of_nat (length p)) in
  if (end_ >? MaxFileSize)%Z then (Returns (0%Z, Some (ErrNew "quota exceeded")), h)
  else
    let e := deref h entry in
    let '(c, h1) := grow e end_ h in
    (* extend the length *)
    let c :=
      if (end_ >? Z.of_nat (s_len c))%Z
      then {| s_ptr := s_ptr c; s_len := Z.to_nat end_ |} else c in
    (* entry.Content[off:] *)
    if ((off <? 0) || (off >? Z.of_nat (s_len c)))%Z then
      (Panics "slice bounds out of range",
       store entry
         {| Name := Name e; IsDir := IsDir e; Content := c; Mode := Mode e;
            ModTime := ModTime e; UID := UID e; GID := GID e; Nlink := Nlink e |} h1)
    else
      let h2 :=
        match s_ptr c with
        | Some a => set_array a (copy_at (array_at h1 a) (Z.to_nat off) p) h1
        | None => h1
        end in
      let '(now, h3) := time_Now h2 in
      (Returns (Z.of_nat (length p), None),
       store entry
         {| Name := Name e; IsDir := IsDir e; Content := c; Mode := Mode e;
            ModTime := now; UID := UID e; GID := GID e; Nlink := Nlink e |} h3).

(** [SFTPWriter.WriteAt]; the writer holds the session and the path. *)
Definition WriteAt (G : Globals) (wpath : string) (p : bytes) (off : Z)
    (s : SessionFS) (h : Heap) : outcome (Z * option error) * SessionFS * Heap :=
  let '(entry, s1, h1) := find_or_create G wpath p off s h in
  let '(r, h2) := write_bytes entry p off h1 in
  (r, s1, h2).

(** [Fileread]: the bytes behind the reader it returns. *)
Definition Fileread (G : Globals) (filepath : string) (s : SessionFS) (h : Heap)
    : bytes + error :=
  match GetEntry G s filepath with
  | None => inr ErrNotExist
  | Some e => inl (content h e)
  end.

(** [Filecmd]; [mode] is [r.Attributes().FileMode()]. *)
Definition Filecmd (G : Globals) (method filepath target : string) (mode : Z)
    (s : SessionFS) (h : Heap) : option error * SessionFS * Heap :=
  if String.eqb method "Setstat" then
    if negb (mode =? 0)%Z then Chmod G filepath mode s h else (None, s, h)
  else if String.eqb method "Rename" then Rename G filepath target s h
  else if String.eqb method "Rmdir" || String.eqb method "Remove" then Remove filepath s h
  else if String.eqb method "Mkdir" then Mkdir filepath s h
  else (Some ErrSSHFxOpUnsupported, s, h).

(** [Filelist]: the entries behind the lister it returns. *)
Definition Filelist (G : Globals) (method filepath : string) (s : SessionFS) (h : Heap)
    : list loc + error :=
  if String.eqb method "List" then ListDir G s h filepath
  else if String.eqb method "Stat" || String.eqb method "Lstat" then
    match GetEntry G s filepath with
    | None => inr ErrNotExist
    | Some e => inl [e]
    end
  else inr ErrSSHFxOpUnsupported.

(** ** fs_data.go: the base image *)

(** The [add] closure of [initFS]. *)
Definition add (t : Z) (filePath content_ : string) (mode uid gid : Z)
    (st : gmap string loc * Heap) : gmap string loc * Heap :=
  let '(base, h) := st in
  let '(c, h1) := slice_of (to_bytes content_) h in
  let '(l, h2) :=
    new_entry {| Name := path.Base filePath; IsDir := false; Content := c;
                 Mode := mode; ModTime := t; UID := uid; GID := gid; Nlink := 1 |} h1 in
  (<[filePath := l]> base, h2).

Definition add_dir (t : Z) (st : gmap string loc * Heap) (d : string)
    : gmap string loc * Heap :=
  let '(base, h) := st in
  let '(l, h1) :=
    new_entry {| Name := path.Base d; IsDir := true; Content := nil_slice;
                 Mode := Z.lor (perm "755") ModeDir; ModTime := t;
                 UID := 0; GID := 0; Nlink := 2 |} h in
  (<[d := l]> base, h1).

Definition dirs : list string :=
  [ "/"; "/bin"; "/boot"; "/dev"; "/etc"; "/home"; "/lib"; "/lib64";
    "/media"; "/mnt"; "/opt"; "/proc"; "/root"; "/run"; "/sbin";
    "/srv"; "/sys"; "/tmp"; "/usr"; "/var"; "/usr/bin"; "/usr/sbin";
    "/usr/local"; "/usr/local/bin"; "/var/log"; "/home/user";
    "/etc/ssh"; "/etc/systemd"; "/etc/network";
    "/proc/sys"; "/proc/sys/kernel"; "/proc/net";
    "/sys/class"; "/sys/class/net"; "/sys/class/net/eth0";
    "/var/www"; "/var/www/html" ].

Definition passwdContent : string :=
  "root:x:0:0:root:/root:/bin/bash" +:+ nl +:+
  "daemon:x:1:1:daemon:/usr/sbin:/usr/sbin/nologin" +:+ nl +:+
  "bin:x:2:2:bin:/bin:/usr/sbin/nologin" +:+ nl +:+
  "sys:x:3:3:sys:/dev:/usr/sbin/nologin" +:+ nl +:+
  "sync:x:4:65534:sync:/bin:/bin/sync" +:+ nl +:+
  "games:x:5:60:games:/usr/games:/usr/sbin/nologin" +:+ nl +:+
  "man:x:6:12:man:/var/cache/man:/usr/sbin/nologin" +:+ nl +:+
  "lp:x:7:7:lp:/var/spool/lpd:/usr/sbin/nologin" +:+ nl +:+
  "mail:x:8:8:mail:/var/mail:/usr/sbin/nologin" +:+ nl +:+
  "news:x:9:9:news:/var/spool/news:/usr/sbin/nologin" +:+ nl +:+
  "www-data:x:33:33:www-data:/var/www:/usr/sbin/nologin" +:+ nl +:+
  "sshd:x:108:65534::/run/sshd:/usr/sbin/nologin" +:+ nl +:+
  "user:x:1000:1000:user:/home/user:/bin/bash" +:+ nl.

Definition groupContent : string :=
  "root:x:0:" +:+ nl +:+
  "daemon:x:1:" +:+ nl +:+
  "bin:x:2:" +:+ nl +:+
  "sys:x:3:" +:+ nl +:+
  "adm:x:4:syslog" +:+ nl +:+
  "tty:x:5:" +:+ nl +:+
  "disk:x:6:" +:+ nl +:+
  "lp:x:7:" +:+ nl +:+
  "mail:x:8:" +:+ nl +:+
  "news:x:9:" +:+ nl +:+
  "www-data:x:33:" +:+ nl +:+
  "sshd:x:108:" +:+ nl +:+
  "user:x:1000:" +:+ nl.

(** One of the two loops of [parseUsersGroups]: lines with more than [min]
    colon-separated fields map their first field to the number in the
    third. *)
Definition parse_ids (min : nat) (text : string) : gmap string Z :=
  foldl (fun m line =>
           let parts := strs.Split line ":"%char in
           if (min <? length parts)%nat
           then <[nth 0 parts "" := fst (strconv.Atoi (nth 2 parts ""))]> m
           else m)
        ∅ (strs.Split text "010"%char).

Definition cmds : list string :=
  [ "ls"; "cd"; "pwd"; "cat"; "echo"; "touch"; "mkdir"; "rm"; "mv"; "cp";
    "grep"; "ps"; "top"; "kill"; "id"; "whoami"; "w"; "last"; "history";
    "date"; "uptime"; "free"; "df"; "uname"; "stty"; "env"; "clear"; "exit";
    "vi"; "vim"; "wget"; "curl"; "ssh"; "chmod"; "chown"; "which"; "find";
    "head"; "tail"; "wc"; "export"; "mount"; "stat"; "who"; "sudo";
    "ping"; "netstat"; "ss"; "sleep"; "ln"; "rmdir"; "more"; "less";
    "kernelpanic" ].

Definition chars (codes : list nat) : string :=
  foldr (fun n s => String (ascii_of_nat n) s) "" codes.

Definition binContent : string :=
  chars [127] +:+ "ELF" +:+
  chars [2; 1; 1; 0; 0; 0; 0; 0; 0; 0; 0; 0; 2; 0; 62; 0; 1; 0; 0; 0].

Definition add_cmd (t : Z) (st : gmap string loc * Heap) (c : string)
    : gmap string loc * Heap :=
  add t ("/usr/bin/" +:+ c) binContent (perm "755") 0 0
    (add t ("/bin/" +:+ c) binContent (perm "755") 0 0 st).

(** The files of [initFS], in the order of its [add] calls. *)
Definition add_files (t : Z) (st : gmap string loc * Heap) : gmap string loc * Heap :=
  let st := add t "/etc/passwd" passwdContent (perm "644") 0 0 st in
  let st := add t "/etc/group" groupContent (perm "644") 0 0 st in
  let st := add t "/etc/hostname" "ubuntu-server" (perm "644") 0 0 st in
  let st := add t "/etc/os-release"
    ("PRETTY_NAME=" +:+ dq +:+ "Ubuntu 22.04.1 LTS" +:+ dq +:+ nl +:+
     "NAME=" +:+ dq +:+ "Ubuntu" +:+ dq +:+ nl +:+
     "VERSION_ID=" +:+ dq +:+ "22.04" +:+ dq +:+ nl +:+
     "VERSION=" +:+ dq +:+ "22.04.1 LTS (Jammy Jellyfish)" +:+ dq +:+ nl +:+
     "ID=ubuntu" +:+ nl) (perm "644") 0 0 st in
  let st := add t "/etc/issue" ("Ubuntu 22.04.1 LTS \n \l" +:+ nl) (perm "644") 0 0 st in
  let st := add t "/etc/shadow"
    ("root:*:18890:0:99999:7:::" +:+ nl +:+ "user:$6$...:18890:0:99999:7:::" +:+ nl)
    (perm "640") 0 42 st in
  let st := add t "/root/.bashrc"
    ("export PS1='\[\033[01;32m\]\u@\h\[\033[00m\]:\[\033[01;34m\]\w\[\033[00m\]\$ '" +:+ nl +:+
     "alias ll='ls -alF'" +:+ nl) (perm "644") 0 0 st in
  let st := add t "/etc/hosts"
    ("127.0.0.1 localhost" +:+ nl +:+ "127.0.1.1 ubuntu-server" +:+ nl) (perm "644") 0 0 st in
  let st := add t "/etc/resolv.conf"
    ("nameserver 1.1.1.1" +:+ nl +:+ "nameserver 8.8.8.8" +:+ nl) (perm "644") 0 0 st in
  let st := add t "/etc/fstab" ("/dev/sda2 / ext4 defaults 0 0" +:+ nl) (perm "644") 0 0 st in
  let st := add t "/proc/version"
    "Linux version 5.15.0-generic (buildd@lcy02-amd64-001) (gcc version 11.2.0 (Ubuntu 11.2.0-19ubuntu1))"
    (perm "444") 0 0 st in
  let cpu (n : string) :=
    "processor" +:+ tab +:+ ": " +:+ n +:+ nl +:+
    "vendor_id" +:+ tab +:+ ": GenuineIntel" +:+ nl +:+
    "cpu family" +:+ tab +:+ ": 6" +:+ nl +:+
    "model" +:+ tab +:+ tab +:+ ": 165" +:+ nl +:+
    "model name" +:+ tab +:+ ": Intel(R) Core(TM) i7-10700 CPU @ 2.90GHz" +:+ nl in
  let st := add t "/proc/cpuinfo" (cpu "0" +:+ nl +:+ cpu "1") (perm "444") 0 0 st in
  let st := add t "/proc/meminfo"
    ("MemTotal:       16303284 kB" +:+ nl +:+
     "MemFree:         2543210 kB" +:+ nl +:+
     "MemAvailable:   10234123 kB" +:+ nl +:+
     "Buffers:          223412 kB" +:+ nl +:+
     "Cached:          8123456 kB" +:+ nl +:+
     "SwapTotal:       2097148 kB" +:+ nl +:+
     "SwapFree:        2097148 kB" +:+ nl) (perm "444") 0 0 st in
  let st := add t "/proc/uptime" "3600.00 7100.00" (perm "444") 0 0 st in
  let st := add t "/proc/loadavg" "0.01 0.05 0.05 1/256 12345" (perm "444") 0 0 st in
  let st := add t "/sys/class/net/eth0/address" ("00:11:22:33:44:55" +:+ nl) (perm "444") 0 0 st in
  let st := add t "/dev/null" "" (perm "666") 0 0 st in
  let st := add t "/dev/zero" "" (perm "666") 0 0 st in
  let st := add t "/dev/random" "gibberish..." (perm "666") 0 0 st in
  let st := add t "/dev/urandom" "more gibberish..." (perm "666") 0 0 st in
  foldl (add_cmd t) st cmds.

(** The loop that fills [BaseFSDirCache]; [range BaseFS] visits the map in
    the order of [map_to_list]. *)
Definition build_cache (base : gmap string loc) : gmap string (list loc) :=
  foldl (fun cache '(p, e) =>
           let dir := path.Dir p in
           if negb (String.eqb p dir)
           then <[dir := default [] (cache !! dir) ++ [e]]> cache
           else cache)
        ∅ (map_to_list base).

Definition empty_heap (t0 : Z) : Heap := {| objects := ∅; arrays := ∅; clock := t0 |}.

(** The process: the package-level variables, the heap, the heap of
    [SessionFS] objects, and what the outside world decides. *)
Record Ambient := {
  time_Format : string → Z → string;   (* t.Format(layout) *)
  since_minutes : Z → Z → Z;           (* int(now.Sub(start).Minutes()) *)
  formatSize : Z → string;             (* floating point *)
  tabwriter_Flush : string → string;   (* text/tabwriter on the buffered rows *)
  rand_Intn : Z → Z;
  ping_rtt : Z → string;               (* "%.1f" of 20.0+rand.Float64()*10 *)
  kernelpanic_screen : string;         (* what the game draws *)
}.

Record World := {
  globals : Globals;
  heap : Heap;
  fss : gmap loc SessionFS;
  ambient : Ambient;
}.

(** [initFS], started at clock value [t0]: [startTime] and the [t] of the
    entries are two successive readings of the clock. *)
Definition initFS (amb : Ambient) (t0 : Z) : World :=
  let '(start, h) := time_Now (empty_heap t0) in
  let '(t, h) := time_Now h in
  let st := foldl (add_dir t) (∅, h) dirs in
  let '(base, h) := add_files t st in
  {| globals :=
       {| BaseFS := base;
          BaseFSDirCache := build_cache base;
          Users := parse_ids 3 passwdContent;
          Groups := parse_ids 2 groupContent;
          startTime := start;
          GlobalSessionFS := 0 |};
     heap := h;
     fss := {[ 0 := NewSessionFS ]};
     ambient := amb |}.

(** ** The terminal (Terminal, parseArgs, execPipeline, runCommand) *)

Record Terminal := {
  FS : loc;
  Env : gmap string string;
  History : list string;
  Width : Z;
  Height : Z;
  Running : bool;
  pid : Z;
  lastExitCode : Z;
  RW : string;   (* every byte written to the connection so far *)
}.

Definition NewTerminal (w : World) (fs : loc) (env : gmap string string) (width height : Z)
    : Terminal :=
  {| FS := fs; Env := env; History := []; Width := width; Height := height;
     Running := true; pid := (1000 + rand_Intn (ambient w) 20000)%Z;
     lastExitCode := 0; RW := "" |}.

(** [CRLFWriter.Write] *)
Fixpoint crlf (p : string) : string :=
  match p with
  | EmptyString => EmptyString
  | String c p' =>
      if Ascii.eqb c "010"%char then String "013"%char (String "010"%char (crlf p'))
      else String c (crlf p')
  end.

(** The state of [parseArgs]: the arguments so far (last first), the
    builder (last byte first), [inQuote] and [quoteChar]. *)
Definition parse_step (st : list string * string * bool * ascii) (r : ascii)
    : list string * string * bool * ascii :=
  let '(args, buf, inQuote, quoteChar) := st in
  if Ascii.eqb r "034"%char || Ascii.eqb r "039"%char then
    if negb inQuote then (args, buf, true, r)
    else if Ascii.eqb r quoteChar then (args, buf, false, quoteChar)
    else (args, String r buf, inQuote, quoteChar)
  else if Ascii.eqb r " "%char || Ascii.eqb r "009"%char then
    if negb inQuote then
      if negb (String.eqb buf "") then (String.rev buf :: args, "", inQuote, quoteChar)
      else (args, buf, inQuote, quoteChar)
    else (args, String r buf, inQuote, quoteChar)
  else (args, String r buf, inQuote, quoteChar).

Definition parseArgs (cmdline : string) : list string :=
  let '(args, buf, _, _) :=
    foldl parse_step ([], "", false, "000"%char) (list_ascii_of_string cmdline) in
  rev (if negb (String.eqb buf "") then String.rev buf :: args else args).

(** What a command has done so far: the bytes written to its [out], the
    terminal, the process, and whether the runtime has panicked. *)
Record cst := {
  c_out : string;
  c_term : Terminal;
  c_world : World;
  c_crash : option string;
}.

Definition print (text : string) (st : cst) : cst :=
  {| c_out := c_out st +:+ text; c_term := c_term st; c_world := c_world st;
     c_crash := c_crash st |}.

Definition set_term (t : Terminal) (st : cst) : cst :=
  {| c_out := c_out st; c_term := t; c_world := c_world st; c_crash := c_crash st |}.

Definition set_world (w : World) (st : cst) : cst :=
  {| c_out := c_out st; c_term := c_term st; c_world := w; c_crash := c_crash st |}.

Definition crash (why : string) (st : cst) : cst :=
  {| c_out := c_out st; c_term := c_term st; c_world := c_world st; c_crash := Some why |}.

Definition set_exit (code : Z) (st : cst) : cst :=
  let t := c_term st in
  set_term {| FS := FS t; Env := Env t; History := History t; Width := Width t;
              Height := Height t; Running := Running t; pid := pid t;
              lastExitCode := code; RW := RW t |} st.

Definition set_env (env : gmap string string) (st : cst) : cst :=
  let t := c_term st in
  set_term {| FS := FS t; Env := env; History := History t; Width := Width t;
              Height := Height t; Running := Running t; pid := pid t;
              lastExitCode := lastExitCode t; RW := RW t |} st.

Definition stop_running (st : cst) : cst :=
  let t := c_term st in
  set_term {| FS := FS t; Env := Env t; History := History t; Width := Width t;
              Height := Height t; Running := false; pid := pid t;
              lastExitCode := lastExitCode t; RW := RW t |} st.

Definition to_RW (text : string) (t : Terminal) : Terminal :=
  {| FS := FS t; Env := Env t; History := History t; Width := Width t;
     Height := Height t; Running := Running t; pid := pid t;
     lastExitCode := lastExitCode t; RW := RW t +:+ text |}.

(** The session object behind the terminal's [FS] pointer. *)
Definition fs_at (w : World) (l : loc) : SessionFS := default NewSessionFS (fss w !! l).

Definition put (l : loc) (r : SessionFS * Heap) (w : World) : World :=
  {| globals := globals w; heap := r.2; fss := <[l := r.1]> (fss w);
     ambient := ambient w |}.

Definition the_fs (st : cst) : SessionFS := fs_at (c_world st) (FS (c_term st)).
Definition the_heap (st : cst) : Heap := heap (c_world st).
Definition the_globals (st : cst) : Globals := globals (c_world st).

(** A call of a [SessionFS] method through [t.FS]; the method's error is
    returned beside the new state. *)
Definition call (m : SessionFS → Heap → option error * SessionFS * Heap) (st : cst)
    : option error * cst :=
  let '(err, s, h) := m (the_fs st) (the_heap st) in
  (err, set_world (put (FS (c_term st)) (s, h) (c_world st)) st).

Definition get (st : cst) (p : string) : option FileEntry :=
  deref (the_heap st) <$> GetEntry (the_globals st) (the_fs st) p.

Definition bytes_of (st : cst) (e : FileEntry) : string :=
  of_bytes (slice_bytes (the_heap st) (Content e)).

(** The expansion loop at the head of [runCommand]. *)
Definition expand (t : Terminal) (arg : string) : string :=
  if strs.HasPrefix arg "$" then
    let varName := strs.drop 1 arg in
    match Env t !! varName with
    | Some val => val
    | None =>
        if String.eqb varName "?" then strconv.Itoa (lastExitCode t)
        else if String.eqb varName "$" then strconv.Itoa (pid t)
        else arg
    end
  else arg.

Definition expand_args (t : Terminal) (args : list string) : list string :=
  match args with
  | [] => []
  | c :: rest => c :: (expand t <$> rest)
  end.

(** [os.FileMode.String] *)
Definition mode_String (m : Z) : string :=
  let types :=
    foldr (fun '(i, c) s => if Z.testbit m (31 - Z.of_nat i) then String c s else s) ""
          (imap (fun i c => (i, c)) (list_ascii_of_string "dalTLDpSugct?")) in
  let types := if String.eqb types "" then "-" else types in
  let perms :=
    foldr (fun '(i, c) s =>
             String (if Z.testbit m (8 - Z.of_nat i) then c else "-"%char) s) ""
          (imap (fun i c => (i, c)) (list_ascii_of_string "rwxrwxrwx")) in
  types +:+ perms.

Definition getNameByID (m : gmap string Z) (id : Z) : option string :=
  fst <$> List.find (fun kv => (snd kv =? id)%Z) (map_to_list m).

(** The verb [%5s] *)
Definition pad5 (s : string) : string :=
  chars (replicate (5 - String.length s) 32) +:+ s.

Definition color (useColor : bool) (f : FileEntry) : string :=
  if useColor then
    if IsDir f then esc +:+ "[1;34m" +:+ Name f +:+ esc +:+ "[0m"
    else if negb (Z.land (Mode f) (perm "111") =? 0)%Z
    then esc +:+ "[1;32m" +:+ Name f +:+ esc +:+ "[0m"
    else Name f
  else Name f.

Definition newer (h : Heap) (a b : loc) : Prop :=
  (ModTime (deref h b) ≤ ModTime (deref h a))%Z.

#[global] Instance newer_dec h a b : Decision (newer h a b).
Proof. unfold newer. apply _. Defined.

Definition ls_flag (cmd : string) (args : list string) (c : string) : bool :=
  (String.eqb c "l" && String.eqb cmd "ll") ||
  existsb (fun arg => strs.HasPrefix arg "-" && strs.Contains (strs.drop 1 arg) c) args.

Definition ls_one (cmd : string) (flags : list string) (useColor : bool)
    (st : cst) (p : string) : cst :=
  match ListDir (the_globals st) (the_fs st) (the_heap st) p with
  | inr _ =>
      set_exit 2 (print ("ls: 无法访问 '" +:+ p +:+ "': file does not exist" +:+ nl) st)
  | inl files =>
      let h := the_heap st in
      let amb := ambient (c_world st) in
      let files := if ls_flag cmd flags "t" then merge_sort (newer h) files else files in
      let files := if ls_flag cmd flags "r" then rev files else files in
      let shown :=
        List.filter (fun f => ls_flag cmd flags "a" || negb (strs.HasPrefix (Name f) "."))
                    (deref h <$> files) in
      if ls_flag cmd flags "l" then
        let total :=
          foldl (fun n f => (n + (Z.of_nat (s_len (Content f)) / 1024 + 4))%Z) 0%Z shown in
        let row f :=
          let userName := default "root" (getNameByID (Users (the_globals st)) (UID f)) in
          let groupName := default "root" (getNameByID (Groups (the_globals st)) (GID f)) in
          let sizeStr :=
            if ls_flag cmd flags "h" then formatSize amb (Z.of_nat (s_len (Content f)))
            else strconv.Itoa (Z.of_nat (s_len (Content f))) in
          mode_String (Mode f) +:+ " " +:+ strconv.Itoa (Nlink f) +:+ " " +:+
          userName +:+ " " +:+ groupName +:+ " " +:+ pad5 sizeStr +:+ " " +:+
          time_Format amb "Jan _2 15:04" (ModTime f) +:+ " " +:+ color useColor f +:+ nl in
        print (tabwriter_Flush amb (String.concat "" (row <$> shown)))
              (print ("total " +:+ strconv.Itoa total +:+ nl) st)
      else
        print nl (print (String.concat "" ((fun f => color useColor f +:+ "  ") <$> shown)) st)
  end.

Definition cmd_ls (cmd : string) (args : list string) (useColor : bool) (st : cst) : cst :=
  let dir := cwd (the_fs st) in
  let rest := List.tl args in
  let paths := Abs (the_fs st) <$> List.filter (fun a => negb (strs.HasPrefix a "-")) rest in
  let paths := if decide (paths = []) then [dir] else paths in
  foldl (ls_one cmd rest useColor) st paths.

Definition cmd_cd (args : list string) (st : cst) : cst :=
  match args with
  | _ :: a1 :: _ =>
      let target := Abs (the_fs st) a1 in
      match get st target with
      | Some e =>
          if IsDir e then
            set_world (put (FS (c_term st)) (set_cwd (the_fs st) target, the_heap st)
                           (c_world st)) st
          else set_exit 1 (print ("-bash: cd: " +:+ a1 +:+ ": 没有那个文件或目录" +:+ nl) st)
      | None => set_exit 1 (print ("-bash: cd: " +:+ a1 +:+ ": 没有那个文件或目录" +:+ nl) st)
      end
  | _ =>
      set_world (put (FS (c_term st)) (set_cwd (the_fs st) "/root", the_heap st)
                     (c_world st)) st
  end.

Definition cat_one (st : cst) (f : string) : cst :=
  let p := Abs (the_fs st) f in
  if String.eqb p "/dev/null" then st
  else if String.eqb p "/dev/zero" then print (chars (replicate 1024 0)) st
  else
    match get st p with
    | Some e =>
        if IsDir e then set_exit 1 (print ("cat: " +:+ f +:+ ": 是一个目录" +:+ nl) st)
        else
          let text := bytes_of st e in
          let st := print text st in
          if negb (String.eqb text "") && negb (strs.HasSuffix text nl)
          then print nl st else st
    | None => set_exit 1 (print ("cat: " +:+ f +:+ ": 没有那个文件或目录" +:+ nl) st)
    end.

Definition cmd_cat (args : list string) (stdin : string) (st : cst) : cst :=
  match args with
  | _ :: ((_ :: _) as files) => foldl cat_one st files
  | _ => print stdin st
  end.

Definition cmd_cp (args : list string) (st : cst) : cst :=
  match args with
  | _ :: a1 :: a2 :: _ =>
      let src := Abs (the_fs st) a1 in
      let dst := Abs (the_fs st) a2 in
      match get st src with
      | None =>
          set_exit 1 (print ("cp: 无法获取 '" +:+ a1 +:+ "' 的状态: 没有那个文件或目录" +:+ nl) st)
      | Some e =>
          if IsDir e then
            set_exit 1 (print ("cp: -r 未指定; 省略目录 '" +:+ a1 +:+ "'" +:+ nl) st)
          else
            let dst :=
              match get st dst with
              | Some d => if IsDir d then path.Join [dst; Name e] else dst
              | None => dst
              end in
            snd (call (Write (the_globals st) dst (Content e) (Mode e)) st)
      end
  | _ => st
  end.

Definition cmd_mv (args : list string) (st : cst) : cst :=
  match args with
  | _ :: a1 :: a2 :: _ =>
      let src := Abs (the_fs st) a1 in
      let dst := Abs (the_fs st) a2 in
      let dst :=
        match get st dst with
        | Some d => if IsDir d then path.Join [dst; path.Base src] else dst
        | None => dst
        end in
      match call (Rename (the_globals st) src dst) st with
      | (Some _, st) => set_exit 1 (print ("mv: file does not exist" +:+ nl) st)
      | (None, st) => st
      end
  | _ => st
  end.

Definition cmd_mkdir (args : list string) (st : cst) : cst :=
  foldl (fun st d =>
           if negb (strs.HasPrefix d "-")
           then snd (call (Mkdir (Abs (the_fs st) d)) st) else st)
        st (List.tl args).

Definition cmd_rm (args : list string) (st : cst) : cst :=
  foldl (fun st f =>
           if negb (strs.HasPrefix f "-") then
             let p := Abs (the_fs st) f in
             match get st p with
             | Some _ => snd (call (Remove p) st)
             | None =>
                 set_exit 1 (print ("rm: 无法删除 '" +:+ f +:+ "': 没有那个文件或目录" +:+ nl) st)
             end
           else st)
        st (List.tl args).

(** A call of [t.FS.Write] with a slice the caller has just built. *)
Definition write_fresh (p : string) (data : bytes) (mode : Z) (st : cst) : option error * cst :=
  call (fun s h => let '(d, h1) := slice_of data h in Write (the_globals st) p d mode s h1) st.

Definition cmd_touch (args : list string) (st : cst) : cst :=
  foldl (fun st f =>
           let p := Abs (the_fs st) f in
           match get st p with
           | None => snd (write_fresh p [] (perm "644") st)
           | Some _ => st
           end)
        st (List.tl args).

(** The closure [doGrep] of the [grep] branch, on the lines its scanner
    yields. *)
Definition doGrep (pattern : string) (many useColor : bool) (lines : list string)
    (fname : string) (st : cst) : cst :=
  foldl (fun st line =>
           if strs.Contains line pattern then
             let prefix :=
               if many then
                 if useColor then esc +:+ "[35m" +:+ fname +:+ esc +:+ "[0m:"
                 else fname +:+ ":"
               else "" in
             let outputLine :=
               if useColor
               then strs.ReplaceAll line pattern (esc +:+ "[1;31m" +:+ pattern +:+ esc +:+ "[0m")
               else line in
             print (prefix +:+ outputLine +:+ nl) st
           else st)
        st lines.

Definition cmd_grep (args : list string) (stdin : string) (useColor : bool) (st : cst) : cst :=
  match args with
  | _ :: pattern :: files =>
      let '(pattern, files) :=
        if strs.HasPrefix pattern "-" then
          match files with
          | f0 :: rest => (f0, rest)
          | [] => (pattern, files)
          end
        else (pattern, files) in
      let many := (1 <? length files)%nat in
      match files with
      | [] => doGrep pattern many useColor (bufio.scan_lines stdin) "(standard input)" st
      | _ =>
          foldl (fun st f =>
                   match get st (Abs (the_fs st) f) with
                   | Some e =>
                       if negb (IsDir e)
                       then doGrep pattern many useColor (bufio.scan_lines (bytes_of st e)) f st
                       else print ("grep: " +:+ f +:+ ": 没有那个文件或目录" +:+ nl) st
                   | None => print ("grep: " +:+ f +:+ ": 没有那个文件或目录" +:+ nl) st
                   end)
                st files
      end
  | _ => st
  end.

(** [time.Now()] inside a command. *)
Definition read_clock (st : cst) : Z * cst :=
  let w := c_world st in
  let '(t, h) := time_Now (heap w) in
  (t, set_world {| globals := globals w; heap := h; fss := fss w; ambient := ambient w |} st).

Definition fmt (st : cst) (layout : string) (t : Z) : string :=
  time_Format (ambient (c_world st)) layout t.

Definition cmd_ps (st : cst) : cst :=
  let start := fmt st "15:04" (startTime (the_globals st)) in
  let st := print ("USER         PID %CPU %MEM    VSZ   RSS TTY      STAT START   TIME COMMAND" +:+ nl) st in
  let st := print ("root           1  0.0  0.1 168532 12856 ?        Ss   " +:+ start +:+ "   0:02 /sbin/init" +:+ nl) st in
  let st := print ("root           2  0.0  0.0      0     0 ?        S    " +:+ start +:+ "   0:00 [kthreadd]" +:+ nl) st in
  let st := print ("root         832  0.0  0.3  14520  6520 ?        Ss   " +:+ start +:+ "   0:00 /usr/sbin/sshd -D" +:+ nl) st in
  let myPID := pid (c_term st) in
  let '(t1, st) := read_clock st in
  let st := print ("root        " +:+ strconv.Itoa myPID +:+ "  0.0  0.1  12340  4320 pts/0    Ss   " +:+ fmt st "15:04" t1 +:+ "   0:00 -bash" +:+ nl) st in
  let '(t2, st) := read_clock st in
  print ("root        " +:+ strconv.Itoa (myPID + 10) +:+ "  0.0  0.0   9820  3210 pts/0    R+   " +:+ fmt st "15:04" t2 +:+ "   0:00 ps aux" +:+ nl) st.

Definition cmd_id (st : cst) : cst :=
  let u := default "root" (Env (c_term st) !! "USER") in
  let uid := default 0%Z (Users (the_globals st) !! u) in
  let gid := default 0%Z (Groups (the_globals st) !! u) in
  print ("uid=" +:+ strconv.Itoa uid +:+ "(" +:+ u +:+ ") gid=" +:+ strconv.Itoa gid +:+
         "(" +:+ u +:+ ") groups=" +:+ strconv.Itoa gid +:+ "(" +:+ u +:+ ")" +:+ nl) st.

Definition cmd_uptime (st : cst) : cst :=
  let '(t1, st) := read_clock st in
  let d := since_minutes (ambient (c_world st)) (startTime (the_globals st)) t1 in
  let '(t2, st) := read_clock st in
  print (" " +:+ fmt st "15:04:05" t2 +:+ " up " +:+ strconv.Itoa d +:+
         " min,  1 user,  load average: 0.00, 0.01, 0.05" +:+ nl) st.

Definition cmd_wget (cmd : string) (args : list string) (st : cst) : cst :=
  match args with
  | _ :: _ :: _ =>
      let url := List.last args "" in
      if String.eqb cmd "wget" then
        let '(t, st) := read_clock st in
        let st := print ("--" +:+ fmt st "2006-01-02 15:04:05" t +:+ "--  " +:+ url +:+ nl) st in
        match strs.Split url "/"%char with
        | _ :: _ :: host :: _ =>
            let st := print ("Resolving " +:+ host +:+ "... 127.0.0.1" +:+ nl) st in
            let st := print ("Connecting to 127.0.0.1... connected." +:+ nl) st in
            let st := print ("HTTP request sent, awaiting response... 404 Not Found" +:+ nl) st in
            let st := print ("2023-01-01 12:00:00 ERROR 404: Not Found." +:+ nl) st in
            set_exit 1 st
        | _ => crash "index out of range [2]" st
        end
      else set_exit 1 (print ("curl: (6) Could not resolve host: " +:+ url +:+ nl) st)
  | _ => set_exit 1 (print (cmd +:+ ": try 'help'" +:+ nl) st)
  end.

Definition cmd_chmod (args : list string) (st : cst) : cst :=
  match args with
  | _ :: a1 :: ((_ :: _) as files) =>
      match strconv.ParseInt_8_32 a1 with
      | (m, true) =>
          foldl (fun st f =>
                   snd (call (Chmod (the_globals st) (Abs (the_fs st) f) (m mod 2 ^ 32)%Z) st))
                st files
      | (_, false) => set_exit 1 (print ("chmod: 无效模式: '" +:+ a1 +:+ "'" +:+ nl) st)
      end
  | _ => st
  end.

Definition cmd_chown (args : list string) (st : cst) : cst :=
  if (length args <? 3)%nat
  then set_exit 1 (print ("chown: 缺少操作数" +:+ nl) st) else st.

(** The argument loop of [head] and [tail]: the limit and the files. *)
Fixpoint head_args (args : list string) (limit : Z) (files : list string) : Z * list string :=
  match args with
  | [] => (limit, files)
  | a :: rest =>
      if String.eqb a "-n" then
        match rest with
        | n :: rest' => head_args rest' (fst (strconv.Atoi n)) files
        | [] => head_args rest limit (files ++ [a])
        end
      else head_args rest limit (files ++ [a])
  end.

Definition println_all (lines : list string) (st : cst) : cst :=
  foldl (fun st l => print (l +:+ nl) st) st lines.

(** [lines[start:end]] as the counting loops read it: nothing when the
    bounds cross. *)
Definition between (lines : list string) (start end_ : Z) : list string :=
  take (Z.to_nat (end_ - start)) (drop (Z.to_nat start) lines).

Definition printLines (text : string) (isHead : bool) (limit : Z) (st : cst) : cst :=
  let lines := strs.Split text "010"%char in
  let lines := if String.eqb (List.last lines "") "" then removelast lines else lines in
  let end_ := Z.of_nat (length lines) in
  let '(start, end_) :=
    if isHead then (0%Z, if (limit <? end_)%Z then limit else end_)
    else ((if (limit <? end_)%Z then end_ - limit else 0)%Z, end_) in
  println_all (between lines start end_) st.

Definition cmd_head (cmd : string) (args : list string) (stdin : string) (st : cst) : cst :=
  let '(limit, files) := head_args (List.tl args) 10%Z [] in
  match files with
  | [] =>
      let lines := bufio.scan_lines stdin in
      if String.eqb cmd "head" then println_all (take (Z.to_nat limit) lines) st
      else
        let n := Z.of_nat (length lines) in
        let start := if (n >? limit)%Z then (n - limit)%Z else 0%Z in
        println_all (between lines start n) st
  | _ =>
      foldl (fun st f =>
               let st := if (1 <? length files)%nat
                         then print ("==> " +:+ f +:+ " <==" +:+ nl) st else st in
               match get st (Abs (the_fs st) f) with
               | Some e => printLines (bytes_of st e) (String.eqb cmd "head") limit st
               | None => st
               end)
            st files
  end.

Definition handleWc (text : string) : Z := Z.of_nat (length (bufio.scan_lines text)).

Definition cmd_wc (args : list string) (stdin : string) (st : cst) : cst :=
  match args with
  | [_] => print (strconv.Itoa (handleWc stdin) +:+ nl) st
  | _ =>
      foldl (fun st f =>
               match get st (Abs (the_fs st) f) with
               | Some e =>
                   print (strconv.Itoa (handleWc (bytes_of st e)) +:+ " " +:+ f +:+ nl) st
               | None => st
               end)
            st (List.tl args)
  end.

Definition cmd_ping (args : list string) (st : cst) : cst :=
  match args with
  | _ :: target :: _ =>
      let ip := "1.2.3.4" in
      let st := print ("PING " +:+ target +:+ " (" +:+ ip +:+ ") 56(84) bytes of data." +:+ nl) st in
      let st :=
        foldl (fun st i =>
                 print ("64 bytes from " +:+ ip +:+ ": icmp_seq=" +:+ strconv.Itoa i +:+
                        " ttl=53 time=" +:+ ping_rtt (ambient (c_world st)) i +:+ " ms" +:+ nl) st)
              st [1; 2; 3; 4]%Z in
      let st := print nl st in
      let st := print ("--- " +:+ target +:+ " ping statistics ---" +:+ nl) st in
      let st := print ("4 packets transmitted, 4 received, 0% packet loss, time 3004ms" +:+ nl) st in
      print ("rtt min/avg/max/mdev = 20.1/25.2/30.5/3.1 ms" +:+ nl) st
  | _ => set_exit 1 (print ("ping: usage error: Destination address required" +:+ nl) st)
  end.

Definition cmd_history (st : cst) : cst :=
  foldl (fun st '(i, hline) =>
           print (pad5 (strconv.Itoa (Z.of_nat i + 1)) +:+ "  " +:+ hline +:+ nl) st)
        st (imap (fun i hline => (i, hline)) (History (c_term st))).

Definition cmd_export (args : list string) (st : cst) : cst :=
  match args with
  | [_] =>
      foldl (fun st '(k, v) =>
               print ("declare -x " +:+ k +:+ "=" +:+ dq +:+ v +:+ dq +:+ nl) st)
            st (map_to_list (Env (c_term st)))
  | _ =>
      foldl (fun st kv =>
               match strs.SplitN2 kv "="%char with
               | [k; v] => set_env (<[k := v]> (Env (c_term st))) st
               | _ => st
               end)
            st (List.tl args)
  end.


(** [isTTY]: every writer but the write end of a pipe counts as a terminal. *)
Inductive writer := PipeWriter | CRLFWriter | Buffer.

Definition isTTY (w : writer) : bool :=
  match w with
  | PipeWriter => false
  | CRLFWriter => true
  | Buffer => true
  end.

(** [runCommand].  The recursion of [sudo] is on the argument list, one
    argument shorter at each call, so [fuel] is the length of [args];
    [more] and [less] re-enter at [cat] with the same tail. *)
Fixpoint runCommand_fuel (fuel : nat) (args : list string) (stdin : string) (out : writer)
    (st : cst) : cst :=
  match fuel, args with
  | O, _ | _, [] => st
  | S fuel', cmd :: _ =>
      let args := expand_args (c_term st) args in
      let named name := String.eqb cmd name in
      if named "ls" || named "ll" then cmd_ls cmd args (isTTY out) st
      else if named "cd" then cmd_cd args st
      else if named "pwd" then print (cwd (the_fs st) +:+ nl) st
      else if named "cat" then cmd_cat args stdin st
      else if named "echo" then print (strs.Join (List.tl args) " " +:+ nl) st
      else if named "cp" then cmd_cp args st
      else if named "mv" then cmd_mv args st
      else if named "mkdir" then cmd_mkdir args st
      else if named "rm" || named "rmdir" then cmd_rm args st
      else if named "touch" then cmd_touch args st
      else if named "grep" then cmd_grep args stdin (isTTY out) st
      else if named "ps" then cmd_ps st
      else if named "whoami" then print (default "" (Env (c_term st) !! "USER") +:+ nl) st
      else if named "id" then cmd_id st
      else if named "date" then
        let '(t, st) := read_clock st in print (fmt st "Mon Jan _2 15:04:05 MST 2006" t +:+ nl) st
      else if named "uptime" then cmd_uptime st
      else if named "clear" then print (esc +:+ "[H" +:+ esc +:+ "[2J") st
      else if named "exit" || named "logout" then stop_running st
      else if named "wget" || named "curl" then cmd_wget cmd args st
      else if named "uname" then
        match args with
        | _ :: a1 :: _ =>
            if String.eqb a1 "-a"
            then print ("Linux ubuntu-server 5.15.0-generic #1 SMP Fri Jan 1 00:00:00 UTC 2022 x86_64 x86_64 x86_64 GNU/Linux" +:+ nl) st
            else print ("Linux" +:+ nl) st
        | _ => print ("Linux" +:+ nl) st
        end
      else if named "free" then
        print ("Swap:       2097148           0     2097148" +:+ nl)
          (print ("Mem:       16303284     1024512     2543210        1234    12735562    15000000" +:+ nl)
             (print ("              total        used        free      shared  buff/cache   available" +:+ nl) st))
      else if named "df" then
        print ("tmpfs             1630328         0   1630328   0% /run/user/0" +:+ nl)
          (print ("/dev/sda2       102400000   5242880  97157120   6% /" +:+ nl)
             (print ("Filesystem      1K-blocks      Used Available Use% Mounted on" +:+ nl) st))
      else if named "chmod" then cmd_chmod args st
      else if named "chown" then cmd_chown args st
      else if named "head" || named "tail" then cmd_head cmd args stdin st
      else if named "wc" then cmd_wc args stdin st
      else if named "ping" then cmd_ping args st
      else if named "sudo" then
        match args with
        | _ :: ((_ :: _) as newArgs) => runCommand_fuel fuel' newArgs stdin out st
        | _ => st
        end
      else if named "sleep" then st
      else if named "netstat" || named "ss" then
        print ("tcp        0     64 192.168.1.10:22         192.168.1.5:5678        ESTABLISHED" +:+ nl)
          (print ("Proto Recv-Q Send-Q Local Address           Foreign Address         State" +:+ nl)
             (print ("Active Internet connections (w/o servers)" +:+ nl) st))
      else if named "more" || named "less" then
        match args with
        | _ :: ((_ :: _) as files) =>
            cmd_cat (expand_args (c_term st) ("cat" :: files)) stdin st
        | _ => st
        end
      else if named "history" then cmd_history st
      else if named "export" then cmd_export args st
      else if named "kernelpanic" then print (kernelpanic_screen (ambient (c_world st))) st
      else set_exit 127 (print (cmd +:+ ": 未找到命令" +:+ nl) st)
  end.

Definition runCommand (args : list string) (stdin : string) (out : writer) (st : cst) : cst :=
  runCommand_fuel (length args) args stdin out st.

(** One stage of a pipeline: what it wrote to its own [out], and the state
    it leaves; a stage does not start once the runtime has panicked. *)
Definition run_stage (args : list string) (stdin : string) (out : writer) (st : cst)
    : string * cst :=
  match c_crash st with
  | Some _ => ("", st)
  | None =>
      let r := runCommand args stdin out
                 {| c_out := ""; c_term := c_term st; c_world := c_world st;
                    c_crash := None |} in
      (c_out r, {| c_out := c_out st; c_term := c_term r; c_world := c_world r;
                   c_crash := c_crash r |})
  end.

(** The stages of a pipeline, each reading what the one before it wrote.
    The goroutines of the stages are run one after the other, in pipeline
    order. *)
Fixpoint run_stages (commands : list (list string)) (stdin : string) (finalOut : writer)
    (st : cst) : cst :=
  match commands with
  | [] => st
  | [args] => let '(o, st) := run_stage args stdin finalOut st in print o st
  | args :: rest =>
      let '(o, st) := run_stage args stdin PipeWriter st in
      run_stages rest o finalOut st
  end.

Definition runPipelineWithOutput (pipeline : list string) (finalOut : writer) (st : cst) : cst :=
  let commands := List.filter (fun a => negb (bool_decide (a = []))) (parseArgs <$> pipeline) in
  match commands with
  | [] => st
  | [args] => runCommand args "" finalOut st
  | _ => run_stages commands "" finalOut st
  end.

(** The redirection scan of [execPipeline]: the arguments before the first
    [>] or [>>] that has a token after it, and that token. *)
Fixpoint find_redirect (parts : list string) (before : list string)
    : option (list string * string) :=
  match parts with
  | a :: ((b :: _) as rest) =>
      if String.eqb a ">" || String.eqb a ">>" then Some (before, b)
      else find_redirect rest (before ++ [a])
  | _ => None
  end.

Definition execPipeline (cmdline : string) (t : Terminal) (w : World)
    : Terminal * World * option string :=
  let st := set_exit 0 {| c_out := ""; c_term := t; c_world := w; c_crash := None |} in
  let parts := parseArgs cmdline in
  match find_redirect parts [] with
  | Some (args, target) =>
      let fileWritePath := Abs (the_fs st) target in
      let cmdline := strs.Join args " " in
      let st := runPipelineWithOutput (strs.Split cmdline "|"%char) Buffer st in
      match c_crash st with
      | Some _ => (c_term st, c_world st, c_crash st)
      | None =>
          let st' := snd (write_fresh fileWritePath (to_bytes (c_out st)) (perm "644") st) in
          (c_term st', c_world st', None)
      end
  | None =>
      let st := runPipelineWithOutput (strs.Split cmdline "|"%char) CRLFWriter st in
      (to_RW (crlf (c_out st)) (c_term st), c_world st, c_crash st)
  end.

(** [Terminal.Exec] *)
Definition Exec (cmdline : string) (t : Terminal) (w : World) : Terminal * World * option string :=
  execPipeline cmdline t w.

(** ** The three logins: each ends in [fs := GlobalSessionFS] and
    [NewTerminal(stream, fs, env, width, height)]. *)

Definition handleTelnetConn (w : World) (user : string) (initialWidth initialHeight : Z)
    : option Terminal :=
  if String.eqb user "" then None
  else
    let env : gmap string string := <["SHELL" := "/bin/bash"]> {[ "TERM" := "vt100" ]} in
    let env := <["USER" := strs.TrimSpace user]> env in
    let env :=
      if String.eqb (strs.TrimSpace user) "root" then <["HOME" := "/root"]> env
      else <["HOME" := "/home/" +:+ strs.TrimSpace user]> env in
    let fs := GlobalSessionFS (globals w) in
    Some (NewTerminal w fs env initialWidth initialHeight).

Definition handleRLoginConn (w : World) (clientUser serverUser termType : string)
    (initialWidth initialHeight : Z) : Terminal :=
  let fs := GlobalSessionFS (globals w) in
  let env : gmap string string :=
    <["SHELL" := "/bin/bash"]> (<["USER" := clientUser]> {[ "TERM" := termType ]}) in
  let env := if String.eqb serverUser "root" then <["USER" := "root"]> env else env in
  NewTerminal w fs env initialWidth initialHeight.

(** The [shell] and [exec] requests of an SSH session channel. *)
Definition handleSSHConn_shell (w : World) (env : gmap string string) (cols rows : Z)
    : Terminal :=
  let fs := GlobalSessionFS (globals w) in
  NewTerminal w fs env cols rows.

Definition ssh_env : gmap string string :=
  <["LANG" := "en_US.UTF-8"]> (<["SHELL" := "/bin/bash"]> (<["HOME" := "/root"]>
  (<["USER" := "root"]> (<["PATH" := "/usr/local/sbin:/usr/local/bin:/usr/sbin:/usr/bin:/sbin:/bin"]>
  {[ "TERM" := "xterm-256color" ]})))).

(** ** The Telnet front-end *)

Module Telnet.

#[global] Instance byte_eq_dec : EqDecision byte := Byte.byte_eq_dec.

Definition cmdSE : byte := Byte.xf0.
Definition cmdNOP : byte := Byte.xf1.
Definition cmdGA : byte := Byte.xf9.
Definition cmdSB : byte := Byte.xfa.
Definition cmdWILL : byte := Byte.xfb.
Definition cmdWONT : byte := Byte.xfc.
Definition cmdDO : byte := Byte.xfd.
Definition cmdDONT : byte := Byte.xfe.
Definition cmdIAC : byte := Byte.xff.

Definition optEcho : byte := Byte.x01.
Definition optSGA : byte := Byte.x03.
Definition optTTYPE : byte := Byte.x18.
Definition optNAWS : byte := Byte.x1f.
Definition optNewEnv : byte := Byte.x27.

Definition subIS : byte := Byte.x00.
Definition subSEND : byte := Byte.x01.

Definition envVAR : byte := Byte.x00.
Definition envVALUE : byte := Byte.x01.
Definition envUSERVAR : byte := Byte.x03.

Definition CR : byte := Byte.x0d.
Definition LF : byte := Byte.x0a.
Definition NUL : byte := Byte.x00.

(** The stream object.  [reader] is what the peer has sent and the
    program has not read yet; a read past its end is the error [io.EOF].
    [conn] collects what the program has written; writing never fails.
    [negotiatedOptions] lists the options mapped to [true].  [term] is
    the size held by the terminal behind the [term] pointer, once there
    is one. *)
Record TelnetStream := {
  reader : bytes;
  conn : bytes;
  term : option (Z * Z);
  env : gmap string string;
  negotiatedOptions : list byte;
  initialWidth : Z;
  initialHeight : Z;
  skipLF : bool;
}.

Definition with_reader (r : bytes) (ts : TelnetStream) : TelnetStream :=
  {| reader := r; conn := conn ts; term := term ts; env := env ts;
     negotiatedOptions := negotiatedOptions ts; initialWidth := initialWidth ts;
     initialHeight := initialHeight ts; skipLF := skipLF ts |}.

Definition with_skipLF (b : bool) (ts : TelnetStream) : TelnetStream :=
  {| reader := reader ts; conn := conn ts; term := term ts; env := env ts;
     negotiatedOptions := negotiatedOptions ts; initialWidth := initialWidth ts;
     initialHeight := initialHeight ts; skipLF := b |}.

Definition send (p : bytes) (ts : TelnetStream) : TelnetStream :=
  {| reader := reader ts; conn := conn ts ++ p; term := term ts; env := env ts;
     negotiatedOptions := negotiatedOptions ts; initialWidth := initialWidth ts;
     initialHeight := initialHeight ts; skipLF := skipLF ts |}.

Definition negotiated (opt : byte) (ts : TelnetStream) : TelnetStream :=
  {| reader := reader ts; conn := conn ts; term := term ts; env := env ts;
     negotiatedOptions := opt :: negotiatedOptions ts; initialWidth := initialWidth ts;
     initialHeight := initialHeight ts; skipLF := skipLF ts |}.

Definition with_env (e : gmap string string) (ts : TelnetStream) : TelnetStream :=
  {| reader := reader ts; conn := conn ts; term := term ts; env := e;
     negotiatedOptions := negotiatedOptions ts; initialWidth := initialWidth ts;
     initialHeight := initialHeight ts; skipLF := skipLF ts |}.

Definition resize (w h : Z) (ts : TelnetStream) : TelnetStream :=
  match term ts with
  | Some _ =>
      {| reader := reader ts; conn := conn ts; term := Some (w, h); env := env ts;
         negotiatedOptions := negotiatedOptions ts; initialWidth := initialWidth ts;
         initialHeight := initialHeight ts; skipLF := skipLF ts |}
  | None =>
      {| reader := reader ts; conn := conn ts; term := None; env := env ts;
         negotiatedOptions := negotiatedOptions ts; initialWidth := w;
         initialHeight := h; skipLF := skipLF ts |}
  end.

Definition sendTTYPErequest (ts : TelnetStream) : TelnetStream :=
  send [cmdIAC; cmdSB; optTTYPE; subSEND; cmdIAC; cmdSE] ts.

Definition sendNEWENVrequest (ts : TelnetStream) : TelnetStream :=
  send ([cmdIAC; cmdSB; optNewEnv; subSEND] ++ [envVAR] ++ to_bytes "USER" ++
        [envVAR] ++ to_bytes "TERM" ++ [cmdIAC; cmdSE]) ts.

Definition handleOption (cmd opt : byte) (ts : TelnetStream) : TelnetStream :=
  if bool_decide (opt ∈ negotiatedOptions ts) then ts
  else if decide (cmd = cmdWILL) then
    if decide (opt = optTTYPE ∨ opt = optNAWS ∨ opt = optNewEnv) then
      let ts := negotiated opt (send [cmdIAC; cmdDO; opt] ts) in
      if decide (opt = optTTYPE) then sendTTYPErequest ts
      else if decide (opt = optNewEnv) then sendNEWENVrequest ts
      else ts
    else send [cmdIAC; cmdDONT; opt] ts
  else if decide (cmd = cmdDO) then
    if decide (opt = optSGA ∨ opt = optEcho)
    then negotiated opt (send [cmdIAC; cmdWILL; opt] ts)
    else send [cmdIAC; cmdWONT; opt] ts
  else ts.

Definition is_var (b : byte) : bool :=
  bool_decide (b = envVAR) || bool_decide (b = envUSERVAR).

Fixpoint span (stop : byte → bool) (l : bytes) : bytes * bytes :=
  match l with
  | [] => ([], [])
  | b :: rest =>
      if stop b then ([], l)
      else let '(a, r) := span stop rest in (b :: a, r)
  end.

(** The loop over [vars] in the NEW-ENVIRON case; every round drops at
    least one byte, so the length of [vars] is fuel enough. *)
Fixpoint parse_vars (fuel : nat) (vars : bytes) (e : gmap string string)
    : gmap string string :=
  match fuel, vars with
  | S fuel', v0 :: vars =>
      if is_var v0 then
        match span (fun b => bool_decide (b = envVALUE)) vars with
        | (_, []) => e
        | (key, _ :: vars) =>
            let '(val, vars) := span is_var vars in
            let e := if decide (key = []) then e else <[of_bytes key := of_bytes val]> e in
            parse_vars fuel' vars e
        end
      else e
  | _, _ => e
  end.

Definition handleSubnegotiation (data : bytes) (ts : TelnetStream) : TelnetStream :=
  match data with
  | [] => ts
  | opt :: payload =>
      if decide (opt = optNAWS) then
        match payload with
        | p0 :: p1 :: p2 :: p3 :: _ =>
            let w := Z.lor (Z.shiftl (Z.of_N (Byte.to_N p0)) 8) (Z.of_N (Byte.to_N p1)) in
            let h := Z.lor (Z.shiftl (Z.of_N (Byte.to_N p2)) 8) (Z.of_N (Byte.to_N p3)) in
            resize w h ts
        | _ => ts
        end
      else if decide (opt = optTTYPE) then
        match payload with
        | p0 :: ((_ :: _) as termType) =>
            if decide (p0 = subIS) then with_env (<["TERM" := of_bytes termType]> (env ts)) ts
            else ts
        | _ => ts
        end
      else if decide (opt = optNewEnv) then
        match payload with
        | p0 :: vars =>
            if decide (p0 = subIS) then with_env (parse_vars (length vars) vars (env ts)) ts
            else ts
        | _ => ts
        end
      else ts
  end.

(** The inner loop of the [cmdSB] case: the bytes up to [IAC SE], and
    what follows; [None] when the input ends first. *)
Fixpoint read_sub (input subBuf : bytes) : option (bytes * bytes) :=
  match input with
  | [] => None
  | sb :: rest =>
      if decide (sb = cmdIAC) then
        match rest with
        | [] => None
        | next :: rest' =>
            if decide (next = cmdSE) then Some (subBuf, rest')
            else read_sub rest' (subBuf ++ [sb; next])
        end
      else read_sub rest (subBuf ++ [sb])
  end.

(** [Read]: the byte stored in [p[0]], or [None] for an error return.
    Every round of its loop takes at least one byte from the reader. *)
Fixpoint Read_fuel (fuel : nat) (ts : TelnetStream) : option byte * TelnetStream :=
  match fuel with
  | O => (None, ts)
  | S fuel' =>
      match reader ts with
      | [] => (None, ts)
      | b :: rest =>
          let ts := with_reader rest ts in
          if skipLF ts && bool_decide (b = LF) then Read_fuel fuel' (with_skipLF false ts)
          else
            let ts := with_skipLF false ts in
            if negb (bool_decide (b = cmdIAC)) then
              if decide (b = CR) then (Some LF, with_skipLF true ts)
              else (Some b, ts)
            else
              match reader ts with
              | [] => (None, ts)
              | cmd :: rest =>
                  let ts := with_reader rest ts in
                  if decide (cmd = cmdIAC) then (Some cmdIAC, ts)
                  else if decide (cmd = cmdWILL ∨ cmd = cmdWONT ∨ cmd = cmdDO ∨ cmd = cmdDONT) then
                    match reader ts with
                    | [] => (None, ts)
                    | opt :: rest =>
                        Read_fuel fuel' (handleOption cmd opt (with_reader rest ts))
                    end
                  else if decide (cmd = cmdSB) then
                    match read_sub (reader ts) [] with
                    | None => (None, with_reader [] ts)
                    | Some (subBuf, rest) =>
                        Read_fuel fuel' (handleSubnegotiation subBuf (with_reader rest ts))
                    end
                  else Read_fuel fuel' ts
              end
      end
  end.

Definition Read (ts : TelnetStream) : option byte * TelnetStream :=
  Read_fuel (S (length (reader ts))) ts.

(** [Write]: IAC stuffing. *)
Definition Write (p : bytes) (ts : TelnetStream) : TelnetStream :=
  send (flat_map (fun b => if decide (b = cmdIAC) then [cmdIAC; b] else [b]) p) ts.

(** The application stream: the bytes of the successive [Read] calls, up
    to the first error.  Every successful call takes a byte from the
    reader. *)
Fixpoint app_stream_fuel (fuel : nat) (ts : TelnetStream) : bytes :=
  match fuel with
  | O => []
  | S fuel' =>
      match Read ts with
      | (Some b, ts') => b :: app_stream_fuel fuel' ts'
      | (None, _) => []
      end
  end.

Definition app_stream (ts : TelnetStream) : bytes :=
  app_stream_fuel (length (reader ts)) ts.

(** The stream once [input] has arrived, at a point where the byte before
    it was not a carriage return. *)
Definition feed (input : bytes) (ts : TelnetStream) : TelnetStream :=
  with_skipLF false (with_reader input ts).

(** A connection that has just been accepted, with the peer's bytes. *)
Definition accept (input : bytes) : TelnetStream :=
  {| reader := input; conn := []; term := None;
     env := <["SHELL" := "/bin/bash"]> {[ "TERM" := "vt100" ]};
     negotiatedOptions := []; initialWidth := 80; initialHeight := 24;
     skipLF := false |}.

End Telnet.

(** ** Sample worlds and the vocabulary of the statements *)

(** An outside world that answers every question with a constant. *)
Definition quiet : Ambient :=
  {| time_Format := fun _ _ => "";
     since_minutes := fun _ _ => 0%Z;
     formatSize := fun _ => "";
     tabwriter_Flush := fun text => text;
     rand_Intn := fun _ => 0%Z;
     ping_rtt := fun _ => "";
     kernelpanic_screen := "" |}.

(** The process right after [initFS]. *)
Definition boot : World := initFS quiet 0.

(** A command state for terminal [t] in world [w], with nothing written. *)
Definition session (t : Terminal) (w : World) : cst :=
  {| c_out := ""; c_term := t; c_world := w; c_crash := None |}.

Definition hosts : string :=
  "127.0.0.1 localhost" +:+ nl +:+ "127.0.1.1 ubuntu-server" +:+ nl.

(** [t] is the terminal that one of the three front-ends builds for a
    login in world [w]. *)
Inductive logged_in (w : World) : Terminal → Prop :=
  | telnet_login user width height t :
      handleTelnetConn w user width height = Some t → logged_in w t
  | rlogin_login clientUser serverUser termType width height :
      logged_in w (handleRLoginConn w clientUser serverUser termType width height)
  | ssh_login env cols rows :
      logged_in w (handleSSHConn_shell w env cols rows).

(** The rename law as the specification words it, at one source and one
    target. *)
Definition rename_round_trip (G : Globals) (s : SessionFS) (h : Heap) (a b : string) : Prop :=
  ∀ e s' h',
    GetEntry G s a = Some e →
    Rename G a b s h = (None, s', h') →
    (∃ l, GetEntry G s' b = Some l ∧ content h' l = content h e) ∧
    GetEntry G s' a = None.

(** ** Normalized paths, listings and invariants *)

Fixpoint no_sep (s : string) : bool :=
  match s with
  | EmptyString => true
  | String c s' => negb (Ascii.eqb c path.slash) && no_sep s'
  end.

Definition good (c : string) : Prop :=
  no_sep c = true ∧ c ≠ "" ∧ c ≠ "." ∧ c ≠ "..".

Definition of_elems (cs : list string) : string := "/" +:+ strs.Join cs "/".

Definition abs_clean (p : string) : Prop := path.rooted p = true ∧ path.Clean p = p.



Record overlay_ok (s : SessionFS) (h : Heap) : Prop := {
  keys_normal : ∀ k v, overlay s !! k = Some v → abs_clean k;
  names_match : ∀ k l, overlay s !! k = Some (Some l) → Name (deref h l) = path.Base k;
}.




(** The heap changes that the operations make: objects stay and keep their
    names, and new objects appear. *)
Definition grows (h h' : Heap) : Prop :=
  ∀ l, l ∈ dom (objects h) →
    l ∈ dom (objects h') ∧ Name (deref h' l) = Name (deref h l).

(** What a session can do to its filesystem. *)
Inductive op :=
  | OpWrite (p : string) (c : bytes) (mode : Z)
  | OpCopy (src dst : string)
  | OpMkdir (p : string)
  | OpRemove (p : string)
  | OpRename (a b : string)
  | OpChmod (p : string) (mode : Z)
  | OpChown (p : string) (uid gid : Z)
  | OpWriteAt (p : string) (c : bytes) (off : Z).

Definition run_op (G : Globals) (o : op) (sh : SessionFS * Heap) : SessionFS * Heap :=
  let '(s, h) := sh in
  match o with
  | OpWrite p c mode =>
      let '(d, h1) := slice_of c h in
      let '(_, s', h') := Write G p d mode s h1 in (s', h')
  | OpCopy src dst =>
      match GetEntry G s src with
      | Some e =>
          let '(_, s', h') := Write G dst (Content (deref h e)) (Mode (deref h e)) s h in
          (s', h')
      | None => (s, h)
      end
  | OpMkdir p => let '(_, s', h') := Mkdir p s h in (s', h')
  | OpRemove p => let '(_, s', h') := Remove p s h in (s', h')
  | OpRename a b => let '(_, s', h') := Rename G a b s h in (s', h')
  | OpChmod p mode => let '(_, s', h') := Chmod G p mode s h in (s', h')
  | OpChown p uid gid => let '(_, s', h') := Chown G p uid gid s h in (s', h')
  | OpWriteAt p c off => let '(_, s', h') := WriteAt G p c off s h in (s', h')
  end.

Definition run_ops (G : Globals) (ops : list op) (sh : SessionFS * Heap) : SessionFS * Heap :=
  foldl (λ sh o, run_op G o sh) sh ops.


Definition base_ok (G : Globals) (h : Heap) : Prop :=
  ∀ p l, BaseFS G !! p = Some l → Name (deref h l) = path.Base p.

Definition fs_ok (G : Globals) (s : SessionFS) (h : Heap) : Prop :=
  overlay_ok s h ∧ base_ok G h.


#[global] Arguments strs.HasPrefix : simpl never.
#[global] Arguments strs.Contains : simpl never.
#[global] Arguments path.Clean : simpl never.
#[global] Arguments path.Dir : simpl never.
#[global] Arguments path.Base : simpl never.
#[global] Arguments path.Join : simpl never.
#[global] Arguments Abs : simpl never.
#[global] Arguments GetEntry : simpl never.
#[global] Arguments get : simpl never.
#[global] Arguments perm : simpl never.
#[global] Arguments MaxFileSize : simpl never.

(** ** Copy-on-write: what keeps [BaseFS] apart from the overlay *)

(** [a] is the backing array of the content of a [BaseFS] entry. *)
Definition base_array (G : Globals) (h : Heap) (a : loc) : Prop :=
  ∃ p l, BaseFS G !! p = Some l ∧ s_ptr (Content (deref h l)) = Some a.

(** The objects and arrays of [BaseFS] exist, and no live overlay entry is
    a [BaseFS] object. *)
Record sep_ok (G : Globals) (s : SessionFS) (h : Heap) : Prop := {
  base_alloc : ∀ p l, BaseFS G !! p = Some l → l ∈ dom (objects h);
  live_apart : ∀ k l p, overlay s !! k = Some (Some l) → BaseFS G !! p ≠ Some l;
  base_arrays_alloc : ∀ a, base_array G h a → a ∈ dom (arrays h);
}.

(** Moreover the live overlay entries exist, and none shows the array of a
    [BaseFS] entry: every copy has been a deep one. *)
Record cow_ok (G : Globals) (s : SessionFS) (h : Heap) : Prop := {
  cow_sep : sep_ok G s h;
  live_alloc : ∀ k l, overlay s !! k = Some (Some l) → l ∈ dom (objects h);
  live_arrays_apart :
    ∀ k l a, overlay s !! k = Some (Some l) → s_ptr (Content (deref h l)) = Some a →
             ¬ base_array G h a;
}.

(** From [h] to [h'] the [BaseFS] objects are the same and no array has
    gone; with [bytes_too], the arrays of [BaseFS] hold the same bytes. *)
Definition unchanged (G : Globals) (bytes_too : bool) (h h' : Heap) : Prop :=
  (∀ p l, BaseFS G !! p = Some l → objects h' !! l = objects h !! l) ∧
  dom (arrays h) ⊆ dom (arrays h') ∧
  (bytes_too = true → ∀ a, base_array G h a → arrays h' !! a = arrays h !! a).

(** The test of [base_arrays_alloc] on one entry. *)
Definition array_allocated (h : Heap) (l : loc) : bool :=
  match s_ptr (Content (deref h l)) with
  | Some a => bool_decide (a ∈ dom (arrays h))
  | None => true
  end.

Definition is_WriteAt (o : op) : bool :=
  match o with
  | OpWriteAt _ _ _ => true
  | _ => false
  end.

(** The operations that give the entry they write a slice of its own. *)
Definition copies (o : op) : bool :=
  match o with
  | OpWrite _ _ _ | OpMkdir _ | OpRemove _ | OpWriteAt _ _ _ => true
  | OpCopy _ _ | OpRename _ _ | OpChmod _ _ | OpChown _ _ _ => false
  end.

(** What one operation does, in two parts: the invariant holds again, and
    the [BaseFS] objects are the same. *)
Definition step_ok (G : Globals) (b : bool) (s : SessionFS) (h : Heap)
    (r : SessionFS * Heap) : Prop :=
  sep_ok G r.1 r.2 ∧ unchanged G b h r.2.
#[global] Arguments step_ok : simpl never.

(** ** The invariant of the shell *)

(** The invariant of a shell: its session filesystem has normalized keys
    and entries named after them, and its working directory is a normalized
    absolute path. *)
Definition shell_ok (t : Terminal) (w : World) : Prop :=
  fs_ok (globals w) (fs_at w (FS t)) (heap w) ∧ abs_clean (cwd (fs_at w (FS t))).

Definition term_ok (st : cst) : Prop := shell_ok (c_term st) (c_world st).

(** [st'] comes from [st] by printing, by reading the clock, or by changes
    to the terminal that leave the filesystem alone. *)
Record calm (st st' : cst) : Prop := {
  calm_globals : globals (c_world st') = globals (c_world st);
  calm_fss : fss (c_world st') = fss (c_world st);
  calm_objects : objects (heap (c_world st')) = objects (heap (c_world st));
  calm_arrays : arrays (heap (c_world st')) = arrays (heap (c_world st));
  calm_FS : FS (c_term st') = FS (c_term st);
}.

(** The commands of the library that only look and print. *)
Definition read_only : list string :=
  [ "ls"; "ll"; "pwd"; "cat"; "echo"; "grep"; "ps"; "whoami"; "id"; "date";
    "uptime"; "clear"; "exit"; "logout"; "wget"; "curl"; "uname"; "free"; "df";
    "chown"; "head"; "tail"; "wc"; "ping"; "sleep"; "netstat"; "ss"; "more";
    "less"; "history"; "export"; "kernelpanic" ].

(** The keys of the overlay that an operation may write. *)
Definition touched (o : op) : list string :=
  match o with
  | OpWrite p _ _ | OpMkdir p | OpRemove p => [path.Clean p]
  | OpCopy _ dst => [path.Clean dst]
  | OpRename a b => [a; b]
  | OpChmod p _ | OpChown p _ _ | OpWriteAt p _ _ => [p]
  end.

(** ** SFTP writes: vocabulary *)

(** The bytes that the first half of [WriteAt] starts from: those of the
    overlay entry at the path, or else of the [BaseFS] entry, or none. *)
Definition bytes_at (G : Globals) (s : SessionFS) (h : Heap) (wpath : string) : bytes :=
  match is_live s wpath with
  | Some e => content h e
  | None =>
      match BaseFS G !! wpath with
      | Some b => content h b
      | None => []
      end
  end.

(** [old] with [p] written at offset [off]; a gap up to [off] is filled
    with zero bytes. *)
Definition patched (old p : bytes) (off : nat) : bytes :=
  take off (old ++ replicate (off - length old) Byte.x00) ++ p ++ drop (off + length p) old.

(** [len(s) <= cap(s)] *)
Definition slice_valid (h : Heap) (c : slice) : Prop := s_len c ≤ cap h c.

(** A client that writes a file in consecutive chunks: one [WriteAt] per
    chunk, each at the offset where the one before it ended. *)
Fixpoint upload (G : Globals) (wpath : string) (chunks : list bytes) (off : Z)
    (sh : SessionFS * Heap) : SessionFS * Heap :=
  match chunks with
  | [] => sh
  | c :: rest =>
      let '(_, s', h') := WriteAt G wpath c off sh.1 sh.2 in
      upload G wpath rest (off + Z.of_nat (length c)) (s', h')
  end.

(** ** The listing handed to the SFTP client *)

Inductive io_error := EOF.

(** [lister.ListAt]: the buffer after the call, the count and the error.
    [copy] fills the buffer from the front, as far as both reach. *)
Definition ListAt {A} (l f : list A) (offset : Z) : outcome (list A * Z * option io_error) :=
  if (offset >=? Z.of_nat (length l))%Z then Returns (f, 0%Z, Some EOF)
  else if (offset <? 0)%Z then Panics "slice bounds out of range"
  else
    let src := drop (Z.to_nat offset) l in
    let n := length f `min` length src in
    Returns (take n src ++ drop n f, Z.of_nat n, None).

(** A client that reads a listing to its end: it calls [ListAt] with a
    buffer [f], takes the entries it got, and asks again from where the last
    call stopped, until a call reports an error. *)
Fixpoint read_listing {A} (fuel : nat) (l f : list A) (offset : Z) : list A :=
  match fuel with
  | O => []
  | S fuel' =>
      match ListAt l f offset with
      | Returns (f', n, None) =>
          take (Z.to_nat n) f' ++ read_listing fuel' l f (offset + n)
      | _ => []
      end
  end.

(** One round of the loop that fills [BaseFSDirCache]. *)
Definition cache_step (cache : gmap string (list loc)) (pe : string * loc)
    : gmap string (list loc) :=
  let dir := path.Dir pe.1 in
  if negb (String.eqb pe.1 dir)
  then <[dir := default [] (cache !! dir) ++ [pe.2]]> cache
  else cache.

(** ** Words of a command line *)

(** A byte that [parseArgs] takes as part of a word wherever it stands:
    not a blank and not a quote. *)
Definition word_char (c : ascii) : bool :=
  negb (Ascii.eqb c "034" || Ascii.eqb c "039" || Ascii.eqb c " " || Ascii.eqb c "009").

Fixpoint all_chars (f : ascii → bool) (s : string) : bool :=
  match s with
  | EmptyString => true
  | String c s' => f c && all_chars f s'
  end.

(** A word that needs no quoting. *)
Definition plain (w : string) : Prop := w ≠ "" ∧ all_chars word_char w = true.

(** A word of a command that [execPipeline] hands on as it is: plain, with
    no pipe sign in it, and not a redirection sign. *)
Definition command_word (w : string) : Prop :=
  plain w ∧ all_chars (λ c, negb (Ascii.eqb c "|")) w = true ∧ w ≠ ">" ∧ w ≠ ">>".

(** ** Heap lemmas *)

Section heap_facts.
Implicit Types (h : Heap) (l a : loc) (e : FileEntry) (c : slice).

Lemma deref_store h l e : deref (store l e h) l = e.
Proof. unfold deref, store; simpl. by rewrite lookup_insert_eq. Qed.

Lemma deref_store_ne h l l' e : l ≠ l' → deref (store l e h) l' = deref h l'.
Proof. intros Hne. unfold deref, store; simpl. by rewrite lookup_insert_ne. Qed.

Lemma slice_bytes_store h l e c : slice_bytes (store l e h) c = slice_bytes h c.
Proof. reflexivity. Qed.

Lemma slice_bytes_tick h c : slice_bytes (time_Now h).2 c = slice_bytes h c.
Proof. reflexivity. Qed.

Lemma new_entry_fresh h e : (new_entry e h).1 ∉ dom (objects h).
Proof. unfold new_entry; simpl. apply is_fresh. Qed.

Lemma deref_new_entry h e : deref (new_entry e h).2 (new_entry e h).1 = e.
Proof. unfold new_entry; simpl. apply deref_store. Qed.

Lemma slice_bytes_new_entry h e c : slice_bytes (new_entry e h).2 c = slice_bytes h c.
Proof. reflexivity. Qed.

Lemma deref_new_entry_old h e l :
  l ∈ dom (objects h) → deref (new_entry e h).2 l = deref h l.
Proof.
  intros Hl. unfold new_entry; simpl. apply deref_store_ne.
  intros <-. by apply (is_fresh (dom (objects h))).
Qed.
End heap_facts.

(** ** GetEntry after a change of the overlay *)

Lemma GetEntry_insert_live G s o k l p :
  path.Clean p = k →
  GetEntry G (set_overlay s (<[k := Some l]> o)) p = Some l.
Proof. intros <-. unfold GetEntry; simpl. by rewrite lookup_insert_eq. Qed.

Lemma GetEntry_insert_dead G s o k p :
  path.Clean p = k →
  GetEntry G (set_overlay s (<[k := None]> o)) p = None.
Proof. intros <-. unfold GetEntry; simpl. by rewrite lookup_insert_eq. Qed.

Lemma is_live_Some s p l : is_live s p = Some l → overlay s !! p = Some (Some l).
Proof. unfold is_live. by destruct (overlay s !! p) as [[?|]|]; intros [= ->]. Qed.

Lemma GetEntry_live G s p l : is_live s (path.Clean p) = Some l → GetEntry G s p = Some l.
Proof. intros H%is_live_Some. unfold GetEntry. by rewrite H. Qed.

(** ** Mkdir *)

(** C10. [Mkdir p] returns no error, whatever the path and the state, and
    puts a new object into the overlay at the cleaned path: an empty
    directory owned by root, with mode 0755 and the directory bit and two
    links.  Afterwards [GetEntry p] finds that object, so whatever a file at
    that path held before is out of reach at this path in this session. *)
Theorem C10_Mkdir_always_installs_empty_directory
    (G : Globals) (p : string) (s : SessionFS) (h : Heap) :
  ∃ l s' h',
    Mkdir p s h = (None, s', h') ∧
    (l ∉ dom (objects h)) ∧
    overlay s' = <[path.Clean p := Some l]> (overlay s) ∧
    GetEntry G s' p = Some l ∧
    deref h' l =
      {| Name := path.Base (path.Clean p); IsDir := true; Content := nil_slice;
         Mode := Z.lor (perm "755") ModeDir; ModTime := clock h;
         UID := 0; GID := 0; Nlink := 2 |} ∧
    content h' l = [].
Proof.
  unfold Mkdir. simpl.
  set (e := {| Name := path.Base (path.Clean p) |}).
  set (h1 := (time_Now h).2).
  exists (new_entry e h1).1, (set_overlay s (<[path.Clean p := Some (new_entry e h1).1]> (overlay s))),
    (new_entry e h1).2.
  split; [reflexivity|].
  split; [apply (new_entry_fresh h1 e)|].
  split; [reflexivity|].
  split; [by apply GetEntry_insert_live|].
  split; [apply deref_new_entry|].
  unfold content. by rewrite deref_new_entry.
Qed.

(** ** Write and GetEntry *)

Lemma Write_within_quota G p data mode s h :
  (Z.of_nat (s_len data) ≤ MaxFileSize)%Z →
  ∃ l s' h',
    Write G p data mode s h = (None, s', h') ∧
    GetEntry G s' p = Some l ∧
    Content (deref h' l) = data ∧
    arrays h' = arrays h ∧
    IsDir (deref h' l) = match is_live s (path.Clean p) with
                         | Some x => IsDir (deref h x)
                         | None => false
                         end.
Proof.
  intros Hq. unfold Write.
  destruct (Z.gtb_spec (Z.of_nat (s_len data)) MaxFileSize) as [?|_]; [lia|].
  destruct (is_live s (path.Clean p)) as [x|] eqn:Hx.
  - eexists x, s, _. split; [reflexivity|].
    split; [by apply GetEntry_live|].
    by rewrite deref_store.
  - destruct (BaseFS G !! path.Clean p) as [b|]; simpl;
      (eexists _, _, _; split; [reflexivity|];
       split; [by apply GetEntry_insert_live|];
       by rewrite deref_store).
Qed.

(** C3. In every session state, for every path and every slice of at most
    [MaxFileSize] bytes, [Write] returns no error and [GetEntry] of the same
    path then finds an entry whose content is the bytes that were written.
    (Both calls clean the path, so the path need not be normalized.) *)
Theorem C3_read_your_own_writes
    (G : Globals) (p : string) (data : slice) (mode : Z) (s : SessionFS) (h : Heap) :
  (Z.of_nat (s_len data) ≤ MaxFileSize)%Z →
  ∃ l s' h',
    Write G p data mode s h = (None, s', h') ∧
    GetEntry G s' p = Some l ∧
    content h' l = slice_bytes h data.
Proof.
  intros Hq.
  destruct (Write_within_quota G p data mode s h Hq) as (l & s' & h' & HW & HG & HC & HA & _).
  exists l, s', h'. repeat split; [done..|].
  unfold content, slice_bytes, array_at. by rewrite HC, HA.
Qed.

Lemma C3_witness :
  ∃ l s' h',
    Write (globals boot) "/tmp/note" (slice_of (to_bytes "hello") (heap boot)).1 0
          NewSessionFS (slice_of (to_bytes "hello") (heap boot)).2 = (None, s', h') ∧
    GetEntry (globals boot) s' "/tmp/note" = Some l ∧
    content h' l = slice_bytes (slice_of (to_bytes "hello") (heap boot)).2
                               (slice_of (to_bytes "hello") (heap boot)).1.
Proof.
  apply (C3_read_your_own_writes (globals boot) "/tmp/note").
  vm_compute. discriminate.
Defined.

(** ** Rename *)

Lemma Rename_source_gone G a b s h s' h' :
  path.Clean a = a →
  Rename G a b s h = (None, s', h') →
  GetEntry G s' a = None.
Proof.
  intros Ha HR. unfold Rename in HR.
  destruct (GetEntry G s a); [|discriminate]. simpl in HR.
  injection HR as <- <-. by apply GetEntry_insert_dead.
Qed.

Lemma Rename_found G a b s h e :
  GetEntry G s a = Some e → ∃ s' h', Rename G a b s h = (None, s', h').
Proof. intros He. unfold Rename. rewrite He. simpl. eauto. Qed.

(** C4, as stated, fails when source and target are the same path: the
    entry is stored at the path and the tombstone is then written over it,
    so after [Rename a a] the path is gone. *)
Lemma C4_counterexample_rename_onto_itself :
  path.Clean "/etc/hosts" = "/etc/hosts" ∧
  path.rooted "/etc/hosts" = true ∧
  ¬ rename_round_trip (globals boot) NewSessionFS (heap boot) "/etc/hosts" "/etc/hosts".
Proof.
  split; [reflexivity|]. split; [reflexivity|].
  intros H.
  assert (HG : GetEntry (globals boot) NewSessionFS "/etc/hosts" = Some 44)
    by (vm_compute; reflexivity).
  destruct (Rename_found _ "/etc/hosts" "/etc/hosts" _ (heap boot) _ HG) as (s' & h' & HR).
  destruct (H 44 s' h' HG HR) as [(l & Hl & _) _].
  rewrite (Rename_source_gone _ _ _ _ _ _ _ eq_refl HR) in Hl. discriminate.
Qed.

(** C4 (amended). For two different normalized paths [a] and [b] such that
    [GetEntry a] succeeds, [Rename a b] returns no error; afterwards
    [GetEntry b] finds an entry with the content that [GetEntry a] showed
    before, and [GetEntry a] reports that the path is not found. *)
Theorem C4_rename_round_trip
    (G : Globals) (s : SessionFS) (h : Heap) (a b : string) :
  path.Clean a = a → path.Clean b = b → a ≠ b →
  rename_round_trip G s h a b.
Proof.
  intros Ha Hb Hab e s' h' He HR.
  unfold Rename in HR. rewrite He in HR. simpl in HR.
  injection HR as <- <-.
  split.
  - eexists. split.
    + unfold GetEntry; simpl. rewrite Hb.
      rewrite lookup_insert_ne by done. by rewrite lookup_insert_eq.
    + unfold content. by rewrite deref_store.
  - by apply GetEntry_insert_dead.
Qed.

Lemma C4_witness :
  rename_round_trip (globals boot) NewSessionFS (heap boot) "/etc/hosts" "/tmp/hosts".
Proof.
  apply C4_rename_round_trip; [reflexivity | reflexivity | discriminate].
Defined.

(** ** The quota *)

Lemma MaxFileSize_value : MaxFileSize = 5242880%Z.
Proof. reflexivity. Qed.

Lemma wrap64_in_range z : (- 2 ^ 63 ≤ z < 2 ^ 63)%Z → wrap64 z = z.
Proof.
  intros Hz. unfold wrap64.
  change (2 ^ 63)%Z with 9223372036854775808%Z in *.
  change (2 ^ 64)%Z with 18446744073709551616%Z.
  rewrite Z.mod_small; lia.
Qed.

(** [Write] takes exactly [MaxFileSize] bytes and refuses one more. *)
Lemma Write_quota_boundary G p data mode s h :
  (Z.of_nat (s_len data) = MaxFileSize → (Write G p data mode s h).1.1 = None) ∧
  (Z.of_nat (s_len data) = (MaxFileSize + 1)%Z →
   Write G p data mode s h = (Some (ErrNew "超出磁盘限额"), s, h)).
Proof.
  split; intros Hlen.
  - destruct (Write_within_quota G p data mode s h) as (l & s' & h' & -> & _); [lia|done].
  - unfold Write. destruct (Z.gtb_spec (Z.of_nat (s_len data)) MaxFileSize); [done|lia].
Qed.

(** The second half of [WriteAt] answers with the quota error exactly when
    the wrapped sum of offset and length is above [MaxFileSize]. *)
Lemma write_bytes_quota entry p off h :
  (write_bytes entry p off h).1 = Returns (0%Z, Some (ErrNew "quota exceeded")) ↔
  (int_add off (Z.of_nat (length p)) > MaxFileSize)%Z.
Proof.
  unfold write_bytes.
  destruct (Z.gtb_spec (int_add off (Z.of_nat (length p))) MaxFileSize) as [Hgt|Hle].
  - simpl. split; [lia|done].
  - split; [|lia]. intros H. exfalso.
    destruct (grow _ _ h) as [c h1].
    destruct (_ || _)%bool; [done|].
    destruct (time_Now _). done.
Qed.

Lemma WriteAt_quota_wrapped G wpath p off s h :
  (WriteAt G wpath p off s h).1.1 = Returns (0%Z, Some (ErrNew "quota exceeded")) ↔
  (int_add off (Z.of_nat (length p)) > MaxFileSize)%Z.
Proof.
  unfold WriteAt.
  destruct (find_or_create G wpath p off s h) as [[entry s1] h1].
  destruct (write_bytes entry p off h1) as [r h2] eqn:Hw. simpl.
  rewrite <- (write_bytes_quota entry p off h1). by rewrite Hw.
Qed.

(** While the sum of offset and length stays inside [int], [WriteAt]
    answers with the quota error exactly when the sum is above
    [MaxFileSize]. *)
Lemma WriteAt_quota_in_range G wpath p off s h :
  (- 2 ^ 63 ≤ off + Z.of_nat (length p) < 2 ^ 63)%Z →
  (WriteAt G wpath p off s h).1.1 = Returns (0%Z, Some (ErrNew "quota exceeded")) ↔
  (off + Z.of_nat (length p) > MaxFileSize)%Z.
Proof.
  intros Hr. rewrite WriteAt_quota_wrapped. unfold int_add. by rewrite wrap64_in_range.
Qed.

(** C5. At the offset [2^63 - 1] a write of one byte ends far above
    [MaxFileSize], yet [WriteAt] does not answer with the quota error: the
    sum wraps around to [-2^63], the quota test lets it pass, and slicing
    the content at the offset panics. *)
Theorem C5_WriteAt_offset_overflow_skips_quota :
  let off := (2 ^ 63 - 1)%Z in
  let p := [Byte.x41] in
  (off + Z.of_nat (length p) > MaxFileSize)%Z ∧
  int_add off (Z.of_nat (length p)) = (- 2 ^ 63)%Z ∧
  (WriteAt (globals boot) "/tmp/x" p off NewSessionFS (heap boot)).1.1
    = Panics "slice bounds out of range".
Proof. repeat split; vm_compute; reflexivity. Qed.

(** ** The pipeline of the specification *)

(** C9. In the process right after [initFS], whatever the clock and the
    outside world, a terminal over the global session filesystem that
    executes [cat /etc/passwd | grep root | wc] has its last stage write
    exactly ["1\n"] to the terminal writer (which reaches the connection as
    ["1\r\n"]), does not panic, and ends with exit code 0. *)
Theorem C9_cat_grep_wc (amb : Ambient) (t0 : Z) (env : gmap string string) (width height : Z) :
  let w := initFS amb t0 in
  let t := NewTerminal w (GlobalSessionFS (globals w)) env width height in
  let cmdline := "cat /etc/passwd | grep root | wc" in
  c_out (runPipelineWithOutput (strs.Split cmdline "|"%char) CRLFWriter (session t w))
    = "1" +:+ nl ∧
  RW (execPipeline cmdline t w).1.1 = "1" +:+ cr +:+ nl ∧
  lastExitCode (execPipeline cmdline t w).1.1 = 0%Z ∧
  (execPipeline cmdline t w).2 = None.
Proof. repeat split; vm_compute; reflexivity. Qed.

(** ** Exit codes *)


Lemma lastExitCode_set_exit code st : lastExitCode (c_term (set_exit code st)) = code.
Proof. reflexivity. Qed.





(** ** Sessions and the global overlay *)

Lemma slice_of_bytes b h :
  slice_bytes (slice_of b h).2 (slice_of b h).1 = b ∧ s_len (slice_of b h).1 = length b.
Proof.
  unfold slice_of, new_array, slice_bytes, array_at, set_array; simpl.
  rewrite lookup_insert_eq. simpl. split; [apply firstn_all|done].
Qed.

Lemma logged_in_FS w t : logged_in w t → FS t = GlobalSessionFS (globals w).
Proof.
  intros [user width height t' H| |]; [|done..].
  unfold handleTelnetConn in H. destruct (String.eqb user ""); [done|].
  by injection H as <-.
Qed.

Lemma fs_at_put l s h w : fs_at (put l (s, h) w) l = s.
Proof. unfold fs_at, put; simpl. by rewrite lookup_insert_eq. Qed.

(** C1, as stated, fails: the Telnet logins all get the one
    [GlobalSessionFS], so what session A writes to /etc/hosts is what
    session B, connected at the same moment, and a session that connects
    later both read. *)
Lemma C1_counterexample_sessions_see_each_other :
  match handleTelnetConn boot "root" 80 24, handleTelnetConn boot "user" 80 24 with
  | Some tA, Some tB =>
      let afterA := (execPipeline "echo hello > /etc/hosts" tA boot).1.2 in
      let seenB := execPipeline "cat /etc/hosts" tB afterA in
      RW seenB.1.1 = "hello" +:+ cr +:+ nl ∧
      RW seenB.1.1 ≠ crlf hosts ∧
      match handleTelnetConn seenB.1.2 "guest" 80 24 with
      | Some tC => RW (execPipeline "cat /etc/hosts" tC seenB.1.2).1.1 = "hello" +:+ cr +:+ nl
      | None => False
      end
  | _, _ => False
  end.
Proof. vm_compute. repeat split; (reflexivity || discriminate). Qed.

(** C1 (amended). Every login, over Telnet, rlogin or SSH, is served by
    the one [GlobalSessionFS] of the process.  So when a session A writes
    at most [MaxFileSize] bytes to a path, the write succeeds, and every
    session B, logged in before or after the write, works on the same
    overlay and reads those bytes at that path. *)
Theorem C1_logins_share_the_global_overlay
    (w : World) (tA tB : Terminal) (p : string) (c : bytes) :
  logged_in w tA →
  (Z.of_nat (length c) ≤ MaxFileSize)%Z →
  let r := write_fresh p c (perm "644") (session tA w) in
  logged_in w tB ∨ logged_in (c_world r.2) tB →
  r.1 = None ∧
  FS tA = GlobalSessionFS (globals w) ∧
  FS tB = FS tA ∧
  ∃ e, get (session tB (c_world r.2)) p = Some e ∧
       bytes_of (session tB (c_world r.2)) e = of_bytes c.
Proof.
  intros HA Hq r HB.
  pose proof (logged_in_FS _ _ HA) as HfA.
  destruct (slice_of_bytes c (heap w)) as [Hbytes Hlen].
  destruct (Write_within_quota (globals w) p (slice_of c (heap w)).1 (perm "644")
              (fs_at w (FS tA)) (slice_of c (heap w)).2)
    as (l & s' & h' & HW & HG & HC & Harr & _); [by rewrite Hlen|].
  assert (Hr : r = (None, set_world (put (FS tA) (s', h') w) (session tA w))).
  { subst r. unfold write_fresh, call, the_fs, the_heap, the_globals, session.
    cbn [c_term c_world].
    destruct (slice_of c (heap w)) as [d h1]. cbn [fst snd] in HW. by rewrite HW. }
  clearbody r. subst r. cbn [fst snd c_world set_world] in *.
  assert (HfB : FS tB = FS tA).
  { rewrite HfA. destruct HB as [HB|HB]; apply logged_in_FS in HB; exact HB. }
  split; [done|]. split; [done|]. split; [done|].
  exists (deref h' l). unfold get, bytes_of, the_fs, the_heap, the_globals, session.
  cbn [c_term c_world].
  rewrite HfB, fs_at_put.
  change (globals (put (FS tA) (s', h') w)) with (globals w).
  change (heap (put (FS tA) (s', h') w)) with h'.
  rewrite HG. split; [done|].
  rewrite HC. f_equal. unfold slice_bytes, array_at in *. by rewrite Harr.
Qed.

Lemma C1_witness :
  match handleTelnetConn boot "root" 80 24 with
  | Some tA =>
      let tB := handleSSHConn_shell boot ssh_env 80 24 in
      let r := write_fresh "/etc/hosts" (to_bytes "hello") (perm "644") (session tA boot) in
      r.1 = None ∧
      FS tA = GlobalSessionFS (globals boot) ∧
      FS tB = FS tA ∧
      ∃ e, get (session tB (c_world r.2)) "/etc/hosts" = Some e ∧
           bytes_of (session tB (c_world r.2)) e = of_bytes (to_bytes "hello")
  | None => False
  end.
Proof.
  destruct (handleTelnetConn boot "root" 80 24) as [tA|] eqn:HA; [|by vm_compute in HA].
  apply (C1_logins_share_the_global_overlay boot tA _ "/etc/hosts" (to_bytes "hello")).
  - by eapply telnet_login.
  - vm_compute. discriminate.
  - left. apply ssh_login.
Defined.

(** ** The Telnet read path *)

Section telnet_read.
Import Telnet.
Implicit Types (ts : TelnetStream) (b : byte) (rest input : bytes).

Lemma reader_handleOption cmd opt ts : reader (handleOption cmd opt ts) = reader ts.
Proof.
  unfold handleOption, sendTTYPErequest, sendNEWENVrequest.
  repeat case_match; reflexivity.
Qed.

Lemma reader_handleSubnegotiation data ts : reader (handleSubnegotiation data ts) = reader ts.
Proof.
  unfold handleSubnegotiation, resize. repeat case_match; reflexivity.
Qed.

Lemma read_sub_cons sb rest acc :
  read_sub (sb :: rest) acc =
  if decide (sb = cmdIAC) then
    match rest with
    | [] => None
    | next :: rest' =>
        if decide (next = cmdSE) then Some (acc, rest')
        else read_sub rest' (acc ++ [sb; next])
    end
  else read_sub rest (acc ++ [sb]).
Proof. reflexivity. Qed.

Lemma read_sub_shorter input acc sub rest :
  read_sub input acc = Some (sub, rest) → length rest < length input.
Proof.
  revert acc. induction input as [input IH] using (induction_ltof1 _ (@length byte)).
  unfold ltof in IH. intros acc H.
  destruct input as [|sb rest0]; [done|].
  rewrite read_sub_cons in H. case_decide.
  - destruct rest0 as [|next rest']; [done|]. case_decide.
    + injection H as <- <-. simpl. lia.
    + apply IH in H; simpl in *; lia.
  - apply IH in H; simpl in *; lia.
Qed.

(** [Read] never stops for lack of fuel: any two amounts above the number
    of unread bytes give the same result. *)
Lemma Read_fuel_enough n m ts :
  length (reader ts) < n → length (reader ts) < m → Read_fuel n ts = Read_fuel m ts.
Proof.
  revert m ts. induction n as [|n IH]; intros m ts Hn Hm; [lia|].
  destruct m as [|m]; [lia|].
  simpl. destruct (reader ts) as [|b rest] eqn:Hr; [done|]. simpl in Hn, Hm.
  cbn [skipLF with_reader reader with_skipLF].
  destruct (skipLF ts && bool_decide (b = LF)).
  { apply IH; simpl; lia. }
  destruct (negb (bool_decide (b = cmdIAC))); [done|].
  destruct rest as [|cmd rest]; [done|]. simpl in Hn, Hm.
  case_decide; [done|].
  case_decide.
  { destruct rest as [|opt rest]; [done|]. simpl in Hn, Hm.
    apply IH; rewrite reader_handleOption; simpl; lia. }
  case_decide.
  { destruct (read_sub rest []) as [[sub rest']|] eqn:Hs; [|done].
    apply read_sub_shorter in Hs.
    apply IH; rewrite reader_handleSubnegotiation; simpl; lia. }
  apply IH; simpl; lia.
Qed.

(** A successful [Read] takes at least one byte from the reader. *)
Lemma Read_fuel_consumes n ts b ts' :
  Read_fuel n ts = (Some b, ts') → length (reader ts') < length (reader ts).
Proof.
  revert ts. induction n as [|n IH]; intros ts H; [done|].
  simpl in H. destruct (reader ts) as [|b0 rest] eqn:Hr; [done|].
  cbn [skipLF with_reader reader with_skipLF] in H. simpl.
  destruct (skipLF ts && bool_decide (b0 = LF)).
  { apply IH in H. simpl in H. lia. }
  destruct (negb (bool_decide (b0 = cmdIAC))).
  { case_decide; injection H as <- <-; simpl; lia. }
  destruct rest as [|cmd rest]; [done|].
  case_decide.
  { injection H as <- <-; simpl; lia. }
  case_decide.
  { destruct rest as [|opt rest]; [done|].
    apply IH in H. rewrite reader_handleOption in H. simpl in *. lia. }
  case_decide.
  { destruct (read_sub rest []) as [[sub rest']|] eqn:Hs; [|done].
    apply read_sub_shorter in Hs.
    apply IH in H. rewrite reader_handleSubnegotiation in H. simpl in *. lia. }
  apply IH in H. simpl in *. lia.
Qed.

Lemma Read_empty ts : reader ts = [] → (Read ts).1 = None.
Proof. intros H. unfold Read. rewrite H. simpl. by rewrite H. Qed.

Lemma app_stream_fuel_enough n m ts :
  length (reader ts) ≤ n → length (reader ts) ≤ m →
  app_stream_fuel n ts = app_stream_fuel m ts.
Proof.
  revert m ts. induction n as [|n IH]; intros m ts Hn Hm.
  - destruct (reader ts) eqn:Hr; [|simpl in Hn; lia].
    destruct m; [done|]. simpl.
    pose proof (Read_empty ts Hr). by destruct (Read ts) as [[?|] ?].
  - destruct m as [|m].
    + destruct (reader ts) eqn:Hr; [|simpl in Hm; lia]. simpl.
      pose proof (Read_empty ts Hr). by destruct (Read ts) as [[?|] ?].
    + simpl. destruct (Read ts) as [[b|] ts'] eqn:HR; [|done].
      apply Read_fuel_consumes in HR. f_equal. apply IH; lia.
Qed.

(** The application stream, one [Read] at a time. *)
Lemma app_stream_step ts :
  app_stream ts =
  match Read ts with
  | (Some b, ts') => b :: app_stream ts'
  | (None, _) => []
  end.
Proof.
  unfold app_stream. destruct (reader ts) as [|b0 rest] eqn:Hr.
  - simpl. pose proof (Read_empty ts Hr). by destruct (Read ts) as [[?|] ?].
  - simpl. destruct (Read ts) as [[b|] ts'] eqn:HR; [|done].
    apply Read_fuel_consumes in HR. f_equal.
    apply app_stream_fuel_enough; rewrite ?Hr in HR; simpl in *; lia.
Qed.

(** One round of the loop of [Read], on a reader that is not empty. *)
Lemma Read_fuel_cons n b rest ts :
  reader ts = b :: rest →
  Read_fuel (S n) ts =
  if skipLF ts && bool_decide (b = LF)
  then Read_fuel n (with_skipLF false (with_reader rest ts))
  else
    if negb (bool_decide (b = cmdIAC)) then
      if decide (b = CR)
      then (Some LF, with_skipLF true (with_skipLF false (with_reader rest ts)))
      else (Some b, with_skipLF false (with_reader rest ts))
    else
      match rest with
      | [] => (None, with_skipLF false (with_reader rest ts))
      | cmd :: rest' =>
          let ts' := with_reader rest' (with_skipLF false (with_reader rest ts)) in
          if decide (cmd = cmdIAC) then (Some cmdIAC, ts')
          else if decide (cmd = cmdWILL ∨ cmd = cmdWONT ∨ cmd = cmdDO ∨ cmd = cmdDONT) then
            match rest' with
            | [] => (None, ts')
            | opt :: rest'' => Read_fuel n (handleOption cmd opt (with_reader rest'' ts'))
            end
          else if decide (cmd = cmdSB) then
            match read_sub rest' [] with
            | None => (None, with_reader [] ts')
            | Some (subBuf, rest'') =>
                Read_fuel n (handleSubnegotiation subBuf (with_reader rest'' ts'))
            end
          else Read_fuel n ts'
      end.
Proof. intros Hr. cbn [Read_fuel]. rewrite Hr. reflexivity. Qed.

Lemma Read_plain b rest ts :
  b ≠ cmdIAC → b ≠ CR → Read (feed (b :: rest) ts) = (Some b, feed rest ts).
Proof.
  intros Hi Hc. unfold Read.
  rewrite (Read_fuel_cons _ b rest) by reflexivity.
  cbn [feed skipLF with_skipLF with_reader andb].
  rewrite (bool_decide_eq_false_2 _ Hi). cbn [negb].
  by rewrite decide_False.
Qed.

Lemma Read_CR rest ts :
  Read (feed (CR :: rest) ts) = (Some LF, with_skipLF true (feed rest ts)).
Proof. reflexivity. Qed.

Lemma Read_IAC_IAC rest ts :
  Read (feed (cmdIAC :: cmdIAC :: rest) ts) = (Some cmdIAC, feed rest ts).
Proof. reflexivity. Qed.

(** After a carriage return, a line feed is dropped and any other byte is
    read as if no carriage return had come before it. *)
Lemma Read_after_CR_LF rest ts :
  Read (with_skipLF true (feed (LF :: rest) ts)) = Read (feed rest ts).
Proof. reflexivity. Qed.

Lemma Read_after_CR_other b rest ts :
  b ≠ LF → Read (with_skipLF true (feed (b :: rest) ts)) = Read (feed (b :: rest) ts).
Proof.
  intros Hb. unfold Read.
  rewrite (Read_fuel_cons _ b rest (with_skipLF _ _)) by reflexivity.
  rewrite (Read_fuel_cons _ b rest (feed _ _)) by reflexivity.
  cbn [feed skipLF with_skipLF with_reader andb].
  by rewrite (bool_decide_eq_false_2 _ Hb).
Qed.

Lemma app_stream_CR rest ts :
  app_stream (feed (CR :: rest) ts) = LF :: app_stream (with_skipLF true (feed rest ts)).
Proof. by rewrite app_stream_step, Read_CR. Qed.

(** C8, as stated, fails on CR NUL: the byte after the carriage return is
    dropped only when it is a line feed, so the NUL reaches the
    application after the newline. *)
Lemma C8_counterexample_CR_NUL_is_two_bytes :
  app_stream (accept [CR; NUL]) = [LF; NUL] ∧
  app_stream (accept [CR; NUL]) ≠ [LF].
Proof. split; vm_compute; (reflexivity || discriminate). Qed.

(** C8 (amended). On the application stream of the Telnet front-end a CR LF
    pair becomes one newline; a CR followed by any other byte becomes a
    newline followed by whatever that byte and the rest decode to, so that
    CR NUL yields a newline and then the NUL byte; an IAC IAC pair becomes
    one byte 0xFF; and a byte that is neither CR nor IAC passes through
    unchanged, each followed by the decoding of the rest of the input. *)
Theorem C8_telnet_read_path (ts : TelnetStream) (b c : byte) (rest : bytes) :
  b ≠ cmdIAC → b ≠ CR → c ≠ LF →
  app_stream (feed (CR :: LF :: rest) ts) = LF :: app_stream (feed rest ts) ∧
  app_stream (feed (CR :: c :: rest) ts) = LF :: app_stream (feed (c :: rest) ts) ∧
  app_stream (feed (CR :: NUL :: rest) ts) = LF :: NUL :: app_stream (feed rest ts) ∧
  app_stream (feed (cmdIAC :: cmdIAC :: rest) ts) = cmdIAC :: app_stream (feed rest ts) ∧
  app_stream (feed (b :: rest) ts) = b :: app_stream (feed rest ts).
Proof.
  intros Hi Hc Hl.
  assert (Hplain : ∀ x r, x ≠ cmdIAC → x ≠ CR →
            app_stream (feed (x :: r) ts) = x :: app_stream (feed r ts)).
  { intros x r ??. by rewrite app_stream_step, Read_plain. }
  assert (Hother : ∀ x r, x ≠ LF →
            app_stream (feed (CR :: x :: r) ts) = LF :: app_stream (feed (x :: r) ts)).
  { intros x r ?. rewrite app_stream_CR. f_equal.
    rewrite (app_stream_step (with_skipLF _ _)), (app_stream_step (feed (x :: r) ts)).
    by rewrite Read_after_CR_other. }
  split; [|split; [|split; [|split]]].
  - rewrite app_stream_CR. f_equal.
    rewrite (app_stream_step (with_skipLF _ _)), (app_stream_step (feed rest ts)).
    by rewrite Read_after_CR_LF.
  - by apply Hother.
  - rewrite Hother by done. f_equal; by apply Hplain.
  - by rewrite app_stream_step, Read_IAC_IAC.
  - by apply Hplain.
Qed.

Lemma C8_witness :
  let ts := accept [] in
  let rest := to_bytes "ls" in
  app_stream (feed (CR :: LF :: rest) ts) = LF :: app_stream (feed rest ts) ∧
  app_stream (feed (CR :: Byte.x41 :: rest) ts) = LF :: app_stream (feed (Byte.x41 :: rest) ts) ∧
  app_stream (feed (CR :: NUL :: rest) ts) = LF :: NUL :: app_stream (feed rest ts) ∧
  app_stream (feed (cmdIAC :: cmdIAC :: rest) ts) = cmdIAC :: app_stream (feed rest ts) ∧
  app_stream (feed (Byte.x42 :: rest) ts) = Byte.x42 :: app_stream (feed rest ts).
Proof.
  apply (C8_telnet_read_path (accept []) Byte.x42 Byte.x41 (to_bytes "ls")); discriminate.
Defined.

End telnet_read.

(** ** [runCommand] has fuel enough *)

(** More fuel than the length of the argument list changes nothing: the
    recursion of [sudo] never stops early. *)
Lemma runCommand_fuel_enough n args stdin out st :
  length args ≤ n → runCommand_fuel n args stdin out st = runCommand args stdin out st.
Proof.
  unfold runCommand. revert args st. induction n as [|n IH]; intros args st Hn.
  - destruct args; [done|simpl in Hn; lia].
  - destruct args as [|cmd rest]; [done|]. simpl in Hn. simpl length.
    cbn [runCommand_fuel].
    repeat match goal with
    | |- (if ?c then _ else _) = _ => destruct c; [reflexivity|]
    end.
    destruct (String.eqb cmd "sudo").
    + simpl expand_args. destruct rest as [|a rest']; [done|]. simpl fmap.
      rewrite IH by (simpl in *; rewrite length_fmap; lia).
      simpl length. by rewrite length_fmap.
    + repeat match goal with
      | |- (if ?c then _ else _) = _ => destruct c; [reflexivity|]
      end.
      reflexivity.
Qed.

(** ** Normalized absolute paths *)

Section path_facts.
Implicit Types (p c : string) (cs : list string).

Lemma Split_cons a s :
  strs.Split (String a s) path.slash =
  if Ascii.eqb a path.slash then "" :: strs.Split s path.slash
  else match strs.Split s path.slash with
       | x :: xs => String a x :: xs
       | [] => [String a ""]
       end.
Proof. reflexivity. Qed.

Lemma Split_no_sep p : Forall (λ c, no_sep c = true) (strs.Split p path.slash).
Proof.
  induction p as [|a p IH]; [by repeat constructor|].
  rewrite Split_cons. destruct (Ascii.eqb a path.slash) eqn:Ha.
  - by constructor.
  - destruct (strs.Split p path.slash) as [|x xs]; [by repeat constructor; simpl; rewrite Ha|].
    inversion IH; subst. constructor; [|done]. simpl. by rewrite Ha.
Qed.

Lemma Split_single c : no_sep c = true → strs.Split c path.slash = [c].
Proof.
  induction c as [|a c IH]; [done|]. simpl no_sep. intros [Ha Hc]%andb_true_iff.
  rewrite Split_cons. apply negb_true_iff in Ha. rewrite Ha. by rewrite IH.
Qed.

Lemma Split_app c r :
  no_sep c = true →
  strs.Split (c +:+ "/" +:+ r) path.slash = c :: strs.Split r path.slash.
Proof.
  induction c as [|a c IH]; [done|]. simpl no_sep. intros [Ha Hc]%andb_true_iff.
  change (String a c +:+ "/" +:+ r) with (String a (c +:+ "/" +:+ r)).
  rewrite Split_cons. apply negb_true_iff in Ha. rewrite Ha. by rewrite IH.
Qed.

Lemma Join_cons2 c c' cs :
  strs.Join (c :: c' :: cs) "/" = c +:+ "/" +:+ strs.Join (c' :: cs) "/".
Proof. reflexivity. Qed.

Lemma Split_Join cs :
  cs ≠ [] → Forall (λ c, no_sep c = true) cs →
  strs.Split (strs.Join cs "/") path.slash = cs.
Proof.
  induction cs as [|c [|c' cs] IH]; intros Hne Hall; [done| |].
  - inversion Hall; subst. by apply Split_single.
  - inversion Hall; subst. rewrite Join_cons2, Split_app by done.
    f_equal. by apply IH.
Qed.

Lemma norm_skip root cs stack : path.norm root ("" :: cs) stack = path.norm root cs stack.
Proof. reflexivity. Qed.

Lemma norm_push root c cs stack :
  c ≠ "" → c ≠ "." → c ≠ ".." →
  path.norm root (c :: cs) stack = path.norm root cs (c :: stack).
Proof.
  intros H1 H2 H3. simpl.
  destruct (String.eqb_spec c ""); [done|].
  destruct (String.eqb_spec c "."); [done|].
  by destruct (String.eqb_spec c "..").
Qed.

Lemma norm_good_id root cs stack :
  Forall good cs → path.norm root cs stack = rev stack ++ cs.
Proof.
  revert stack. induction cs as [|c cs IH]; intros stack Hall.
  - simpl. by rewrite app_nil_r.
  - inversion Hall as [|?? (_ & ? & ? & ?) ?]; subst.
    rewrite norm_push, IH by done. simpl. by rewrite <- app_assoc.
Qed.

(** What [Clean] keeps of a rooted path are good elements. *)
Lemma norm_rooted_good cs stack :
  Forall (λ c, no_sep c = true) cs → Forall good stack →
  Forall good (path.norm true cs stack).
Proof.
  revert stack. induction cs as [|c cs IH]; intros stack Hcs Hst.
  - simpl. by apply Forall_rev.
  - inversion Hcs; subst. simpl.
    destruct (String.eqb_spec c ""); [by apply IH|].
    destruct (String.eqb_spec c "."); [by apply IH|]. simpl.
    destruct (String.eqb_spec c "..").
    + destruct stack as [|top below]; [by apply IH|].
      inversion Hst as [|?? (_ & _ & _ & ?) ?]; subst.
      destruct (String.eqb_spec top ".."); [done|]. by apply IH.
    + apply IH; [done|]. by constructor.
Qed.

Lemma good_no_sep cs : Forall good cs → Forall (λ c, no_sep c = true) cs.
Proof. intros H. eapply Forall_impl; [done|]. by intros ? []. Qed.

Lemma rooted_of_elems cs : path.rooted (of_elems cs) = true.
Proof.
  unfold path.rooted, strs.HasPrefix, of_elems.
  change ("/" +:+ strs.Join cs "/") with (String "/" (strs.Join cs "/")).
  by destruct (strs.Join cs "/").
Qed.

Lemma Split_of_elems cs :
  Forall (λ c, no_sep c = true) cs →
  strs.Split (of_elems cs) path.slash = "" :: (if decide (cs = []) then [""] else cs).
Proof.
  intros Hall. unfold of_elems.
  change ("/" +:+ strs.Join cs "/") with (String "/" (strs.Join cs "/")).
  rewrite Split_cons. simpl Ascii.eqb. cbv iota. f_equal.
  case_decide as Hcs; [by subst|]. by apply Split_Join.
Qed.


Lemma Clean_of_elems cs : Forall good cs → path.Clean (of_elems cs) = of_elems cs.
Proof.
  intros Hall. unfold path.Clean. rewrite rooted_of_elems.
  rewrite Split_of_elems by by apply good_no_sep.
  rewrite norm_skip. case_decide as Hcs.
  - by subst.
  - by rewrite norm_good_id.
Qed.

Lemma of_elems_abs_clean cs : Forall good cs → abs_clean (of_elems cs).
Proof. intros H. split; [apply rooted_of_elems|by apply Clean_of_elems]. Qed.



Lemma last_snoc {A} (l : list A) x d : List.last (l ++ [x]) d = x.
Proof. by rewrite List.last_last. Qed.






End path_facts.

(** ** The merge of [ListDir] *)

Section listing.
Context (h : Heap) (d : string).
Implicit Types (items : gmap string loc) (order : list (string * option loc)).






End listing.

#[global] Instance lower_le_trans h : Transitive (lower_le h).
Proof. intros a b c. unfold lower_le. apply transitivity. Qed.

#[global] Instance lower_le_total h : Total (lower_le h).
Proof. intros a b. unfold lower_le. apply total, _. Qed.


(** ** The invariant of the session filesystem *)

Section invariant.
Context (G : Globals).
Implicit Types (s : SessionFS) (h : Heap) (l : loc) (e : FileEntry).

Lemma last_nonempty_nonempty cs c : path.last_nonempty cs = Some c → c ≠ "".
Proof.
  revert c. induction cs as [|c0 cs IH]; intros c; [done|]. simpl.
  destruct (path.last_nonempty cs) as [x|].
  - intros [= <-]. by apply IH.
  - destruct (String.eqb_spec c0 ""); [done|]. by intros [= <-].
Qed.

Lemma Base_nonempty p : path.Base p ≠ "".
Proof.
  unfold path.Base. destruct (String.eqb p ""); [done|].
  destruct (path.last_nonempty _) as [c|] eqn:Hc; [|done].
  by apply last_nonempty_nonempty in Hc.
Qed.

(** An object that carries the last element of a path as its name is a
    real object of the heap. *)
Lemma named_is_allocated h l p : Name (deref h l) = path.Base p → l ∈ dom (objects h).
Proof.
  intros Hn. apply elem_of_dom. unfold deref in Hn.
  destruct (objects h !! l); [done|]. simpl in Hn. by destruct (Base_nonempty p).
Qed.


Lemma grows_trans h1 h2 h3 : grows h1 h2 → grows h2 h3 → grows h1 h3.
Proof.
  intros H12 H23 l Hl. destruct (H12 l Hl) as [Hl2 Hn2].
  destruct (H23 l Hl2) as [Hl3 Hn3]. split; [done|congruence].
Qed.

(** Storing an object that keeps the name of the one it replaces, in a
    heap with the same objects. *)
Lemma grows_store h hx l e :
  objects hx = objects h → Name e = Name (deref h l) → grows h (store l e hx).
Proof.
  intros Ho Hn l' Hl'. split.
  - unfold store; simpl. rewrite dom_insert_L, Ho. set_solver.
  - destruct (decide (l = l')) as [<-|Hne].
    + by rewrite deref_store.
    + rewrite deref_store_ne by done. unfold deref. by rewrite Ho.
Qed.

Lemma grows_new_entry h hx l e :
  objects hx = objects h → l ∉ dom (objects h) → grows h (store l e hx).
Proof.
  intros Ho Hfresh l' Hl'. split.
  - unfold store; simpl. rewrite dom_insert_L, Ho. set_solver.
  - rewrite deref_store_ne by (by intros <-). unfold deref. by rewrite Ho.
Qed.

Lemma grows_same_objects h hx : objects hx = objects h → grows h hx.
Proof. intros Ho l Hl. split; [by rewrite Ho|]. unfold deref. by rewrite Ho. Qed.

Lemma base_ok_grows h h' : base_ok G h → grows h h' → base_ok G h'.
Proof.
  intros Hb Hg p l Hl. destruct (Hg l) as [_ ->]; [|by apply Hb].
  eapply named_is_allocated. by apply Hb.
Qed.

Lemma overlay_ok_grows s h h' : overlay_ok s h → grows h h' → overlay_ok s h'.
Proof.
  intros [Hk Hn] Hg. split; [done|].
  intros k l Hl. destruct (Hg l) as [_ ->]; [|by apply Hn].
  eapply named_is_allocated. by apply Hn.
Qed.

(** Putting a new object, named after the path, at a normalized path. *)
Lemma overlay_ok_insert s s' h h' k l :
  overlay_ok s h → grows h h' → abs_clean k → Name (deref h' l) = path.Base k →
  overlay s' = <[k := Some l]> (overlay s) →
  overlay_ok s' h'.
Proof.
  intros Hok Hg Hk Hn Hs'. destruct (overlay_ok_grows _ _ _ Hok Hg) as [Hkeys Hnames].
  split; rewrite Hs'.
  - intros k' v. destruct (decide (k = k')) as [<-|Hne].
    + done.
    + rewrite lookup_insert_ne by done. apply Hkeys.
  - intros k' l'. destruct (decide (k = k')) as [<-|Hne].
    + rewrite lookup_insert_eq. by intros [= <-].
    + rewrite lookup_insert_ne by done. apply Hnames.
Qed.

Lemma overlay_ok_tombstone s s' h k :
  overlay_ok s h → abs_clean k →
  overlay s' = <[k := None]> (overlay s) →
  overlay_ok s' h.
Proof.
  intros [Hkeys Hnames] Hk Hs'. split; rewrite Hs'.
  - intros k' v. destruct (decide (k = k')) as [<-|Hne].
    + done.
    + rewrite lookup_insert_ne by done. apply Hkeys.
  - intros k' l'. destruct (decide (k = k')) as [<-|Hne].
    + by rewrite lookup_insert_eq.
    + rewrite lookup_insert_ne by done. apply Hnames.
Qed.

Lemma fs_ok_grows s h h' : fs_ok G s h → grows h h' → fs_ok G s h'.
Proof. intros [Ho Hb] Hg. split; [by eapply overlay_ok_grows|by eapply base_ok_grows]. Qed.

Lemma fs_ok_insert s s' h h' k l :
  fs_ok G s h → grows h h' → abs_clean k → Name (deref h' l) = path.Base k →
  overlay s' = <[k := Some l]> (overlay s) →
  fs_ok G s' h'.
Proof.
  intros [Ho Hb] Hg Hk Hn Hs'.
  split; [by eapply overlay_ok_insert|by eapply base_ok_grows].
Qed.

Lemma fs_ok_tombstone s s' h k :
  fs_ok G s h → abs_clean k → overlay s' = <[k := None]> (overlay s) → fs_ok G s' h.
Proof. intros [Ho Hb] Hk Hs'. split; [by eapply overlay_ok_tombstone|done]. Qed.

(** A path that [GetEntry] finds while the overlay has no live entry for it
    is a path of [BaseFS]. *)
Lemma GetEntry_from_base s p l :
  path.Clean p = p → GetEntry G s p = Some l → is_live s p = None →
  BaseFS G !! p = Some l.
Proof.
  intros Hp. unfold GetEntry, is_live. rewrite Hp.
  by destruct (overlay s !! p) as [[?|]|].
Qed.

Lemma Write_ok p data mode s h :
  fs_ok G s h → abs_clean p →
  fs_ok G (Write G p data mode s h).1.2 (Write G p data mode s h).2.
Proof.
  intros Hok [Hr Hp]. unfold Write.
  destruct (Z.of_nat (s_len data) >? MaxFileSize)%Z; [done|].
  rewrite Hp. destruct (is_live s p) as [x|] eqn:Hx.
  - simpl. eapply fs_ok_grows; [done|]. by apply grows_store.
  - destruct (BaseFS G !! p); simpl;
      (eapply fs_ok_insert; [done|apply grows_new_entry; [done|apply is_fresh]|done|by rewrite deref_store|done]).
Qed.

Lemma Mkdir_ok p s h :
  fs_ok G s h → abs_clean p → fs_ok G (Mkdir p s h).1.2 (Mkdir p s h).2.
Proof.
  intros Hok [Hr Hp]. unfold Mkdir. rewrite Hp. simpl.
  eapply fs_ok_insert; [done|apply grows_new_entry; [done|apply is_fresh]|done|by rewrite deref_store|done].
Qed.

Lemma Remove_ok p s h :
  fs_ok G s h → abs_clean p → fs_ok G (Remove p s h).1.2 (Remove p s h).2.
Proof. intros Hok [Hr Hp]. unfold Remove. rewrite Hp. simpl. by eapply fs_ok_tombstone. Qed.

Lemma Rename_ok a b s h :
  fs_ok G s h → abs_clean a → abs_clean b →
  fs_ok G (Rename G a b s h).1.2 (Rename G a b s h).2.
Proof.
  intros Hok Ha Hb. unfold Rename. destruct (GetEntry G s a) as [e|]; [|done]. simpl.
  apply (fs_ok_tombstone
           (set_overlay s (<[b := Some (fresh (dom (objects h)))]> (overlay s))) _ _ a);
    [|done|reflexivity].
  eapply fs_ok_insert; [done|apply grows_new_entry; [done|apply is_fresh]|done|by rewrite deref_store|done].
Qed.

Lemma Chmod_ok p mode s h :
  fs_ok G s h → abs_clean p → fs_ok G (Chmod G p mode s h).1.2 (Chmod G p mode s h).2.
Proof.
  intros Hok [Hr Hp]. unfold Chmod. destruct (GetEntry G s p) as [e|] eqn:He; [|done].
  destruct (is_live s p) as [x|] eqn:Hx; simpl.
  - eapply fs_ok_grows; [done|]. by apply grows_store.
  - eapply fs_ok_insert; [done|apply grows_new_entry; [done|apply is_fresh]|done| |done].
    rewrite deref_store. simpl. apply (proj2 Hok). by apply (GetEntry_from_base s).
Qed.



Lemma grow_objects e end_ h : objects (grow e end_ h).2 = objects h.
Proof. unfold grow, make_slice, new_array. by destruct (_ >? _)%Z. Qed.




End invariant.

(** ** The process after [initFS] satisfies the invariant *)

Lemma boot_base_ok : base_ok (globals boot) (heap boot).
Proof.
  intros p l Hl.
  apply (map_Forall_lookup_1
           (λ p l, Name (deref (heap boot) l) = path.Base p) (BaseFS (globals boot)));
    [|done].
  compute_done.
Qed.

Lemma boot_fs_ok : fs_ok (globals boot) NewSessionFS (heap boot).
Proof.
  split; [|apply boot_base_ok].
  split; intros k v H;
    change (overlay NewSessionFS) with (∅ : gmap string (option loc)) in H;
    by rewrite lookup_empty in H.
Qed.


(** ** BaseFS under in-place writes *)

(** C2. [Chmod], [Rename] and the shell's [cp] put into the overlay an entry
    whose content slice is the very array of the [BaseFS] entry, and
    [WriteAt] copies its bytes into the array of the overlay entry it finds.
    So after a [Chmod] of /etc/hosts (the Setstat request of SFTP), or a
    [Rename] or a [cp] of it, a [WriteAt] of one byte at offset 0 changes the
    content of the [BaseFS] entry of /etc/hosts itself, and a session with a
    new, empty overlay reads the changed bytes.  A [WriteAt] that finds no
    overlay entry copies the content first and leaves [BaseFS] alone. *)
Theorem C2_WriteAt_changes_BaseFS_content :
  let G := globals boot in
  let base_hosts (h : Heap) := of_bytes <$> (content h <$> BaseFS G !! "/etc/hosts") in
  let after ops := (run_ops G ops (NewSessionFS, heap boot)).2 in
  let damaged :=
    "X27.0.0.1 localhost" +:+ nl +:+ "127.0.1.1 ubuntu-server" +:+ nl in
  base_hosts (heap boot) = Some hosts ∧
  base_hosts (after [OpChmod "/etc/hosts" (perm "600");
                     OpWriteAt "/etc/hosts" (to_bytes "X") 0]) = Some damaged ∧
  base_hosts (after [OpRename "/etc/hosts" "/tmp/h";
                     OpWriteAt "/tmp/h" (to_bytes "X") 0]) = Some damaged ∧
  base_hosts (after [OpCopy "/etc/hosts" "/tmp/h";
                     OpWriteAt "/tmp/h" (to_bytes "X") 0]) = Some damaged ∧
  of_bytes <$> (content (after [OpChmod "/etc/hosts" (perm "600");
                                OpWriteAt "/etc/hosts" (to_bytes "X") 0])
                <$> GetEntry G NewSessionFS "/etc/hosts") = Some damaged ∧
  base_hosts (after [OpWriteAt "/etc/hosts" (to_bytes "X") 0]) = Some hosts.
Proof. repeat split; vm_compute; reflexivity. Qed.

(** ** Copy-on-write: the objects and the bytes of [BaseFS] *)

Section separation.
Context (G : Globals).
Implicit Types (s : SessionFS) (h : Heap) (l x a : loc) (b : bool).

Lemma unchanged_refl b h : unchanged G b h h.
Proof. by repeat split. Qed.

Lemma unchanged_deref b h h' p l :
  unchanged G b h h' → BaseFS G !! p = Some l → deref h' l = deref h l.
Proof. intros (Ho & _) Hl. unfold deref. by rewrite (Ho p l Hl). Qed.

Lemma unchanged_base_array b h h' a :
  unchanged G b h h' → base_array G h' a ↔ base_array G h a.
Proof.
  intros Hu. split; intros (p & l & Hl & Ha); exists p, l; (split; [done|]).
  - by rewrite <- (unchanged_deref b h h' p l).
  - by rewrite (unchanged_deref b h h' p l).
Qed.

Lemma unchanged_trans b1 b2 h1 h2 h3 :
  unchanged G b1 h1 h2 → unchanged G b2 h2 h3 → unchanged G (b1 && b2) h1 h3.
Proof.
  intros Hu1 Hu2.
  pose proof Hu1 as (Ho1 & Hd1 & Hb1). pose proof Hu2 as (Ho2 & Hd2 & Hb2).
  split; [|split].
  - intros p l Hl. by rewrite (Ho2 p l Hl), (Ho1 p l Hl).
  - set_solver.
  - intros [-> ->]%andb_true_iff a Ha. rewrite Hb2, Hb1; auto.
    by apply (unchanged_base_array true h1 h2).
Qed.

Lemma unchanged_weaken b h h' : unchanged G true h h' → unchanged G b h h'.
Proof. intros (Ho & Hd & Hb). split; [done|]. split; [done|]. intros _. by apply Hb. Qed.

Lemma unchanged_objects h h' :
  arrays h' = arrays h →
  (∀ p l, BaseFS G !! p = Some l → objects h' !! l = objects h !! l) →
  unchanged G true h h'.
Proof. intros Ha Ho. split; [done|]. rewrite Ha. by split. Qed.

Lemma unchanged_store h hx x e :
  objects hx = objects h → arrays hx = arrays h →
  (∀ p, BaseFS G !! p ≠ Some x) →
  unchanged G true h (store x e hx).
Proof.
  intros Ho Ha Hx. apply unchanged_objects; [done|].
  intros p l Hl. unfold store; simpl. rewrite lookup_insert_ne, Ho; [done|].
  intros ->. by apply (Hx p).
Qed.

(** Writing an array that is not one of [BaseFS]. *)
Lemma unchanged_set_array_apart h a c :
  ¬ base_array G h a → unchanged G true h (set_array a c h).
Proof.
  intros Ha. split; [done|]. split.
  - unfold set_array; simpl. rewrite dom_insert_L. set_solver.
  - intros _ a' Ha'. unfold set_array; simpl. rewrite lookup_insert_ne; [done|].
    by intros <-.
Qed.

Lemma fresh_array_apart s h : sep_ok G s h → ¬ base_array G h (fresh (dom (arrays h))).
Proof. intros Hok Ha%(base_arrays_alloc _ _ _ Hok). by apply is_fresh in Ha. Qed.

Lemma unchanged_set_array h a c : unchanged G false h (set_array a c h).
Proof.
  split; [done|]. split; [|done].
  unfold set_array; simpl. rewrite dom_insert_L. set_solver.
Qed.

Lemma fresh_not_base s h hx p :
  sep_ok G s h → objects hx = objects h → BaseFS G !! p ≠ Some (fresh (dom (objects hx))).
Proof.
  intros Hok Ho Hp. apply (base_alloc _ _ _ Hok) in Hp. rewrite <- Ho in Hp.
  by apply is_fresh in Hp.
Qed.

(** The invariant after a step that leaves the [BaseFS] objects alone. *)
Lemma sep_ok_step b s s' h h' :
  sep_ok G s h → unchanged G b h h' →
  (∀ k l p, overlay s' !! k = Some (Some l) → BaseFS G !! p ≠ Some l) →
  sep_ok G s' h'.
Proof.
  intros [Hb Hl Ha] Hu Hl'. pose proof Hu as (Ho & Hd & _). split; [|done|].
  - intros p l Hp. apply elem_of_dom. rewrite (Ho p l Hp). apply elem_of_dom. by eapply Hb.
  - intros a Hbase. apply Hd, Ha. by apply (unchanged_base_array b h h').
Qed.

Lemma live_apart_insert s h l k :
  sep_ok G s h → (∀ p, BaseFS G !! p ≠ Some l) →
  ∀ k' l' p, <[k := Some l]> (overlay s) !! k' = Some (Some l') → BaseFS G !! p ≠ Some l'.
Proof.
  intros Hok Hl k' l' p. destruct (decide (k = k')) as [<-|Hne].
  - rewrite lookup_insert_eq. intros [= <-]. apply Hl.
  - rewrite lookup_insert_ne by done. apply (live_apart _ _ _ Hok).
Qed.

Lemma live_apart_tombstone k (o : gmap string (option loc)) :
  (∀ k' l' p, o !! k' = Some (Some l') → BaseFS G !! p ≠ Some l') →
  ∀ k' l' p, <[k := None]> o !! k' = Some (Some l') → BaseFS G !! p ≠ Some l'.
Proof.
  intros Ho k' l' p. destruct (decide (k = k')) as [<-|Hne].
  - by rewrite lookup_insert_eq.
  - rewrite lookup_insert_ne by done. apply Ho.
Qed.

Lemma is_live_apart s h (p : string) x q :
  sep_ok G s h → is_live s p = Some x → BaseFS G !! q ≠ Some x.
Proof. intros Hok Hx%is_live_Some. by eapply (live_apart _ _ _ Hok). Qed.

Lemma step_keep b s h h' :
  sep_ok G s h → unchanged G b h h' → step_ok G b s h (s, h').
Proof.
  intros Hok Hu. split; [|done]. eapply sep_ok_step; [done..|]. apply (live_apart _ _ _ Hok).
Qed.

Lemma step_insert s s' h hx k e :
  sep_ok G s h → objects hx = objects h → arrays hx = arrays h →
  overlay s' = <[k := Some (fresh (dom (objects hx)))]> (overlay s) →
  step_ok G true s h (s', store (fresh (dom (objects hx))) e hx).
Proof.
  intros Hok Ho Ha Hs'.
  assert (Hf : ∀ q, BaseFS G !! q ≠ Some (fresh (dom (objects hx)))).
  { intros q. by eapply fresh_not_base. }
  assert (Hu : unchanged G true h (store (fresh (dom (objects hx))) e hx))
    by (by apply unchanged_store).
  split; [|done]. eapply sep_ok_step; [done..|]. cbn [fst]. rewrite Hs'.
  by eapply live_apart_insert.
Qed.

Lemma step_update s h hx (p : string) x e :
  sep_ok G s h → objects hx = objects h → arrays hx = arrays h →
  is_live s p = Some x →
  step_ok G true s h (s, store x e hx).
Proof.
  intros Hok Ho Ha Hx. apply step_keep; [done|].
  apply unchanged_store; [done..|]. intros q. by eapply is_live_apart.
Qed.

Lemma step_tombstone b s s' s'' h h' k :
  step_ok G b s h (s', h') → overlay s'' = <[k := None]> (overlay s') →
  step_ok G b s h (s'', h').
Proof.
  intros [Hok Hu] Hs''. split; [|done]. cbn [fst snd] in *.
  destruct Hok as [Hb Hl Ha]. split; [done| |done].
  rewrite Hs''. by eapply live_apart_tombstone.
Qed.

Lemma step_trans b1 b2 s1 h1 s2 h2 r :
  unchanged G b1 h1 h2 → step_ok G b2 s2 h2 r → step_ok G (b1 && b2) s1 h1 r.
Proof. intros Hu [Hok Hu']. split; [done|]. by eapply unchanged_trans. Qed.

Lemma Write_sep p data mode s h :
  sep_ok G s h →
  step_ok G true s h ((Write G p data mode s h).1.2, (Write G p data mode s h).2).
Proof.
  intros Hok. unfold Write.
  destruct (Z.of_nat (s_len data) >? MaxFileSize)%Z;
    [by apply step_keep, unchanged_refl|].
  destruct (is_live s (path.Clean p)) as [x|] eqn:Hx.
  - simpl. by apply (step_update s h _ (path.Clean p) x).
  - destruct (BaseFS G !! path.Clean p); simpl; by eapply (step_insert _ _ _ (time_Now h).2).
Qed.

Lemma Mkdir_sep p s h :
  sep_ok G s h → step_ok G true s h ((Mkdir p s h).1.2, (Mkdir p s h).2).
Proof. intros Hok. unfold Mkdir. simpl. by eapply (step_insert _ _ _ (time_Now h).2). Qed.

Lemma Remove_sep p s h :
  sep_ok G s h → step_ok G true s h ((Remove p s h).1.2, (Remove p s h).2).
Proof.
  intros Hok. unfold Remove. simpl.
  eapply (step_tombstone _ _ s); [|reflexivity]. by apply step_keep, unchanged_refl.
Qed.

Lemma Rename_sep oldP newP s h :
  sep_ok G s h →
  step_ok G true s h ((Rename G oldP newP s h).1.2, (Rename G oldP newP s h).2).
Proof.
  intros Hok. unfold Rename.
  destruct (GetEntry G s oldP) as [e|]; [|by apply step_keep, unchanged_refl]. simpl.
  eapply (step_tombstone _ _
            (set_overlay s (<[newP := Some (fresh (dom (objects h)))]> (overlay s))));
    [|reflexivity].
  by eapply (step_insert _ _ _ (time_Now h).2).
Qed.

Lemma Chmod_sep p mode s h :
  sep_ok G s h → step_ok G true s h ((Chmod G p mode s h).1.2, (Chmod G p mode s h).2).
Proof.
  intros Hok. unfold Chmod.
  destruct (GetEntry G s p) as [e|]; [|by apply step_keep, unchanged_refl].
  destruct (is_live s p) as [x|] eqn:Hx; simpl.
  - by apply (step_update s h _ p x).
  - by eapply (step_insert _ _ _ (time_Now h).2).
Qed.

Lemma Chown_sep p uid gid s h :
  sep_ok G s h →
  step_ok G true s h ((Chown G p uid gid s h).1.2, (Chown G p uid gid s h).2).
Proof.
  intros Hok. unfold Chown.
  destruct (GetEntry G s p) as [e|]; [|by apply step_keep, unchanged_refl].
  destruct (is_live s p) as [x|] eqn:Hx; simpl.
  - by apply (step_update s h _ p x).
  - by eapply (step_insert _ _ _ (time_Now h).2).
Qed.

(** The first half of [WriteAt] copies: the entry it returns is in the
    overlay, with an array of its own when it is new. *)
Lemma find_or_create_fresh wpath p off s h :
  is_live s wpath = None →
  ∃ c e,
    find_or_create G wpath p off s h =
      (fresh (dom (objects h)),
       set_overlay s (<[wpath := Some (fresh (dom (objects h)))]> (overlay s)),
       store (fresh (dom (objects h))) e
             (time_Now (set_array (fresh (dom (arrays h))) c h)).2) ∧
    s_ptr (Content e) = Some (fresh (dom (arrays h))).
Proof.
  intros Hx. unfold find_or_create. rewrite Hx.
  unfold make_slice, new_array, set_array.
  cbn [s_ptr time_Now new_entry fst snd objects arrays clock].
  rewrite insert_insert_eq.
  eexists _, _. split; reflexivity.
Qed.

Lemma find_or_create_sep wpath p off s h :
  sep_ok G s h →
  step_ok G true s h ((find_or_create G wpath p off s h).1.2, (find_or_create G wpath p off s h).2) ∧
  is_live (find_or_create G wpath p off s h).1.2 wpath = Some (find_or_create G wpath p off s h).1.1.
Proof.
  intros Hok. destruct (is_live s wpath) as [x|] eqn:Hx.
  - unfold find_or_create. rewrite Hx. split; [by apply step_keep, unchanged_refl|done].
  - destruct (find_or_create_fresh wpath p off s h Hx) as (c & e & -> & _).
    cbn [fst snd]. split.
    + set (h1 := set_array _ c h).
      assert (Hu : unchanged G true h h1)
        by (apply unchanged_set_array_apart; by eapply fresh_array_apart).
      assert (Hs : sep_ok G s h1).
      { eapply sep_ok_step; [done..|]. apply (live_apart _ _ _ Hok). }
      apply (step_trans true true s h s h1); [done|].
      by apply (step_insert s _ h1 (time_Now h1).2 wpath e).
    + unfold is_live. cbn [set_overlay overlay]. by rewrite lookup_insert_eq.
Qed.

(** The slice that [grow] returns shows the array it had, or a new one. *)
Lemma grow_sep e end_ s h :
  sep_ok G s h →
  unchanged G true h (grow e end_ h).2 ∧
  ∀ a, s_ptr (grow e end_ h).1 = Some a →
       s_ptr (Content e) = Some a ∨ ¬ base_array G h a.
Proof.
  intros Hok. unfold grow. destruct (_ >? _)%Z; [|split; [apply unchanged_refl|by left]].
  unfold make_slice, new_array. cbn [s_ptr fst snd].
  set (c := _ ++ drop _ _). split.
  - replace (set_array _ c _) with (set_array (fresh (dom (arrays h))) c h).
    + apply unchanged_set_array_apart. by eapply fresh_array_apart.
    + unfold set_array; simpl. f_equal. symmetry. apply insert_insert_eq.
  - intros a [= <-]. right. by eapply fresh_array_apart.
Qed.

(** The second half of [WriteAt] writes into the array that the entry's
    content shows, whose array that may be. *)
Lemma write_bytes_unchanged entry p off s h :
  sep_ok G s h → (∀ q, BaseFS G !! q ≠ Some entry) →
  unchanged G false h (write_bytes entry p off h).2.
Proof.
  intros Hok Hentry. unfold write_bytes.
  destruct (int_add off (Z.of_nat (length p)) >? MaxFileSize)%Z; [apply unchanged_refl|].
  pose proof (grow_sep (deref h entry) (int_add off (Z.of_nat (length p))) s h Hok) as [Hg _].
  pose proof (grow_objects (deref h entry) (int_add off (Z.of_nat (length p))) h) as Hgo.
  destruct (grow _ _ h) as [c0 h1]. cbn [snd] in Hg, Hgo.
  apply (unchanged_trans true false h h1); [done|].
  destruct (_ || _)%bool; cbn [snd].
  - apply unchanged_weaken. apply unchanged_store; [done..|apply Hentry].
  - set (h2 := match s_ptr _ with Some a => _ | None => h1 end).
    apply (unchanged_trans false true h1 h2).
    + unfold h2. destruct (s_ptr _); [apply unchanged_set_array|apply unchanged_refl].
    + apply unchanged_store; [by unfold h2; destruct (s_ptr _)..|apply Hentry].
Qed.

Lemma WriteAt_sep wpath p off s h :
  sep_ok G s h →
  step_ok G false s h ((WriteAt G wpath p off s h).1.2, (WriteAt G wpath p off s h).2).
Proof.
  intros Hok. unfold WriteAt.
  destruct (find_or_create_sep wpath p off s h Hok) as [[Hok1 Hu1] Hlive].
  destruct (find_or_create G wpath p off s h) as [[entry s1] h1]. cbn [fst snd] in *.
  pose proof (write_bytes_unchanged entry p off s1 h1 Hok1) as Hu2.
  destruct (write_bytes entry p off h1) as [r h2]. cbn [fst snd] in *.
  assert (Hu2' : unchanged G false h1 h2).
  { apply Hu2. intros q. by eapply is_live_apart. }
  split; cbn [fst snd].
  - eapply sep_ok_step; [done..|]. apply (live_apart _ _ _ Hok1).
  - by apply (unchanged_trans true false h h1).
Qed.

(** Every operation keeps the invariant and the objects of [BaseFS]; every
    one but [WriteAt] keeps the bytes of its arrays. *)
Lemma run_op_sep o s h :
  sep_ok G s h → step_ok G (negb (is_WriteAt o)) s h (run_op G o (s, h)).
Proof.
  intros Hok. destruct o; cbn [run_op is_WriteAt negb].
  - unfold slice_of, new_array. cbn [fst snd].
    set (h1 := set_array _ c h). set (d := Build_slice _ _).
    assert (Hu : unchanged G true h h1)
      by (apply unchanged_set_array_apart; by eapply fresh_array_apart).
    assert (Hok1 : sep_ok G s h1).
    { eapply sep_ok_step; [done..|]. apply (live_apart _ _ _ Hok). }
    pose proof (Write_sep p d mode s h1 Hok1) as H.
    destruct (Write G p d mode s h1) as [[err s'] h']. cbn [fst snd] in H.
    by apply (step_trans true true s h s h1).
  - destruct (GetEntry G s src) as [e|]; [|by apply step_keep, unchanged_refl].
    pose proof (Write_sep dst (Content (deref h e)) (Mode (deref h e)) s h Hok) as H.
    by destruct (Write G dst _ _ s h) as [[err s'] h'].
  - pose proof (Mkdir_sep p s h Hok) as H. by destruct (Mkdir p s h) as [[err s'] h'].
  - pose proof (Remove_sep p s h Hok) as H. by destruct (Remove p s h) as [[err s'] h'].
  - pose proof (Rename_sep a b s h Hok) as H.
    by destruct (Rename G a b s h) as [[err s'] h'].
  - pose proof (Chmod_sep p mode s h Hok) as H.
    by destruct (Chmod G p mode s h) as [[err s'] h'].
  - pose proof (Chown_sep p uid gid s h Hok) as H.
    by destruct (Chown G p uid gid s h) as [[err s'] h'].
  - pose proof (WriteAt_sep p c off s h Hok) as H.
    by destruct (WriteAt G p c off s h) as [[err s'] h'].
Qed.

Lemma run_ops_sep ops s h :
  sep_ok G s h →
  step_ok G (forallb (λ o, negb (is_WriteAt o)) ops) s h (run_ops G ops (s, h)).
Proof.
  revert s h. induction ops as [|o ops IH]; intros s h Hok.
  - by apply step_keep, unchanged_refl.
  - change (run_ops G (o :: ops) (s, h)) with (run_ops G ops (run_op G o (s, h))).
    destruct (run_op_sep o s h Hok) as [Hok1 Hu1].
    destruct (run_op G o (s, h)) as [s1 h1]. cbn [fst snd] in *.
    cbn [forallb]. by apply (step_trans _ _ s h s1 h1), IH.
Qed.

Lemma unchanged_content h h' p l :
  (∀ a, base_array G h a → a ∈ dom (arrays h)) →
  unchanged G true h h' → BaseFS G !! p = Some l → content h' l = content h l.
Proof.
  intros Halloc Hu Hl. pose proof Hu as (Ho & _ & Hb).
  unfold content, slice_bytes. rewrite (unchanged_deref true h h' p l Hu Hl).
  destruct (s_ptr (Content (deref h l))) as [a|] eqn:Ha; [|done].
  unfold array_at. rewrite Hb; [done..|]. by exists p, l.
Qed.
End separation.

Section deep_copies.
Context (G : Globals).
Implicit Types (s : SessionFS) (h : Heap) (l x a : loc) (b : bool).

(** A step that changes no object and no array of [BaseFS]. *)
Lemma cow_heap b s h h' :
  cow_ok G s h → unchanged G b h h' → objects h' = objects h → cow_ok G s h'.
Proof.
  intros [Hsep Hal Hap] Hu Ho. split.
  - eapply sep_ok_step; [done..|]. apply (live_apart _ _ _ Hsep).
  - intros k l Hl. rewrite Ho. by eapply Hal.
  - intros k l a Hl Ha Hbase. apply (unchanged_base_array G b h h') in Hbase; [|done].
    apply (Hap k l a Hl); [|done]. unfold deref in *. by rewrite <- Ho.
Qed.

(** An overlay entry gets a content that is not an array of [BaseFS]. *)
Lemma cow_update s h (p : string) x e :
  cow_ok G s h → is_live s p = Some x →
  (∀ a, s_ptr (Content e) = Some a → ¬ base_array G h a) →
  cow_ok G s (store x e h).
Proof.
  intros Hcow Hx He. pose proof Hcow as [Hsep Hal Hap].
  assert (Hu : unchanged G true h (store x e h)).
  { apply unchanged_store; [done..|]. intros q. by eapply is_live_apart. }
  split.
  - eapply sep_ok_step; [done..|]. apply (live_apart _ _ _ Hsep).
  - intros k l Hl. unfold store; cbn [objects]. rewrite dom_insert_L.
    apply elem_of_union_r. by eapply Hal.
  - intros k l a Hl Ha Hbase. apply (unchanged_base_array G true h _) in Hbase; [|done].
    destruct (decide (x = l)) as [<-|Hne].
    + rewrite deref_store in Ha. by apply (He a).
    + rewrite deref_store_ne in Ha by done. by apply (Hap k l a).
Qed.

Lemma cow_insert s s' h k e :
  cow_ok G s h →
  (∀ a, s_ptr (Content e) = Some a → ¬ base_array G h a) →
  overlay s' = <[k := Some (fresh (dom (objects h)))]> (overlay s) →
  cow_ok G s' (store (fresh (dom (objects h))) e h).
Proof.
  intros Hcow He Hs'. pose proof Hcow as [Hsep Hal Hap].
  destruct (step_insert G s s' h h k e Hsep eq_refl eq_refl Hs') as [Hsep' Hu].
  split; [done|..]; rewrite Hs'.
  - intros k' l. unfold store; cbn [objects]. rewrite dom_insert_L.
    destruct (decide (k = k')) as [<-|Hne].
    + rewrite lookup_insert_eq. intros [= <-]. set_solver.
    + rewrite lookup_insert_ne by done. intros Hl. apply elem_of_union_r. by eapply Hal.
  - intros k' l a Hl Ha Hbase. apply (unchanged_base_array G true h _) in Hbase; [|done].
    destruct (decide (fresh (dom (objects h)) = l)) as [<-|Hne].
    + rewrite deref_store in Ha. by apply (He a).
    + rewrite deref_store_ne in Ha by done.
      destruct (decide (k = k')) as [<-|Hk].
      * rewrite lookup_insert_eq in Hl. by injection Hl.
      * rewrite lookup_insert_ne in Hl by done. by apply (Hap k' l a).
Qed.

Lemma cow_tombstone s s' h k :
  cow_ok G s h → overlay s' = <[k := None]> (overlay s) → cow_ok G s' h.
Proof.
  intros [Hsep Hal Hap] Hs'.
  assert (Hlive : ∀ k' l, overlay s' !! k' = Some (Some l) → overlay s !! k' = Some (Some l)).
  { intros k' l. rewrite Hs'. destruct (decide (k = k')) as [<-|Hne].
    - by rewrite lookup_insert_eq.
    - by rewrite lookup_insert_ne. }
  split.
  - destruct Hsep as [Hb Hl Ha]. split; [done| |done].
    intros k' l p Hk'. apply (Hl k' l p). by apply Hlive.
  - intros k' l Hl. apply (Hal k' l). by apply Hlive.
  - intros k' l a Hl. apply (Hap k' l a). by apply Hlive.
Qed.

Lemma cow_tick s h : cow_ok G s h → cow_ok G s (time_Now h).2.
Proof. intros Hcow. eapply (cow_heap true); [done| |done]. by apply unchanged_objects. Qed.

Lemma base_array_tick h a : base_array G (time_Now h).2 a ↔ base_array G h a.
Proof. done. Qed.

Lemma Write_cow p data mode s h :
  cow_ok G s h → (∀ a, s_ptr data = Some a → ¬ base_array G h a) →
  cow_ok G (Write G p data mode s h).1.2 (Write G p data mode s h).2.
Proof.
  intros Hcow Hdata. unfold Write.
  destruct (Z.of_nat (s_len data) >? MaxFileSize)%Z; [done|].
  destruct (is_live s (path.Clean p)) as [x|] eqn:Hx.
  - cbn [fst snd time_Now]. eapply (cow_update _ (time_Now h).2 (path.Clean p));
      [by apply cow_tick|done|done].
  - destruct (BaseFS G !! path.Clean p); cbn [fst snd new_entry time_Now];
      (eapply (cow_insert s _ (time_Now h).2); [by apply cow_tick|done|reflexivity]).
Qed.

Lemma Mkdir_cow p s h : cow_ok G s h → cow_ok G (Mkdir p s h).1.2 (Mkdir p s h).2.
Proof.
  intros Hcow. unfold Mkdir. cbn [fst snd new_entry time_Now].
  eapply (cow_insert s _ (time_Now h).2); [by apply cow_tick|done|reflexivity].
Qed.

Lemma Remove_cow p s h : cow_ok G s h → cow_ok G (Remove p s h).1.2 (Remove p s h).2.
Proof. intros Hcow. unfold Remove. cbn [fst snd]. by eapply cow_tombstone. Qed.

Lemma cow_new_array s h c :
  cow_ok G s h → cow_ok G s (set_array (fresh (dom (arrays h))) c h).
Proof.
  intros Hcow. eapply (cow_heap true); [done| |done].
  apply unchanged_set_array_apart. exact (fresh_array_apart G s h (cow_sep _ _ _ Hcow)).
Qed.

Lemma find_or_create_cow wpath p off s h :
  cow_ok G s h →
  cow_ok G (find_or_create G wpath p off s h).1.2 (find_or_create G wpath p off s h).2.
Proof.
  intros Hcow. destruct (is_live s wpath) as [x|] eqn:Hx.
  - unfold find_or_create. by rewrite Hx.
  - destruct (find_or_create_fresh G wpath p off s h Hx) as (c & e & -> & He).
    cbn [fst snd].
    eapply (cow_insert s _ (time_Now (set_array (fresh (dom (arrays h))) c h)).2);
      [by apply cow_tick, cow_new_array| |reflexivity].
    intros a Ha. rewrite He in Ha. injection Ha as <-.
    intros Hbase.
    apply (unchanged_base_array G true h) in Hbase.
    + exact (fresh_array_apart G s h (cow_sep _ _ _ Hcow) Hbase).
    + apply unchanged_set_array_apart. exact (fresh_array_apart G s h (cow_sep _ _ _ Hcow)).
Qed.

(** With deep copies only, the second half of [WriteAt] writes into an
    array of the overlay. *)
Lemma write_bytes_cow entry p off s h (wpath : string) :
  cow_ok G s h → is_live s wpath = Some entry →
  cow_ok G s (write_bytes entry p off h).2 ∧
  unchanged G true h (write_bytes entry p off h).2.
Proof.
  intros Hcow Hlive. pose proof Hcow as [Hsep Hal Hap].
  assert (Hentry : ∀ q, BaseFS G !! q ≠ Some entry) by (intros q; by eapply is_live_apart).
  unfold write_bytes.
  destruct (int_add off (Z.of_nat (length p)) >? MaxFileSize)%Z;
    [split; [done|apply unchanged_refl]|].
  pose proof (grow_sep G (deref h entry) (int_add off (Z.of_nat (length p))) s h Hsep)
    as [Hg Hptr].
  pose proof (grow_objects (deref h entry) (int_add off (Z.of_nat (length p))) h) as Hgo.
  destruct (grow _ _ h) as [c0 h1]. cbn [fst snd] in Hg, Hgo, Hptr.
  assert (Hcow1 : cow_ok G s h1) by (by eapply (cow_heap true)).
  assert (Hc0 : ∀ a, s_ptr c0 = Some a → ¬ base_array G h1 a).
  { intros a Ha Hbase. apply (unchanged_base_array G true h h1) in Hbase; [|done].
    destruct (Hptr a Ha) as [Hold|Hnew]; [|done].
    by apply (Hap wpath entry a (is_live_Some _ _ _ Hlive)). }
  set (c := if (_ >? Z.of_nat (s_len c0))%Z then _ else c0).
  assert (Hc : ∀ a, s_ptr c = Some a → ¬ base_array G h1 a).
  { unfold c. destruct (_ >? _)%Z; [|done]. apply Hc0. }
  destruct (_ || _)%bool; cbn [snd].
  - split.
    + by eapply (cow_update s h1 wpath).
    + apply (unchanged_trans G true true h h1); [done|]. by apply unchanged_store.
  - set (h2 := match s_ptr c with Some a => _ | None => h1 end).
    assert (Hu2 : unchanged G true h1 h2).
    { unfold h2. destruct (s_ptr c) as [a|] eqn:Ha; [|apply unchanged_refl].
      apply unchanged_set_array_apart. by apply Hc. }
    assert (Ho2 : objects h2 = objects h1) by (unfold h2; by destruct (s_ptr c)).
    assert (Hcow2 : cow_ok G s (time_Now h2).2).
    { apply cow_tick. by eapply (cow_heap true). }
    split.
    + eapply (cow_update s (time_Now h2).2 wpath); [done..|].
      intros a Ha Hbase. apply (Hc a Ha).
      by apply (unchanged_base_array G true h1 h2).
    + apply (unchanged_trans G true true h h1); [done|].
      apply (unchanged_trans G true true h1 h2); [done|].
      apply unchanged_store; [done..|apply Hentry].
Qed.

Lemma WriteAt_cow wpath p off s h :
  cow_ok G s h →
  cow_ok G (WriteAt G wpath p off s h).1.2 (WriteAt G wpath p off s h).2 ∧
  unchanged G true h (WriteAt G wpath p off s h).2.
Proof.
  intros Hcow. unfold WriteAt.
  pose proof (find_or_create_cow wpath p off s h Hcow) as Hcow1.
  destruct (find_or_create_sep G wpath p off s h (cow_sep _ _ _ Hcow)) as [[_ Hu1] Hlive].
  destruct (find_or_create G wpath p off s h) as [[entry s1] h1]. cbn [fst snd] in *.
  destruct (write_bytes_cow entry p off s1 h1 wpath Hcow1 Hlive) as [Hcow2 Hu2].
  destruct (write_bytes entry p off h1) as [r h2]. cbn [fst snd] in *.
  split; [done|]. by apply (unchanged_trans G true true h h1).
Qed.

Lemma run_op_cow o s h :
  cow_ok G s h → copies o = true →
  cow_ok G (run_op G o (s, h)).1 (run_op G o (s, h)).2 ∧
  unchanged G true h (run_op G o (s, h)).2.
Proof.
  intros Hcow Ho.
  destruct (run_op_sep G o s h (cow_sep _ _ _ Hcow)) as [_ Hu].
  destruct o; try discriminate Ho; cbn [run_op is_WriteAt negb] in Hu |- *.
  - split; [|done]. unfold slice_of, new_array. cbn [fst snd].
    set (h1 := set_array _ c h). set (d := Build_slice _ _).
    pose proof (Write_cow p d mode s h1 (cow_new_array s h c Hcow)) as H.
    destruct (Write G p d mode s h1) as [[err s'] h']. cbn [fst snd] in H |- *.
    apply H. intros a [= <-] Hbase.
    apply (unchanged_base_array G true h) in Hbase.
    + exact (fresh_array_apart G s h (cow_sep _ _ _ Hcow) Hbase).
    + apply unchanged_set_array_apart. exact (fresh_array_apart G s h (cow_sep _ _ _ Hcow)).
  - split; [|done]. pose proof (Mkdir_cow p s h Hcow) as H.
    by destruct (Mkdir p s h) as [[err s'] h'].
  - split; [|done]. pose proof (Remove_cow p s h Hcow) as H.
    by destruct (Remove p s h) as [[err s'] h'].
  - pose proof (WriteAt_cow p c off s h Hcow) as H.
    by destruct (WriteAt G p c off s h) as [[err s'] h'].
Qed.

Lemma run_ops_cow ops s h :
  cow_ok G s h → forallb copies ops = true →
  unchanged G true h (run_ops G ops (s, h)).2.
Proof.
  revert s h. induction ops as [|o ops IH]; intros s h Hcow Hall.
  - apply unchanged_refl.
  - cbn [forallb] in Hall. apply andb_true_iff in Hall as [Ho Hall].
    change (run_ops G (o :: ops) (s, h)) with (run_ops G ops (run_op G o (s, h))).
    destruct (run_op_cow o s h Hcow Ho) as [Hcow1 Hu1].
    destruct (run_op G o (s, h)) as [s1 h1]. cbn [fst snd] in *.
    apply (unchanged_trans G true true h h1); [done|]. by apply IH.
Qed.
End deep_copies.

Lemma array_allocated_spec (h : Heap) (l a : loc) :
  array_allocated h l = true → s_ptr (Content (deref h l)) = Some a →
  a ∈ dom (arrays h).
Proof. unfold array_allocated. intros H Ha. rewrite Ha in H. by apply bool_decide_eq_true in H. Qed.

Lemma boot_sep_ok : sep_ok (globals boot) NewSessionFS (heap boot).
Proof.
  split.
  - intros p l Hl.
    apply (map_Forall_lookup_1 (λ _ l, l ∈ dom (objects (heap boot))) (BaseFS (globals boot)) p l);
      [|exact Hl].
    compute_done.
  - intros k l p H. change (overlay NewSessionFS) with (∅ : gmap string (option loc)) in H.
    rewrite lookup_empty in H. discriminate H.
  - intros a (p & l & Hl & Ha).
    apply (array_allocated_spec (heap boot) l a); [|exact Ha].
    apply (map_Forall_lookup_1 (λ _ l, array_allocated (heap boot) l = true)
             (BaseFS (globals boot)) p l); [|exact Hl].
    compute_done.
Qed.

(** A new session has made no copy yet. *)
Lemma cow_ok_new (G : Globals) (h : Heap) : sep_ok G NewSessionFS h → cow_ok G NewSessionFS h.
Proof.
  intros Hsep. split; [done|..]; intros k l;
    change (overlay NewSessionFS) with (∅ : gmap string (option loc));
    rewrite lookup_empty; discriminate.
Qed.

Lemma boot_cow_ok : cow_ok (globals boot) NewSessionFS (heap boot).
Proof. apply cow_ok_new, boot_sep_ok. Qed.

(** No operation of a session, [WriteAt] included, changes a field of a
    [FileEntry] of [BaseFS]: the name, the mode, the owner, the time, or the
    slice header of the content. *)
Theorem BaseFS_entries_never_change (G : Globals) (s : SessionFS) (h : Heap)
    (ops : list op) (p : string) (l : loc) :
  sep_ok G s h → BaseFS G !! p = Some l →
  deref (run_ops G ops (s, h)).2 l = deref h l.
Proof.
  intros Hok Hl. destruct (run_ops_sep G ops s h Hok) as [_ Hu].
  eapply unchanged_deref; [exact Hu|exact Hl].
Qed.

Lemma BaseFS_entries_never_change_witness :
  let G := globals boot in
  deref (run_ops G [OpChmod "/etc/hosts" (perm "600");
                    OpWriteAt "/etc/hosts" (to_bytes "X") 0;
                    OpRename "/etc/hosts" "/tmp/h"]
                 (NewSessionFS, heap boot)).2 44 = deref (heap boot) 44.
Proof.
  intros G. apply (BaseFS_entries_never_change G NewSessionFS (heap boot) _ "/etc/hosts" 44).
  - apply boot_sep_ok.
  - vm_compute; reflexivity.
Defined.

(** Without [WriteAt], the bytes of the [BaseFS] entries stay too: [Write],
    [cp], [Mkdir], [Remove], [Rename], [Chmod] and [Chown] write no array
    that exists. *)
Theorem BaseFS_bytes_kept_without_WriteAt (G : Globals) (s : SessionFS) (h : Heap)
    (ops : list op) (p : string) (l : loc) :
  sep_ok G s h → forallb (λ o, negb (is_WriteAt o)) ops = true →
  BaseFS G !! p = Some l →
  content (run_ops G ops (s, h)).2 l = content h l.
Proof.
  intros Hok Hops Hl. destruct (run_ops_sep G ops s h Hok) as [_ Hu].
  rewrite Hops in Hu. apply (unchanged_content G h _ p l); [|done..].
  apply (base_arrays_alloc _ _ _ Hok).
Qed.

Lemma BaseFS_bytes_kept_without_WriteAt_witness :
  let G := globals boot in
  content (run_ops G [OpChmod "/etc/hosts" (perm "600");
                      OpWrite "/etc/hosts" (to_bytes "X") 0;
                      OpRename "/etc/hosts" "/tmp/h";
                      OpCopy "/tmp/h" "/etc/hosts"]
                   (NewSessionFS, heap boot)).2 44 = content (heap boot) 44.
Proof.
  intros G.
  apply (BaseFS_bytes_kept_without_WriteAt G NewSessionFS (heap boot) _ "/etc/hosts" 44).
  - apply boot_sep_ok.
  - reflexivity.
  - vm_compute; reflexivity.
Defined.

(** [WriteAt] itself is safe as long as every overlay entry has an array
    of its own, and [Write], [Mkdir], [Remove] and [WriteAt] keep it so: in a
    session that does nothing else, the bytes of [BaseFS] stay. *)
Theorem BaseFS_bytes_kept_by_deep_copies (G : Globals) (s : SessionFS) (h : Heap)
    (ops : list op) (p : string) (l : loc) :
  cow_ok G s h → forallb copies ops = true →
  BaseFS G !! p = Some l →
  content (run_ops G ops (s, h)).2 l = content h l.
Proof.
  intros Hcow Hops Hl. apply (unchanged_content G h _ p l); [|by apply run_ops_cow|done].
  apply (base_arrays_alloc _ _ _ (cow_sep _ _ _ Hcow)).
Qed.

Lemma BaseFS_bytes_kept_by_deep_copies_witness :
  let G := globals boot in
  content (run_ops G [OpWriteAt "/etc/hosts" (to_bytes "X") 0;
                      OpWrite "/etc/hosts" (to_bytes "Y") 0;
                      OpWriteAt "/etc/hosts" (to_bytes "Z") 1;
                      OpRemove "/etc/hosts";
                      OpWriteAt "/etc/hosts" (to_bytes "Z") 1]
                   (NewSessionFS, heap boot)).2 44 = content (heap boot) 44.
Proof.
  intros G.
  apply (BaseFS_bytes_kept_by_deep_copies G NewSessionFS (heap boot) _ "/etc/hosts" 44).
  - apply boot_cow_ok.
  - reflexivity.
  - vm_compute; reflexivity.
Defined.

(** ** [Abs] and the paths the shell hands to the filesystem *)

Section abs_facts.
Implicit Types (p c : string) (cs : list string) (s : SessionFS).

Lemma rooted_cons p : path.rooted p = true ↔ ∃ r, p = String "/" r.
Proof.
  unfold path.rooted, strs.HasPrefix. split.
  - destruct p as [|a r]; [done|]. cbn [String.prefix].
    destruct (Ascii.ascii_dec "/" a) as [<-|]; [|done]. by exists r.
  - intros [r ->]. cbn [String.prefix].
    destruct (Ascii.ascii_dec "/" "/"); [|done]. by destruct r.
Qed.

Lemma rooted_app p q : path.rooted p = true → path.rooted (p +:+ q) = true.
Proof. intros [r ->]%rooted_cons. apply rooted_cons. by exists (r +:+ q). Qed.

(** [Clean] of a rooted path is a normalized absolute path. *)
Lemma Clean_rooted p : path.rooted p = true → abs_clean (path.Clean p).
Proof.
  intros Hr. unfold path.Clean. rewrite Hr.
  change (path.render true ?cs) with (of_elems cs).
  apply of_elems_abs_clean, norm_rooted_good; [apply Split_no_sep|constructor].
Qed.

Lemma abs_clean_Clean p : abs_clean p → abs_clean (path.Clean p).
Proof. intros [Hr Hc]. by rewrite Hc. Qed.

Lemma Join2 a b :
  a ≠ "" → path.Join [a; b] = path.Clean (if String.eqb b "" then a else a +:+ "/" +:+ b).
Proof.
  intros Ha. unfold path.Join. simpl.
  destruct (String.eqb_spec a ""); [done|]. simpl.
  by destruct (String.eqb_spec b "").
Qed.

Lemma Join_rooted a b : path.rooted a = true → abs_clean (path.Join [a; b]).
Proof.
  intros Hr. rewrite Join2 by (by intros ->).
  apply Clean_rooted. destruct (String.eqb b ""); [done|]. by apply rooted_app.
Qed.

Lemma abs_clean_root : abs_clean "/root".
Proof. split; reflexivity. Qed.
End abs_facts.

(** Whatever the argument, [Abs] gives a normalized absolute path, as long
    as the working directory is one. *)
Theorem Abs_is_normalized (s : SessionFS) (p : string) :
  abs_clean (cwd s) → abs_clean (Abs s p).
Proof.
  intros Hcwd. unfold Abs.
  destruct (String.eqb p ""); [done|].
  destruct (String.eqb p "~"); [apply abs_clean_root|].
  destruct (strs.HasPrefix p "~/"); [by apply Join_rooted|].
  destruct (strs.HasPrefix p "/") eqn:Hp; cbn [negb].
  - by apply Clean_rooted.
  - apply abs_clean_Clean, Join_rooted, Hcwd.
Qed.

Lemma Abs_is_normalized_witness :
  abs_clean (Abs NewSessionFS "../etc/./ssh//../hosts") ∧
  Abs NewSessionFS "../etc/./ssh//../hosts" = "/etc/hosts".
Proof.
  split; [|reflexivity].
  apply (Abs_is_normalized NewSessionFS "../etc/./ssh//../hosts"). split; reflexivity.
Defined.

(** ** The shell keeps the invariant of the filesystem *)

Section calm_facts.
Implicit Types (st : cst).

Lemma calm_refl st : calm st st.
Proof. by split. Qed.

Lemma calm_trans st1 st2 st3 : calm st1 st2 → calm st2 st3 → calm st1 st3.
Proof.
  intros [H1 H2 H3 H4 H5] [H1' H2' H3' H4' H5'].
  split; congruence.
Qed.

Lemma calm_print text st : calm st (print text st).
Proof. by split. Qed.

Lemma calm_set_exit code st : calm st (set_exit code st).
Proof. by split. Qed.

Lemma calm_set_env env st : calm st (set_env env st).
Proof. by split. Qed.

Lemma calm_stop_running st : calm st (stop_running st).
Proof. by split. Qed.

Lemma calm_crash why st : calm st (crash why st).
Proof. by split. Qed.

Lemma calm_read_clock st : calm st (read_clock st).2.
Proof. by split. Qed.

Lemma calm_foldl {A} (f : cst → A → cst) (l : list A) st :
  (∀ st x, calm st (f st x)) → calm st (foldl f st l).
Proof.
  intros Hf. revert st. induction l as [|x l IH]; intros st; [apply calm_refl|].
  simpl. eapply calm_trans; [apply Hf|apply IH].
Qed.

Lemma calm_the_fs st st' : calm st st' → the_fs st' = the_fs st.
Proof. intros [_ H2 _ _ H5]. unfold the_fs, fs_at. by rewrite H2, H5. Qed.

Lemma calm_term_ok st st' : calm st st' → term_ok st → term_ok st'.
Proof.
  intros Hc [[[Hk Hn] Hb] Hcwd]. pose proof (calm_the_fs _ _ Hc) as Hfs.
  destruct Hc as [H1 H2 H3 H4 H5].
  unfold term_ok, shell_ok, the_fs in *. rewrite Hfs, H1.
  assert (Hd : ∀ l, deref (heap (c_world st')) l = deref (heap (c_world st)) l)
    by (intros l; unfold deref; by rewrite H3).
  split; [|done]. split; [split; [done|]|].
  - intros k l Hl. rewrite Hd. by apply Hn.
  - intros p l Hl. rewrite Hd. by apply Hb.
Qed.
End calm_facts.

Ltac calm_step :=
  first
    [ apply calm_refl
    | apply calm_read_clock
    | eapply calm_trans; [|apply calm_print]
    | eapply calm_trans; [|apply calm_set_exit]
    | eapply calm_trans; [|apply calm_set_env]
    | eapply calm_trans; [|apply calm_stop_running]
    | eapply calm_trans; [|apply calm_crash]
    | match goal with
      | H : calm ?a ?b |- calm _ ?b => eapply calm_trans; [|exact H]
      end ].

(** Name the result of every [read_clock] in the goal. *)
Ltac calm_clocks :=
  repeat match goal with
         | |- context [read_clock ?x] =>
             let H := fresh "Hclock" in
             pose proof (calm_read_clock x) as H;
             destruct (read_clock x); cbn [snd] in H
         end.

Section calm_commands.
Implicit Types (st : cst) (args : list string).

Lemma calm_ls_one cmd flags useColor st p : calm st (ls_one cmd flags useColor st p).
Proof.
  unfold ls_one. destruct (ListDir _ _ _ _); [|by repeat calm_step].
  destruct (ls_flag cmd flags "l"); by repeat calm_step.
Qed.

Lemma calm_cmd_ls cmd args useColor st : calm st (cmd_ls cmd args useColor st).
Proof. unfold cmd_ls. apply calm_foldl. intros. apply calm_ls_one. Qed.

Lemma calm_cat_one st f : calm st (cat_one st f).
Proof.
  unfold cat_one. repeat case_match; by repeat calm_step.
Qed.

Lemma calm_cmd_cat args stdin st : calm st (cmd_cat args stdin st).
Proof.
  unfold cmd_cat. destruct args as [|? [|? ?]]; try by repeat calm_step.
  apply calm_foldl. intros. apply calm_cat_one.
Qed.

Lemma calm_doGrep pattern many useColor lines fname st :
  calm st (doGrep pattern many useColor lines fname st).
Proof.
  unfold doGrep. apply calm_foldl. intros st' line.
  destruct (strs.Contains line pattern); by repeat calm_step.
Qed.

Lemma calm_cmd_grep args stdin useColor st : calm st (cmd_grep args stdin useColor st).
Proof.
  unfold cmd_grep. destruct args as [|? [|pattern files]]; try apply calm_refl.
  destruct (if strs.HasPrefix pattern "-" then _ else _) as [pat fs].
  destruct fs as [|f fs]; [apply calm_doGrep|].
  apply calm_foldl. intros st' f'.
  destruct (get st' _) as [e|]; [|by repeat calm_step].
  destruct (negb (IsDir e)); [apply calm_doGrep|by repeat calm_step].
Qed.

Lemma calm_cmd_ps st : calm st (cmd_ps st).
Proof. unfold cmd_ps. calm_clocks. by repeat calm_step. Qed.

Lemma calm_cmd_id st : calm st (cmd_id st).
Proof. unfold cmd_id. by repeat calm_step. Qed.

Lemma calm_cmd_uptime st : calm st (cmd_uptime st).
Proof. unfold cmd_uptime. calm_clocks. by repeat calm_step. Qed.

Lemma calm_cmd_wget cmd args st : calm st (cmd_wget cmd args st).
Proof.
  unfold cmd_wget. destruct args as [|? [|? ?]]; try by repeat calm_step.
  destruct (String.eqb cmd "wget"); [|by repeat calm_step].
  calm_clocks. destruct (strs.Split _ _) as [|? [|? [|? ?]]]; by repeat calm_step.
Qed.

Lemma calm_cmd_chown args st : calm st (cmd_chown args st).
Proof. unfold cmd_chown. destruct (_ <? _)%nat; by repeat calm_step. Qed.

Lemma calm_println_all lines st : calm st (println_all lines st).
Proof. unfold println_all. apply calm_foldl. intros. by repeat calm_step. Qed.

Lemma calm_printLines text isHead limit st : calm st (printLines text isHead limit st).
Proof.
  unfold printLines. destruct (if isHead then _ else _). apply calm_println_all.
Qed.

Lemma calm_cmd_head cmd args stdin st : calm st (cmd_head cmd args stdin st).
Proof.
  unfold cmd_head. destruct (head_args _ _ _) as [limit files].
  destruct files as [|f files].
  - destruct (String.eqb cmd "head"); apply calm_println_all.
  - apply calm_foldl. intros st' f'.
    set (st1 := if (1 <? _)%nat then _ else st').
    assert (H1 : calm st' st1) by (unfold st1; destruct (1 <? _)%nat; by repeat calm_step).
    eapply calm_trans; [exact H1|].
    destruct (get st1 _); [apply calm_printLines|apply calm_refl].
Qed.

Lemma calm_cmd_wc args stdin st : calm st (cmd_wc args stdin st).
Proof.
  unfold cmd_wc.
  assert (H : calm st (foldl (λ st f,
      match get st (Abs (the_fs st) f) with
      | Some e => print (strconv.Itoa (handleWc (bytes_of st e)) +:+ " " +:+ f +:+ nl) st
      | None => st
      end) st (List.tl args))).
  { apply calm_foldl. intros st' f. destruct (get st' _); by repeat calm_step. }
  destruct args as [|? [|? ?]]; [done|by repeat calm_step|done].
Qed.

Lemma calm_cmd_ping args st : calm st (cmd_ping args st).
Proof.
  unfold cmd_ping. destruct args as [|? [|? ?]]; by repeat calm_step.
Qed.

Lemma calm_cmd_history st : calm st (cmd_history st).
Proof.
  unfold cmd_history. apply calm_foldl. intros st' [i hline]. by repeat calm_step.
Qed.

Lemma calm_cmd_export args st : calm st (cmd_export args st).
Proof.
  unfold cmd_export.
  assert (H : calm st (foldl (λ st kv,
      match strs.SplitN2 kv "=" with
      | [k; v] => set_env (<[k := v]> (Env (c_term st))) st
      | _ => st
      end) st (List.tl args))).
  { apply calm_foldl. intros st' kv. repeat case_match; by repeat calm_step. }
  destruct args as [|? [|? ?]]; [done| |done].
  apply calm_foldl. intros st' [k v]. by repeat calm_step.
Qed.
End calm_commands.

Section shell_invariant.
Implicit Types (st : cst) (args : list string) (s : SessionFS) (h : Heap).

Lemma cwd_Write G p data mode s h : cwd (Write G p data mode s h).1.2 = cwd s.
Proof.
  unfold Write. destruct (_ >? _)%Z; [done|].
  destruct (is_live s _); [done|]. by destruct (BaseFS G !! _).
Qed.

Lemma cwd_Rename G a b s h : cwd (Rename G a b s h).1.2 = cwd s.
Proof. unfold Rename. by destruct (GetEntry G s a). Qed.

Lemma cwd_Chmod G p mode s h : cwd (Chmod G p mode s h).1.2 = cwd s.
Proof. unfold Chmod. destruct (GetEntry G s p); [|done]. by destruct (is_live s p). Qed.

Lemma term_ok_calm st st' : term_ok st → calm st st' → term_ok st'.
Proof. intros H Hc. by eapply calm_term_ok. Qed.

(** A method of the session filesystem, called through [t.FS], that keeps
    the invariant and the working directory. *)
Lemma term_ok_call (m : SessionFS → Heap → option error * SessionFS * Heap) st :
  term_ok st →
  (fs_ok (the_globals st) (the_fs st) (the_heap st) →
   fs_ok (the_globals st) (m (the_fs st) (the_heap st)).1.2 (m (the_fs st) (the_heap st)).2) →
  cwd (m (the_fs st) (the_heap st)).1.2 = cwd (the_fs st) →
  term_ok (call m st).2.
Proof.
  intros [Hfs Hcwd] Hm Hc. unfold call.
  fold (the_fs st) (the_heap st) (the_globals st) in Hfs, Hcwd.
  specialize (Hm Hfs).
  destruct (m (the_fs st) (the_heap st)) as [[err s'] h']. cbn [fst snd] in *.
  unfold term_ok, shell_ok. cbn [c_term c_world set_world]. rewrite fs_at_put.
  cbn [put globals heap]. split; [done|]. by rewrite Hc.
Qed.

Lemma term_ok_Abs st p : term_ok st → abs_clean (Abs (the_fs st) p).
Proof. intros [_ Hcwd]. by apply Abs_is_normalized. Qed.

Lemma term_ok_foldl {A} (f : cst → A → cst) (l : list A) st :
  (∀ st x, term_ok st → term_ok (f st x)) → term_ok st → term_ok (foldl f st l).
Proof.
  intros Hf. revert st. induction l as [|x l IH]; intros st Hst; [done|].
  simpl. by apply IH, Hf.
Qed.

Lemma term_ok_cd args st : term_ok st → term_ok (cmd_cd args st).
Proof.
  intros Hst. pose proof Hst as [[Hov Hb] Hcwd].
  assert (Hset : ∀ d, abs_clean d →
    term_ok (set_world (put (FS (c_term st)) (set_cwd (the_fs st) d, the_heap st)
                            (c_world st)) st)).
  { intros d Hd. unfold term_ok, shell_ok. cbn [c_term c_world set_world].
    rewrite fs_at_put. cbn [put globals heap set_cwd cwd fst snd]. split; [|done].
    split; [|done]. by destruct Hov. }
  unfold cmd_cd. destruct args as [|? [|a1 ?]]; try apply Hset, abs_clean_root.
  destruct (get st _) as [e|]; [|by eapply term_ok_calm; [|repeat calm_step]].
  destruct (IsDir e); [|by eapply term_ok_calm; [|repeat calm_step]].
  by apply Hset, term_ok_Abs.
Qed.

Lemma abs_clean_rooted p : abs_clean p → path.rooted p = true.
Proof. by intros []. Qed.

Lemma term_ok_cp args st : term_ok st → term_ok (cmd_cp args st).
Proof.
  intros Hst. unfold cmd_cp. destruct args as [|? [|a1 [|a2 ?]]]; try done.
  destruct (get st (Abs (the_fs st) a1)) as [e|];
    [|by eapply term_ok_calm; [|repeat calm_step]].
  destruct (IsDir e); [by eapply term_ok_calm; [|repeat calm_step]|].
  set (dst := match get st _ with Some d => _ | None => _ end).
  assert (Hdst : abs_clean dst).
  { unfold dst. destruct (get st _) as [d|]; [|by apply term_ok_Abs].
    destruct (IsDir d); [|by apply term_ok_Abs].
    by apply Join_rooted, abs_clean_rooted, term_ok_Abs. }
  apply term_ok_call; [done| |apply cwd_Write].
  intros Hfs. by apply Write_ok.
Qed.

Lemma term_ok_mv args st : term_ok st → term_ok (cmd_mv args st).
Proof.
  intros Hst. unfold cmd_mv. destruct args as [|? [|a1 [|a2 ?]]]; try done.
  set (dst := match get st _ with Some d => _ | None => _ end).
  assert (Hdst : abs_clean dst).
  { unfold dst. destruct (get st _) as [d|]; [|by apply term_ok_Abs].
    destruct (IsDir d); [|by apply term_ok_Abs].
    by apply Join_rooted, abs_clean_rooted, term_ok_Abs. }
  pose proof (term_ok_call (Rename (the_globals st) (Abs (the_fs st) a1) dst) st Hst) as H.
  destruct (call _ st) as [[err|] st']; cbn [snd] in H.
  - eapply term_ok_calm; [|repeat calm_step].
    apply H; [|apply cwd_Rename]. intros Hfs. apply Rename_ok; [done| |done].
    by apply term_ok_Abs.
  - apply H; [|apply cwd_Rename]. intros Hfs. apply Rename_ok; [done| |done].
    by apply term_ok_Abs.
Qed.

Lemma term_ok_mkdir args st : term_ok st → term_ok (cmd_mkdir args st).
Proof.
  unfold cmd_mkdir. apply term_ok_foldl. intros st' d Hst.
  destruct (negb _); [|done].
  apply term_ok_call; [done| |done].
  intros Hfs. apply Mkdir_ok; [done|]. by apply term_ok_Abs.
Qed.

Lemma term_ok_rm args st : term_ok st → term_ok (cmd_rm args st).
Proof.
  unfold cmd_rm. apply term_ok_foldl. intros st' f Hst.
  destruct (negb _); [|done].
  destruct (get st' _); [|by eapply term_ok_calm; [|repeat calm_step]].
  apply term_ok_call; [done| |done].
  intros Hfs. apply Remove_ok; [done|]. by apply term_ok_Abs.
Qed.

Lemma term_ok_write_fresh p data mode st :
  term_ok st → abs_clean p → term_ok (write_fresh p data mode st).2.
Proof.
  intros Hst Hp. unfold write_fresh. apply term_ok_call; [done| |].
  - intros Hfs. unfold slice_of, new_array. cbn [fst snd].
    apply Write_ok; [|done]. eapply fs_ok_grows; [done|]. by apply grows_same_objects.
  - unfold slice_of, new_array. cbn [fst snd]. apply cwd_Write.
Qed.

Lemma term_ok_touch args st : term_ok st → term_ok (cmd_touch args st).
Proof.
  unfold cmd_touch. apply term_ok_foldl. intros st' f Hst.
  destruct (get st' _); [done|].
  apply term_ok_write_fresh; [done|]. by apply term_ok_Abs.
Qed.

Lemma term_ok_chmod args st : term_ok st → term_ok (cmd_chmod args st).
Proof.
  intros Hst. unfold cmd_chmod. destruct args as [|? [|a1 [|f files]]]; try done.
  destruct (strconv.ParseInt_8_32 a1) as [m [|]];
    [|by eapply term_ok_calm; [|repeat calm_step]].
  apply term_ok_foldl; [|done]. intros st' f' Hst'.
  apply term_ok_call; [done| |apply cwd_Chmod].
  intros Hfs. apply Chmod_ok; [done|]. by apply term_ok_Abs.
Qed.
End shell_invariant.

Ltac calm_cmd :=
  lazymatch goal with
  | |- calm _ (cmd_ls _ _ _ _) => apply calm_cmd_ls
  | |- calm _ (cmd_cat _ _ _) => apply calm_cmd_cat
  | |- calm _ (cmd_grep _ _ _ _) => apply calm_cmd_grep
  | |- calm _ (cmd_ps _) => apply calm_cmd_ps
  | |- calm _ (cmd_id _) => apply calm_cmd_id
  | |- calm _ (cmd_uptime _) => apply calm_cmd_uptime
  | |- calm _ (cmd_wget _ _ _) => apply calm_cmd_wget
  | |- calm _ (cmd_chown _ _) => apply calm_cmd_chown
  | |- calm _ (cmd_head _ _ _ _) => apply calm_cmd_head
  | |- calm _ (cmd_wc _ _ _) => apply calm_cmd_wc
  | |- calm _ (cmd_ping _ _) => apply calm_cmd_ping
  | |- calm _ (cmd_history _) => apply calm_cmd_history
  | |- calm _ (cmd_export _ _) => apply calm_cmd_export
  | |- _ => calm_clocks; solve [repeat calm_step]
  end.

Ltac term_ok_cmd :=
  lazymatch goal with
  | |- term_ok (cmd_cd _ _) => apply term_ok_cd; assumption
  | |- term_ok (cmd_cp _ _) => apply term_ok_cp; assumption
  | |- term_ok (cmd_mv _ _) => apply term_ok_mv; assumption
  | |- term_ok (cmd_mkdir _ _) => apply term_ok_mkdir; assumption
  | |- term_ok (cmd_rm _ _) => apply term_ok_rm; assumption
  | |- term_ok (cmd_touch _ _) => apply term_ok_touch; assumption
  | |- term_ok (cmd_chmod _ _) => apply term_ok_chmod; assumption
  | |- _ => first [assumption | eapply term_ok_calm; [eassumption|calm_cmd]]
  end.

(** Every command of the shell keeps the invariant. *)
Lemma term_ok_runCommand_fuel n args stdin out st :
  term_ok st → term_ok (runCommand_fuel n args stdin out st).
Proof.
  revert args st. induction n as [|n IH]; intros args st Hst; [done|].
  destruct args as [|cmd rest]; [done|].
  cbn [runCommand_fuel]. cbv zeta.
  repeat match goal with
         | |- term_ok (if ?b then _ else _) => destruct b; [try term_ok_cmd|]
         end; try term_ok_cmd.
  - destruct (expand_args _ _) as [|? [|a1 ?]]; try term_ok_cmd.
    destruct (String.eqb a1 "-a"); term_ok_cmd.
  - destruct (expand_args _ _) as [|? [|? ?]]; try term_ok_cmd. by apply IH.
  - destruct (expand_args (c_term st) (cmd :: rest)) as [|? [|? ?]]; term_ok_cmd.
Qed.

Lemma term_ok_runCommand args stdin out st :
  term_ok st → term_ok (runCommand args stdin out st).
Proof. apply term_ok_runCommand_fuel. Qed.

Lemma term_ok_run_stage args stdin out st :
  term_ok st → term_ok (run_stage args stdin out st).2.
Proof.
  intros Hst. unfold run_stage. destruct (c_crash st); [done|]. cbn [snd].
  apply (term_ok_runCommand args stdin out
           {| c_out := ""; c_term := c_term st; c_world := c_world st; c_crash := None |}).
  exact Hst.
Qed.

Lemma term_ok_run_stages commands stdin finalOut st :
  term_ok st → term_ok (run_stages commands stdin finalOut st).
Proof.
  revert stdin st. induction commands as [|args [|args' rest] IH]; intros stdin st Hst; [done|..].
  - cbn [run_stages]. pose proof (term_ok_run_stage args stdin finalOut st Hst) as H.
    destruct (run_stage args stdin finalOut st) as [o st']. exact H.
  - change (run_stages (args :: args' :: rest) stdin finalOut st)
      with (let '(o, st) := run_stage args stdin PipeWriter st in
            run_stages (args' :: rest) o finalOut st).
    pose proof (term_ok_run_stage args stdin PipeWriter st Hst) as H.
    destruct (run_stage args stdin PipeWriter st) as [o st']. by apply IH.
Qed.

Lemma term_ok_runPipelineWithOutput pipeline finalOut st :
  term_ok st → term_ok (runPipelineWithOutput pipeline finalOut st).
Proof.
  intros Hst. unfold runPipelineWithOutput.
  destruct (List.filter _ _) as [|args [|args' rest]]; [done|..].
  - by apply term_ok_runCommand.
  - by apply term_ok_run_stages.
Qed.

(** The invariant of the shell, across a command line: pipelines and
    redirections included, every path that reaches the filesystem has gone
    through [Abs]. *)
Theorem Exec_keeps_invariant (cmdline : string) (t : Terminal) (w : World) :
  shell_ok t w → shell_ok (Exec cmdline t w).1.1 (Exec cmdline t w).1.2.
Proof.
  intros Hok. unfold Exec, execPipeline.
  set (st0 := set_exit 0 _).
  assert (Hst0 : term_ok st0) by exact Hok.
  destruct (find_redirect _ _) as [[args target]|].
  - pose proof (term_ok_runPipelineWithOutput
                  (strs.Split (strs.Join args " ") "|") Buffer st0 Hst0) as H1.
    set (st1 := runPipelineWithOutput _ _ st0) in *.
    destruct (c_crash st1); [exact H1|]. cbn [fst snd].
    apply (term_ok_write_fresh _ _ _ st1 H1). by apply term_ok_Abs.
  - pose proof (term_ok_runPipelineWithOutput
                  (strs.Split cmdline "|") CRLFWriter st0 Hst0) as H1.
    exact H1.
Qed.

(** The name is not one of the read-only commands: a contradiction. *)
Ltac not_read_only E Hb :=
  exfalso;
  first
    [ apply String.eqb_eq in E; subst; vm_compute in Hb; discriminate Hb
    | apply orb_true_iff in E as [E|E]; apply String.eqb_eq in E; subst;
      vm_compute in Hb; discriminate Hb ].

Lemma calm_runCommand_read_only cmd rest stdin out st :
  cmd ∈ read_only → calm st (runCommand (cmd :: rest) stdin out st).
Proof.
  intros Hcmd.
  assert (Hb : bool_decide (cmd ∈ read_only) = true) by (by apply bool_decide_eq_true).
  clear Hcmd. unfold runCommand. cbn [length runCommand_fuel]. cbv zeta.
  repeat match goal with
         | |- calm _ (if ?b then _ else _) =>
             let E := fresh "E" in
             destruct b eqn:E; [first [by calm_cmd | not_read_only E Hb | idtac]|clear E]
         end; try (by calm_cmd).
  - destruct (expand_args _ _) as [|? [|a1 ?]]; try (by calm_cmd).
    destruct (String.eqb a1 "-a"); by calm_cmd.
  - destruct (expand_args (c_term st) (cmd :: rest)) as [|? [|? ?]]; by calm_cmd.
Qed.

(** The commands that only look and print change no file: the overlay,
    the working directory, the objects and the arrays are as before. *)
Theorem read_only_commands_change_no_file
    (cmd : string) (rest : list string) (stdin : string) (out : writer) (st : cst) :
  cmd ∈ read_only →
  the_fs (runCommand (cmd :: rest) stdin out st) = the_fs st ∧
  objects (the_heap (runCommand (cmd :: rest) stdin out st)) = objects (the_heap st) ∧
  arrays (the_heap (runCommand (cmd :: rest) stdin out st)) = arrays (the_heap st).
Proof.
  intros Hcmd. pose proof (calm_runCommand_read_only cmd rest stdin out st Hcmd) as Hc.
  split; [by apply calm_the_fs|]. by destruct Hc.
Qed.

Lemma fs_at_boot : fs_at boot (GlobalSessionFS (globals boot)) = NewSessionFS.
Proof. vm_compute. reflexivity. Qed.

(** The shell of every login on the new process satisfies the invariant. *)
Lemma boot_shell_ok (t : Terminal) : logged_in boot t → shell_ok t boot.
Proof.
  intros Ht%logged_in_FS. unfold shell_ok. rewrite Ht, fs_at_boot.
  split; [apply boot_fs_ok|apply abs_clean_root].
Qed.

Lemma Exec_keeps_invariant_witness :
  let t := handleSSHConn_shell boot ssh_env 80 24 in
  shell_ok (Exec "cat /etc/passwd | grep root > ../tmp/./x" t boot).1.1
           (Exec "cat /etc/passwd | grep root > ../tmp/./x" t boot).1.2.
Proof.
  intros t. apply (Exec_keeps_invariant "cat /etc/passwd | grep root > ../tmp/./x" t boot).
  apply boot_shell_ok. apply ssh_login.
Defined.

Lemma read_only_commands_change_no_file_witness :
  let st := session (handleSSHConn_shell boot ssh_env 80 24) boot in
  the_fs (runCommand ["grep"; "root"; "/etc/passwd"] "" CRLFWriter st) = the_fs st ∧
  objects (the_heap (runCommand ["grep"; "root"; "/etc/passwd"] "" CRLFWriter st))
    = objects (the_heap st) ∧
  arrays (the_heap (runCommand ["grep"; "root"; "/etc/passwd"] "" CRLFWriter st))
    = arrays (the_heap st).
Proof.
  intros st.
  apply (read_only_commands_change_no_file "grep" ["root"; "/etc/passwd"] "" CRLFWriter st).
  apply (bool_decide_unpack _). vm_compute. exact I.
Defined.

(** ** Laws of the filesystem operations *)

Section fs_laws.
Context (G : Globals).
Implicit Types (s : SessionFS) (h : Heap) (p q k : string) (l : loc).

Lemma overlay_Write p data mode s h k :
  k ≠ path.Clean p → overlay (Write G p data mode s h).1.2 !! k = overlay s !! k.
Proof.
  intros Hk. unfold Write. destruct (_ >? _)%Z; [done|].
  destruct (is_live s _); [done|].
  destruct (BaseFS G !! _); cbn [fst snd new_entry time_Now set_overlay overlay];
    by rewrite lookup_insert_ne.
Qed.

Lemma overlay_find_or_create wpath c off s h k :
  k ≠ wpath → overlay (find_or_create G wpath c off s h).1.2 !! k = overlay s !! k.
Proof.
  intros Hk. unfold find_or_create. destruct (is_live s _); [done|].
  unfold make_slice, new_array. cbn [fst snd new_entry time_Now set_overlay overlay].
  by rewrite lookup_insert_ne.
Qed.

Lemma overlay_run_op o s h k :
  k ∉ touched o → overlay (run_op G o (s, h)).1 !! k = overlay s !! k.
Proof.
  intros Hk. destruct o; cbn [run_op touched] in *.
  - unfold slice_of, new_array. cbn [fst snd].
    match goal with |- context [Write G p ?d mode s ?h1] =>
      pose proof (overlay_Write p d mode s h1 k) as H;
      destruct (Write G p d mode s h1) as [[err s'] h'] end.
    apply H. set_solver.
  - destruct (GetEntry G s src) as [e|]; [|done].
    pose proof (overlay_Write dst (Content (deref h e)) (Mode (deref h e)) s h k) as H.
    destruct (Write G dst _ _ s h) as [[err s'] h']. apply H. set_solver.
  - unfold Mkdir. cbn [fst snd new_entry time_Now set_overlay overlay].
    rewrite lookup_insert_ne; [done|set_solver].
  - unfold Remove. cbn [fst snd set_overlay overlay].
    rewrite lookup_insert_ne; [done|set_solver].
  - unfold Rename. destruct (GetEntry G s a); [|done].
    cbn [fst snd new_entry time_Now set_overlay overlay].
    rewrite !lookup_insert_ne; [done|set_solver..].
  - unfold Chmod. destruct (GetEntry G s p); [|done]. destruct (is_live s p); [done|].
    cbn [fst snd new_entry time_Now set_overlay overlay].
    rewrite lookup_insert_ne; [done|set_solver].
  - unfold Chown. destruct (GetEntry G s p); [|done]. destruct (is_live s p); [done|].
    cbn [fst snd new_entry time_Now set_overlay overlay].
    rewrite lookup_insert_ne; [done|set_solver].
  - unfold WriteAt.
    pose proof (overlay_find_or_create p c off s h k) as H.
    destruct (find_or_create G p c off s h) as [[entry s1] h1].
    destruct (write_bytes entry c off h1) as [r h2]. apply H. set_solver.
Qed.
End fs_laws.

(** An operation on one path leaves the lookup of every other path as it
    was: [GetEntry] finds the same entry object, or nothing, as before. *)
Theorem GetEntry_of_another_path (G : Globals) (o : op) (s : SessionFS) (h : Heap) (q : string) :
  path.Clean q ∉ touched o →
  GetEntry G (run_op G o (s, h)).1 q = GetEntry G s q.
Proof. intros Hq. unfold GetEntry. by rewrite overlay_run_op. Qed.

Lemma GetEntry_of_another_path_witness :
  let G := globals boot in
  GetEntry G (run_op G (OpRename "/etc/hosts" "/tmp/h") (NewSessionFS, heap boot)).1
           "/etc/./passwd"
  = GetEntry G NewSessionFS "/etc/./passwd".
Proof.
  intros G.
  apply (GetEntry_of_another_path G (OpRename "/etc/hosts" "/tmp/h") NewSessionFS (heap boot)).
  apply (bool_decide_unpack _). vm_compute. exact I.
Defined.

(** [Remove] never fails, whether the path exists or not, and the path is
    gone afterwards, also when [BaseFS] has it; the heap is as before. *)
Theorem Remove_hides_the_path (G : Globals) (p : string) (s : SessionFS) (h : Heap) :
  (Remove p s h).1.1 = None ∧
  GetEntry G (Remove p s h).1.2 p = None ∧
  (Remove p s h).2 = h.
Proof.
  unfold Remove. cbn [fst snd]. split; [done|]. split; [|done].
  by apply GetEntry_insert_dead.
Qed.

(** [Rename], [Chmod] and [Chown] of a path that [GetEntry] does not find
    return [os.ErrNotExist] and change nothing. *)
Theorem missing_path_is_an_error (G : Globals) (p target : string) (mode uid gid : Z)
    (s : SessionFS) (h : Heap) :
  GetEntry G s p = None →
  Rename G p target s h = (Some ErrNotExist, s, h) ∧
  Chmod G p mode s h = (Some ErrNotExist, s, h) ∧
  Chown G p uid gid s h = (Some ErrNotExist, s, h).
Proof. intros Hp. unfold Rename, Chmod, Chown. by rewrite Hp. Qed.

Lemma missing_path_is_an_error_witness :
  let G := globals boot in
  Rename G "/nonexistent" "/tmp/x" NewSessionFS (heap boot)
    = (Some ErrNotExist, NewSessionFS, heap boot) ∧
  Chmod G "/nonexistent" (perm "600") NewSessionFS (heap boot)
    = (Some ErrNotExist, NewSessionFS, heap boot) ∧
  Chown G "/nonexistent" 0 0 NewSessionFS (heap boot)
    = (Some ErrNotExist, NewSessionFS, heap boot).
Proof.
  intros G.
  apply (missing_path_is_an_error G "/nonexistent" "/tmp/x" (perm "600") 0 0
           NewSessionFS (heap boot)).
  vm_compute. reflexivity.
Defined.

(** ** [Chmod], [Chown] and the attributes that [Write] keeps *)

Lemma perm_777 : perm "777" = 511%Z.
Proof. reflexivity. Qed.

Lemma testbit_511 n : (0 ≤ n)%Z → Z.testbit 511 n = (n <? 9)%Z.
Proof.
  intros Hn. change 511%Z with (Z.ones 9).
  destruct (Z.ltb_spec n 9).
  - by rewrite Z.ones_spec_low by lia.
  - by rewrite Z.ones_spec_high by lia.
Qed.

(** The new mode has the permission bits of the request and the other
    bits, the file type among them, of the old mode. *)
Lemma chmod_bits_spec (old mode : Z) :
  Z.land (chmod_bits old mode) (perm "777") = Z.land mode (perm "777") ∧
  Z.ldiff (chmod_bits old mode) (perm "777") = Z.ldiff old (perm "777").
Proof.
  unfold chmod_bits. rewrite perm_777. split; apply Z.bits_inj'; intros n Hn.
  - rewrite !Z.land_spec, Z.lor_spec, Z.ldiff_spec, Z.land_spec, testbit_511 by done.
    destruct (n <? 9)%Z; destruct (Z.testbit old n), (Z.testbit mode n); done.
  - rewrite !Z.ldiff_spec, Z.lor_spec, Z.ldiff_spec, Z.land_spec, testbit_511 by done.
    destruct (n <? 9)%Z; destruct (Z.testbit old n), (Z.testbit mode n); done.
Qed.

(** [Chmod] of a normalized path that [GetEntry] finds: the entry found
    afterwards has the nine permission bits of the request and the other
    mode bits of the old entry, and its name, kind, content and owner are
    the old ones.  When the overlay had no entry of its own for the path,
    the entry found afterwards is a new object. *)
Theorem Chmod_sets_the_permission_bits
    (G : Globals) (p : string) (mode : Z) (s : SessionFS) (h : Heap) (e : loc) :
  path.Clean p = p → GetEntry G s p = Some e →
  ∃ e' s' h',
    Chmod G p mode s h = (None, s', h') ∧
    GetEntry G s' p = Some e' ∧
    Z.land (Mode (deref h' e')) (perm "777") = Z.land mode (perm "777") ∧
    Z.ldiff (Mode (deref h' e')) (perm "777") = Z.ldiff (Mode (deref h e)) (perm "777") ∧
    Name (deref h' e') = Name (deref h e) ∧
    IsDir (deref h' e') = IsDir (deref h e) ∧
    Content (deref h' e') = Content (deref h e) ∧
    UID (deref h' e') = UID (deref h e) ∧
    GID (deref h' e') = GID (deref h e) ∧
    (is_live s p = None → e' ∉ dom (objects h)).
Proof.
  intros Hp He. unfold Chmod. rewrite He.
  destruct (is_live s p) as [x|] eqn:Hx.
  - assert (x = e) as ->.
    { pose proof Hx as Hx'. rewrite <- Hp in Hx'.
      apply (GetEntry_live G) in Hx'. congruence. }
    eexists e, s, _. split; [reflexivity|]. split; [done|].
    cbn [fst snd time_Now]. rewrite deref_store. cbn [Mode Name IsDir Content UID GID].
    destruct (chmod_bits_spec (Mode (deref h e)) mode) as [H1 H2].
    repeat split; done.
  - cbn [fst snd time_Now new_entry]. eexists _, _, _. split; [reflexivity|].
    split; [by apply GetEntry_insert_live|].
    rewrite deref_store. cbn [Mode Name IsDir Content UID GID].
    destruct (chmod_bits_spec (Mode (deref h e)) mode) as [H1 H2].
    repeat split; try done. intros _. apply is_fresh.
Qed.

Lemma Chmod_sets_the_permission_bits_witness :
  let G := globals boot in
  ∃ e' s' h',
    Chmod G "/etc/hosts" (perm "4600") NewSessionFS (heap boot) = (None, s', h') ∧
    GetEntry G s' "/etc/hosts" = Some e' ∧
    Z.land (Mode (deref h' e')) (perm "777") = Z.land (perm "4600") (perm "777") ∧
    Z.ldiff (Mode (deref h' e')) (perm "777") = Z.ldiff (Mode (deref (heap boot) 44)) (perm "777") ∧
    Name (deref h' e') = Name (deref (heap boot) 44) ∧
    IsDir (deref h' e') = IsDir (deref (heap boot) 44) ∧
    Content (deref h' e') = Content (deref (heap boot) 44) ∧
    UID (deref h' e') = UID (deref (heap boot) 44) ∧
    GID (deref h' e') = GID (deref (heap boot) 44) ∧
    (is_live NewSessionFS "/etc/hosts" = None → e' ∉ dom (objects (heap boot))).
Proof.
  intros G.
  apply (Chmod_sets_the_permission_bits G "/etc/hosts" (perm "4600") NewSessionFS (heap boot) 44).
  - reflexivity.
  - vm_compute. reflexivity.
Defined.

(** [Chown] of a normalized path that [GetEntry] finds: an id of -1 keeps
    the old one, any other replaces it; the mode and the content stay. *)
Theorem Chown_sets_the_owner
    (G : Globals) (p : string) (uid gid : Z) (s : SessionFS) (h : Heap) (e : loc) :
  path.Clean p = p → GetEntry G s p = Some e →
  ∃ e' s' h',
    Chown G p uid gid s h = (None, s', h') ∧
    GetEntry G s' p = Some e' ∧
    UID (deref h' e') = (if (uid =? -1)%Z then UID (deref h e) else uid) ∧
    GID (deref h' e') = (if (gid =? -1)%Z then GID (deref h e) else gid) ∧
    Mode (deref h' e') = Mode (deref h e) ∧
    IsDir (deref h' e') = IsDir (deref h e) ∧
    Content (deref h' e') = Content (deref h e).
Proof.
  intros Hp He. unfold Chown. rewrite He.
  destruct (is_live s p) as [x|] eqn:Hx.
  - assert (x = e) as ->.
    { pose proof Hx as Hx'. rewrite <- Hp in Hx'.
      apply (GetEntry_live G) in Hx'. congruence. }
    eexists e, s, _. split; [reflexivity|]. split; [done|].
    cbn [fst snd time_Now]. by rewrite deref_store.
  - cbn [fst snd time_Now new_entry]. eexists _, _, _. split; [reflexivity|].
    split; [by apply GetEntry_insert_live|]. by rewrite deref_store.
Qed.

Lemma Chown_sets_the_owner_witness :
  let G := globals boot in
  ∃ e' s' h',
    Chown G "/etc/hosts" 1000 (-1) NewSessionFS (heap boot) = (None, s', h') ∧
    GetEntry G s' "/etc/hosts" = Some e' ∧
    UID (deref h' e') = (if (1000 =? -1)%Z then UID (deref (heap boot) 44) else 1000%Z) ∧
    GID (deref h' e') = (if (-1 =? -1)%Z then GID (deref (heap boot) 44) else (-1)%Z) ∧
    Mode (deref h' e') = Mode (deref (heap boot) 44) ∧
    IsDir (deref h' e') = IsDir (deref (heap boot) 44) ∧
    Content (deref h' e') = Content (deref (heap boot) 44).
Proof.
  intros G.
  apply (Chown_sets_the_owner G "/etc/hosts" 1000 (-1) NewSessionFS (heap boot) 44).
  - reflexivity.
  - vm_compute. reflexivity.
Defined.

(** Overwriting a path that [GetEntry] finds keeps its owner, and its mode
    too when the caller passes mode 0; a path that nothing holds gets owner
    0 and mode 0644. *)
Theorem Write_keeps_owner_and_mode
    (G : Globals) (p : string) (data : slice) (mode : Z) (s : SessionFS) (h : Heap) :
  (Z.of_nat (s_len data) ≤ MaxFileSize)%Z →
  ∃ l s' h',
    Write G p data mode s h = (None, s', h') ∧
    GetEntry G s' p = Some l ∧
    match GetEntry G s p with
    | Some e =>
        UID (deref h' l) = UID (deref h e) ∧ GID (deref h' l) = GID (deref h e) ∧
        Mode (deref h' l) = (if (mode =? 0)%Z then Mode (deref h e) else mode)
    | None =>
        overlay s !! path.Clean p = None →
        UID (deref h' l) = 0%Z ∧ GID (deref h' l) = 0%Z ∧
        Mode (deref h' l) = (if (mode =? 0)%Z then perm "644" else mode)
    end.
Proof.
  intros Hq. unfold Write.
  destruct (Z.gtb_spec (Z.of_nat (s_len data)) MaxFileSize) as [?|_]; [lia|].
  unfold GetEntry at 2. unfold is_live.
  destruct (overlay s !! path.Clean p) as [[x|]|] eqn:Hx.
  - eexists x, s, _. split; [reflexivity|].
    split; [apply GetEntry_live; unfold is_live; by rewrite Hx|].
    cbn [fst snd time_Now]. by rewrite deref_store.
  - destruct (BaseFS G !! path.Clean p) as [b|];
      cbn [fst snd time_Now new_entry];
      (eexists _, _, _; split; [reflexivity|];
       split; [by apply GetEntry_insert_live|]; done).
  - destruct (BaseFS G !! path.Clean p) as [b|];
      cbn [fst snd time_Now new_entry];
      (eexists _, _, _; split; [reflexivity|];
       split; [by apply GetEntry_insert_live|]; by rewrite deref_store).
Qed.

Lemma Write_keeps_owner_and_mode_witness :
  let G := globals boot in
  ∃ l s' h',
    Write G "/etc/shadow" nil_slice 0 NewSessionFS (heap boot) = (None, s', h') ∧
    GetEntry G s' "/etc/shadow" = Some l ∧
    match GetEntry G NewSessionFS "/etc/shadow" with
    | Some e =>
        UID (deref h' l) = UID (deref (heap boot) e) ∧
        GID (deref h' l) = GID (deref (heap boot) e) ∧
        Mode (deref h' l) = (if (0 =? 0)%Z then Mode (deref (heap boot) e) else 0%Z)
    | None =>
        overlay NewSessionFS !! path.Clean "/etc/shadow" = None →
        UID (deref h' l) = 0%Z ∧ GID (deref h' l) = 0%Z ∧
        Mode (deref h' l) = (if (0 =? 0)%Z then perm "644" else 0%Z)
    end.
Proof.
  intros G. apply (Write_keeps_owner_and_mode G "/etc/shadow" nil_slice 0 NewSessionFS (heap boot)).
  vm_compute. discriminate.
Defined.

(** ** What [WriteAt] leaves in the file *)

Section write_at.
Implicit Types (arr vis tail p old : bytes) (off n : nat).

(** The copy into the backing array, read back through the new length. *)
Lemma copy_at_visible arr vis tail p off :
  arr = vis ++ tail → off + length p ≤ length arr →
  (off ≤ length vis ∨ ∃ k, tail = replicate k Byte.x00) →
  take (length vis `max` (off + length p)) (copy_at arr off p) = patched vis p off.
Proof.
  intros -> Hlen Hcase. unfold copy_at, patched.
  rewrite length_app in Hlen.
  destruct (decide (off ≤ length vis)) as [Hle|Hgt].
  - replace (off - length vis) with 0 by lia. cbn [replicate]. rewrite app_nil_r.
    rewrite (take_app_le vis tail off) by done.
    rewrite (app_assoc (take off vis) p).
    assert (Hl : length (take off vis ++ p) = off + length p).
    { rewrite length_app, length_take. lia. }
    rewrite take_app_ge by lia. rewrite Hl. rewrite <- app_assoc. do 2 f_equal.
    destruct (decide (off + length p ≤ length vis)) as [Hin|Hout].
    + rewrite drop_app_le by done. rewrite take_app_ge by (rewrite length_drop; lia).
      rewrite length_drop. replace (_ - _ - _) with 0 by lia.
      by rewrite take_0, app_nil_r.
    + replace (_ `max` _ - _) with 0 by lia. rewrite take_0.
      by rewrite drop_ge by lia.
  - destruct Hcase as [?|[k ->]]; [lia|]. rewrite length_replicate in Hlen.
    assert (Ht : take off (vis ++ replicate k Byte.x00) = vis ++ replicate (off - length vis) Byte.x00).
    { rewrite take_app_ge by lia. f_equal. rewrite take_replicate. f_equal. lia. }
    rewrite Ht. rewrite (take_ge (vis ++ replicate (off - length vis) Byte.x00))
      by (rewrite length_app, length_replicate; lia).
    rewrite (drop_ge vis) by lia. rewrite app_nil_r.
    rewrite (app_assoc _ p). rewrite take_app_le.
    + apply take_ge. rewrite !length_app, length_replicate. lia.
    + rewrite !length_app, length_replicate. lia.
Qed.

Lemma length_patched old p off :
  length (patched old p off) = length old `max` (off + length p).
Proof.
  unfold patched. rewrite !length_app, length_take, length_app, length_replicate, length_drop.
  lia.
Qed.

Lemma patched_append old p : patched old p (length old) = old ++ p.
Proof.
  unfold patched. replace (length old - length old) with 0 by lia. cbn [replicate].
  rewrite app_nil_r, take_ge by done. rewrite drop_ge by lia. by rewrite app_nil_r.
Qed.

Lemma int_add_in_range (off : Z) (n : nat) :
  (0 ≤ off)%Z → (off + Z.of_nat n ≤ MaxFileSize)%Z → int_add off (Z.of_nat n) = (off + Z.of_nat n)%Z.
Proof.
  intros H0 H1. unfold int_add. apply wrap64_in_range. rewrite MaxFileSize_value in H1. lia.
Qed.

Lemma length_slice_bytes h (c : slice) : slice_valid h c → length (slice_bytes h c) = s_len c.
Proof.
  unfold slice_valid, cap, slice_bytes. destruct (s_ptr c); [|cbn [length]; lia].
  intros H. rewrite length_take. lia.
Qed.

Lemma array_at_set_array h a c : array_at (set_array a c h) a = c.
Proof. unfold array_at, set_array; simpl. by rewrite lookup_insert_eq. Qed.

(** [grow] keeps the bytes and the length, and makes room for [end_]; a
    new array is zero beyond the bytes. *)
Lemma grow_spec (e : FileEntry) (end_ : Z) h :
  slice_valid h (Content e) → (0 ≤ end_ ≤ MaxFileSize)%Z →
  objects (grow e end_ h).2 = objects h ∧
  s_len (grow e end_ h).1 = s_len (Content e) ∧
  Z.to_nat end_ ≤ cap (grow e end_ h).2 (grow e end_ h).1 ∧
  slice_bytes (grow e end_ h).2 (grow e end_ h).1 = slice_bytes h (Content e) ∧
  ((grow e end_ h) = (Content e, h) ∨
   ∃ a k, s_ptr (grow e end_ h).1 = Some a ∧
          array_at (grow e end_ h).2 a = slice_bytes h (Content e) ++ replicate k Byte.x00).
Proof.
  intros Hv Hend. pose proof (length_slice_bytes h _ Hv) as Hlen. unfold grow.
  destruct (Z.gtb_spec end_ (Z.of_nat (cap h (Content e)))) as [Hgt|Hle].
  - set (newCap := if (_ >? MaxFileSize)%Z then MaxFileSize else _).
    assert (HnewCap : (end_ ≤ newCap)%Z).
    { unfold newCap. destruct (_ >? MaxFileSize)%Z; [lia|].
      destruct (Z.ltb_spec end_ (Z.of_nat (cap h (Content e)) * 2)); lia. }
    unfold make_slice, new_array. cbn [s_ptr fst snd s_len].
    set (a := fresh (dom (arrays h))).
    set (old := slice_bytes h (Content e)) in *.
    rewrite array_at_set_array, drop_replicate.
    split; [done|]. split; [done|].
    unfold cap, slice_bytes. cbn [s_ptr s_len]. rewrite !array_at_set_array.
    split; [rewrite length_app, length_replicate; lia|].
    split; [by rewrite <- Hlen, take_app_length|].
    right. eexists a, _. split; [done|]. by rewrite array_at_set_array.
  - split; [done|]. split; [done|]. split; [cbn [fst snd]; lia|]. split; [done|]. by left.
Qed.

Lemma array_at_written l (e : FileEntry) a o h k :
  array_at (store l e {| objects := o; arrays := arrays h; clock := k |}) a = array_at h a.
Proof. reflexivity. Qed.

Lemma slice_bytes_same_arrays h h' (c : slice) :
  arrays h' = arrays h → slice_bytes h' c = slice_bytes h c.
Proof. intros H. unfold slice_bytes, array_at. by rewrite H. Qed.

(** The second half of [WriteAt] on an entry with a valid slice: the
    write succeeds and the content is the old one with [p] written at
    [off].  A gap between the old end and [off] is only covered when the
    bytes of the array beyond the old end are zero. *)
Lemma write_bytes_patches (entry : loc) p (off : Z) h :
  (0 ≤ off)%Z → (off + Z.of_nat (length p) ≤ MaxFileSize)%Z →
  slice_valid h (Content (deref h entry)) →
  (Z.to_nat off ≤ length (content h entry) ∨
   ∃ a k, s_ptr (Content (deref h entry)) = Some a ∧
          array_at h a = content h entry ++ replicate k Byte.x00) →
  ∃ h',
    write_bytes entry p off h = (Returns (Z.of_nat (length p), None), h') ∧
    content h' entry = patched (content h entry) p (Z.to_nat off) ∧
    slice_valid h' (Content (deref h' entry)).
Proof.
  intros Hoff Hmax Hv Hhole. unfold write_bytes.
  rewrite int_add_in_range by done.
  destruct (Z.gtb_spec (off + Z.of_nat (length p)) MaxFileSize) as [?|_]; [lia|].
  set (e := deref h entry) in *. set (end_ := (off + Z.of_nat (length p))%Z) in *.
  assert (Hend0 : (0 ≤ end_)%Z) by (unfold end_; lia).
  assert (Hend : Z.to_nat end_ = Z.to_nat off + length p) by (unfold end_; lia).
  destruct (grow_spec e end_ h Hv ltac:(lia)) as (Ho & Hn & Hcap & Hbytes & Hkind).
  destruct (grow e end_ h) as [c1 h1] eqn:Hgrow. cbn [fst snd] in *.
  set (vis := content h entry) in *.
  change (slice_bytes h (Content e)) with vis in *.
  assert (Hvis : length vis = s_len (Content e)) by (by apply length_slice_bytes).
  set (c2 := if (end_ >? Z.of_nat (s_len c1))%Z then _ else c1).
  assert (Hc2 : s_ptr c2 = s_ptr c1 ∧ s_len c2 = length vis `max` Z.to_nat end_).
  { unfold c2. destruct (Z.gtb_spec end_ (Z.of_nat (s_len c1))); cbn [s_ptr s_len]; (split; [done|lia]). }
  destruct Hc2 as [Hptr Hlen2].
  assert (Hb : ((off <? 0) || (off >? Z.of_nat (s_len c2)))%Z = false).
  { apply orb_false_intro; [apply Z.ltb_ge; lia|].
    rewrite Z.gtb_ltb. apply Z.ltb_ge. rewrite Hlen2. lia. }
  rewrite Hb.
  cbn [time_Now]. eexists. split; [reflexivity|].
  unfold content. rewrite deref_store. cbn [Content].
  unfold slice_valid, cap, slice_bytes. rewrite Hptr.
  destruct (s_ptr c1) as [a|] eqn:Ha.
  - rewrite !array_at_written, !array_at_set_array.
    assert (Harr : ∃ tail, array_at h1 a = vis ++ tail ∧
                     (Z.to_nat off ≤ length vis ∨ ∃ k, tail = replicate k Byte.x00)).
    { destruct Hkind as [[= -> ->]|(a' & k & Ha' & Harr)].
      - exists (drop (s_len (Content e)) (array_at h a)). split.
        + unfold vis, content, slice_bytes. fold e. rewrite Ha. by rewrite take_drop.
        + destruct Hhole as [?|(a' & k & Ha' & Harr)]; [by left|right].
          fold e in Ha'. rewrite Ha in Ha'. injection Ha' as <-.
          exists k. rewrite Harr. fold vis. by rewrite <- Hvis, drop_app_length.
      - injection Ha' as <-. exists (replicate k Byte.x00).
        split; [done|]. right. by exists k. }
    destruct Harr as (tail & Harr & Htail).
    assert (Hroom : Z.to_nat off + length p ≤ length (array_at h1 a)).
    { unfold cap in Hcap. rewrite Ha in Hcap. lia. }
    split.
    + rewrite Hlen2. replace (Z.to_nat end_) with (Z.to_nat off + length p) by lia.
      by apply (copy_at_visible _ vis tail).
    + assert (length vis ≤ length (array_at h1 a)) by (rewrite Harr, length_app; lia).
      unfold copy_at. rewrite Hlen2, !length_app, length_take, length_drop. lia.
  - unfold cap in Hcap. rewrite Ha in Hcap.
    assert (vis = []) as Hnil.
    { unfold slice_bytes in Hbytes. rewrite Ha in Hbytes. done. }
    rewrite Hnil in *. cbn [length] in *.
    assert (p = []) as -> by (destruct p; [done|cbn [length] in *; lia]).
    split; [|lia]. unfold patched. by replace (Z.to_nat off) with 0 by lia.
Qed.

(** The entry that the first half of [WriteAt] makes for a path the overlay
    does not hold: a copy of the bytes of [BaseFS], in an array of its own
    that is zero beyond them and has room for the write. *)
Lemma find_or_create_new G wpath p (off : Z) s h :
  is_live s wpath = None → (0 ≤ off)%Z → (off + Z.of_nat (length p) ≤ MaxFileSize)%Z →
  ∃ entry s' h' a k,
    find_or_create G wpath p off s h = (entry, s', h') ∧
    is_live s' wpath = Some entry ∧
    s_ptr (Content (deref h' entry)) = Some a ∧
    s_len (Content (deref h' entry)) = length (bytes_at G s h wpath) ∧
    array_at h' a = bytes_at G s h wpath ++ replicate k Byte.x00 ∧
    Z.to_nat off + length p ≤ length (array_at h' a).
Proof.
  intros Hx Hoff Hmax. unfold find_or_create, bytes_at. rewrite Hx.
  rewrite int_add_in_range by done.
  set (base := match BaseFS G !! wpath with Some b => slice_bytes h _ | None => [] end).
  assert (Hbase : match BaseFS G !! wpath with Some b => content h b | None => [] end = base)
    by (unfold base, content; by destruct (BaseFS G !! wpath)).
  rewrite Hbase.
  set (initCap := if (_ >? _)%Z then _ else Z.of_nat (length base)).
  assert (Hcap : length base ≤ Z.to_nat initCap ∧ Z.to_nat off + length p ≤ Z.to_nat initCap).
  { unfold initCap. destruct (Z.gtb_spec (off + Z.of_nat (length p)) (Z.of_nat (length base))); lia. }
  unfold make_slice, new_array. cbn [s_ptr s_len time_Now new_entry fst snd].
  rewrite array_at_set_array, drop_replicate.
  eexists _, _, _, (fresh (dom (arrays h))), _. split; [reflexivity|].
  split; [unfold is_live; cbn [set_overlay overlay]; by rewrite lookup_insert_eq|].
  rewrite deref_store. cbn [Content s_ptr s_len].
  rewrite array_at_written, array_at_set_array.
  split; [done|]. split; [done|]. split; [reflexivity|].
  rewrite length_app, length_replicate. lia.
Qed.

Lemma content_valid h l (a : loc) vis tail :
  s_ptr (Content (deref h l)) = Some a → s_len (Content (deref h l)) = length vis →
  array_at h a = vis ++ tail →
  content h l = vis ∧ slice_valid h (Content (deref h l)).
Proof.
  intros Ha Hn Harr. unfold content, slice_bytes, slice_valid, cap. rewrite Ha, Hn, Harr.
  split; [by rewrite take_app_length|]. rewrite length_app. lia.
Qed.
End write_at.

(** [WriteAt] within the quota, at an offset that is not negative: it
    reports all of [p] written, and the path then holds the bytes it had,
    from the overlay or else from [BaseFS], with [p] written over them at
    the offset; a path that the overlay did not hold may be written beyond
    its end, and the gap reads as zero bytes. *)
Theorem WriteAt_writes_at_the_offset
    (G : Globals) (wpath : string) (p : bytes) (off : Z) (s : SessionFS) (h : Heap) :
  (0 ≤ off)%Z → (off + Z.of_nat (length p) ≤ MaxFileSize)%Z →
  (∀ e, is_live s wpath = Some e →
        slice_valid h (Content (deref h e)) ∧ Z.to_nat off ≤ length (content h e)) →
  ∃ e' s' h',
    WriteAt G wpath p off s h = (Returns (Z.of_nat (length p), None), s', h') ∧
    is_live s' wpath = Some e' ∧
    content h' e' = patched (bytes_at G s h wpath) p (Z.to_nat off) ∧
    slice_valid h' (Content (deref h' e')).
Proof.
  intros Hoff Hmax Hlive. unfold WriteAt.
  destruct (is_live s wpath) as [e|] eqn:Hx.
  - destruct (Hlive e eq_refl) as [Hv Hin].
    unfold find_or_create. rewrite Hx.
    destruct (write_bytes_patches e p off h Hoff Hmax Hv (or_introl Hin)) as (h' & -> & Hc & Hv').
    exists e, s, h'. unfold bytes_at. rewrite Hx. done.
  - destruct (find_or_create_new G wpath p off s h Hx Hoff Hmax)
      as (entry & s1 & h1 & a & k & -> & Hl & Ha & Hn & Harr & Hroom).
    destruct (content_valid h1 entry a _ _ Ha Hn Harr) as [Hc Hv].
    destruct (write_bytes_patches entry p off h1 Hoff Hmax Hv) as (h' & -> & Hc' & Hv').
    { right. exists a, k. by rewrite Hc. }
    exists entry, s1, h'. by rewrite <- Hc.
Qed.

Lemma WriteAt_writes_at_the_offset_witness :
  let G := globals boot in
  ∃ e' s' h',
    WriteAt G "/etc/hostname" (to_bytes "XY") 20 NewSessionFS (heap boot)
      = (Returns (Z.of_nat (length (to_bytes "XY")), None), s', h') ∧
    is_live s' "/etc/hostname" = Some e' ∧
    content h' e' = patched (bytes_at G NewSessionFS (heap boot) "/etc/hostname")
                            (to_bytes "XY") (Z.to_nat 20) ∧
    slice_valid h' (Content (deref h' e')).
Proof.
  intros G.
  apply (WriteAt_writes_at_the_offset G "/etc/hostname" (to_bytes "XY") 20 NewSessionFS (heap boot)).
  - lia.
  - vm_compute. discriminate.
  - intros e He. vm_compute in He. discriminate He.
Defined.

Section chunks.
Context (G : Globals) (wpath : string).

Lemma patched_at_prefix (prefix rest c : bytes) :
  patched (prefix ++ rest) c (length prefix) = (prefix ++ c) ++ drop (length c) rest.
Proof.
  unfold patched. rewrite length_app.
  replace (length prefix - (length prefix + length rest)) with 0 by lia.
  cbn [replicate]. rewrite app_nil_r, take_app_length.
  rewrite drop_app_ge by lia. rewrite <- app_assoc. do 3 f_equal. lia.
Qed.

Lemma upload_from_prefix (chunks : list bytes) (prefix rest : bytes) s h e :
  is_live s wpath = Some e → slice_valid h (Content (deref h e)) →
  content h e = prefix ++ rest →
  (Z.of_nat (length prefix + length (concat chunks)) ≤ MaxFileSize)%Z →
  bytes_at G (upload G wpath chunks (Z.of_nat (length prefix)) (s, h)).1
              (upload G wpath chunks (Z.of_nat (length prefix)) (s, h)).2 wpath
  = prefix ++ concat chunks ++ drop (length (concat chunks)) rest.
Proof.
  revert prefix rest s h e.
  induction chunks as [|c chunks IH]; intros prefix rest s h e Hl Hv Hc Hmax.
  - cbn [upload concat fst snd length]. unfold bytes_at. rewrite Hl, Hc. by rewrite drop_0.
  - cbn [upload concat fst snd] in *. rewrite length_app in Hmax.
    destruct (WriteAt_writes_at_the_offset G wpath c (Z.of_nat (length prefix)) s h)
      as (e' & s' & h' & -> & Hl' & Hc' & Hv'); [lia|lia| |].
    { intros e0 He0. rewrite Hl in He0. injection He0 as <-. split; [done|].
      rewrite Hc, length_app. lia. }
    unfold bytes_at in Hc'. rewrite Hl, Hc, Nat2Z.id, patched_at_prefix in Hc'.
    replace (Z.of_nat (length prefix) + Z.of_nat (length c))%Z
      with (Z.of_nat (length (prefix ++ c))) by (rewrite length_app; lia).
    rewrite (IH (prefix ++ c) (drop (length c) rest) s' h' e' Hl' Hv' Hc')
      by (rewrite length_app; lia).
    rewrite <- !app_assoc. do 3 f_equal. rewrite drop_drop, length_app. f_equal; lia.
Qed.
End chunks.

(** A file written in consecutive chunks from offset 0 holds the chunks
    one after the other; and, since nothing truncates, what the old content
    had beyond them comes after. *)
Theorem upload_in_chunks
    (G : Globals) (wpath : string) (chunks : list bytes) (s : SessionFS) (h : Heap) :
  (Z.of_nat (length (concat chunks)) ≤ MaxFileSize)%Z →
  (∀ e, is_live s wpath = Some e → slice_valid h (Content (deref h e))) →
  bytes_at G (upload G wpath chunks 0 (s, h)).1 (upload G wpath chunks 0 (s, h)).2 wpath
  = concat chunks ++ drop (length (concat chunks)) (bytes_at G s h wpath).
Proof.
  intros Hmax Hvalid. destruct chunks as [|c chunks]; [by rewrite drop_0|].
  cbn [upload concat fst snd] in *. rewrite length_app in Hmax.
  destruct (WriteAt_writes_at_the_offset G wpath c 0 s h)
    as (e' & s' & h' & -> & Hl' & Hc' & Hv'); [lia|lia| |].
  { intros e He. split; [by apply Hvalid|]. cbn. lia. }
  change (patched (bytes_at G s h wpath) c (Z.to_nat 0))
    with (patched ([] ++ bytes_at G s h wpath) c (length (@nil byte))) in Hc'.
  rewrite (patched_at_prefix [] (bytes_at G s h wpath) c) in Hc'. cbn [app] in Hc'.
  change (0 + Z.of_nat (length c))%Z with (Z.of_nat (length c)).
  rewrite (upload_from_prefix G wpath chunks c (drop (length c) (bytes_at G s h wpath))
             s' h' e' Hl' Hv' Hc') by lia.
  rewrite <- app_assoc. do 2 f_equal. rewrite drop_drop, length_app. f_equal; lia.
Qed.

Lemma upload_in_chunks_witness :
  let G := globals boot in
  bytes_at G (upload G "/etc/hostname" [to_bytes "ab"; to_bytes "cd"] 0 (NewSessionFS, heap boot)).1
             (upload G "/etc/hostname" [to_bytes "ab"; to_bytes "cd"] 0 (NewSessionFS, heap boot)).2
             "/etc/hostname"
  = concat [to_bytes "ab"; to_bytes "cd"] ++
    drop (length (concat [to_bytes "ab"; to_bytes "cd"]))
         (bytes_at G NewSessionFS (heap boot) "/etc/hostname").
Proof.
  intros G.
  apply (upload_in_chunks G "/etc/hostname" [to_bytes "ab"; to_bytes "cd"] NewSessionFS (heap boot)).
  - vm_compute. discriminate.
  - intros e He. vm_compute in He. discriminate He.
Defined.

(** ** Paging through a listing *)

Lemma ListAt_page {A} (l f : list A) (k : nat) :
  k < length l →
  ListAt l f (Z.of_nat k) =
    Returns (take (length f `min` (length l - k)) (drop k l)
               ++ drop (length f `min` (length l - k)) f,
             Z.of_nat (length f `min` (length l - k)), None).
Proof.
  intros Hk. unfold ListAt.
  destruct (Z.geb_spec (Z.of_nat k) (Z.of_nat (length l))) as [?|_]; [lia|].
  destruct (Z.ltb_spec (Z.of_nat k) 0) as [?|_]; [lia|].
  by rewrite Nat2Z.id, length_drop.
Qed.

Lemma read_listing_from {A} (fuel : nat) (l f : list A) (k : nat) :
  f ≠ [] → k ≤ length l → length l - k < fuel →
  read_listing fuel l f (Z.of_nat k) = drop k l.
Proof.
  intros Hf. revert k. induction fuel as [|fuel IH]; intros k Hk Hfuel; [lia|].
  cbn [read_listing].
  destruct (decide (k = length l)) as [->|Hne].
  - unfold ListAt. destruct (Z.geb_spec (Z.of_nat (length l)) (Z.of_nat (length l))); [|lia].
    by rewrite drop_all.
  - rewrite ListAt_page by lia.
    set (n := length f `min` (length l - k)).
    assert (Hn : 0 < n ≤ length l - k).
    { unfold n. destruct f; [done|]. cbn [length]. lia. }
    rewrite Nat2Z.id.
    rewrite take_app_le by (rewrite length_take, length_drop; lia).
    rewrite take_take, Nat.min_id.
    replace (Z.of_nat k + Z.of_nat n)%Z with (Z.of_nat (k + n)) by lia.
    rewrite IH by lia.
    rewrite <- drop_drop. apply take_drop.
Qed.

(** A client with a buffer that is not empty gets every entry of the
    listing once, in order: each call hands out the next entries, and the
    call after the last one reports [io.EOF]. *)
Theorem ListAt_pages_through_the_listing {A} (l f : list A) :
  f ≠ [] →
  read_listing (S (length l)) l f 0 = l ∧
  ListAt l f (Z.of_nat (length l)) = Returns (f, 0%Z, Some EOF).
Proof.
  intros Hf. split.
  - change 0%Z with (Z.of_nat 0). rewrite read_listing_from by (done || lia). apply drop_0.
  - unfold ListAt. by destruct (Z.geb_spec (Z.of_nat (length l)) (Z.of_nat (length l))); [|lia].
Qed.

Lemma ListAt_pages_through_the_listing_witness :
  read_listing 6 [1; 2; 3; 4; 5] [0; 0] 0 = [1; 2; 3; 4; 5] ∧
  ListAt [1; 2; 3; 4; 5] [0; 0] (Z.of_nat 5) = Returns ([0; 0], 0%Z, Some EOF).
Proof. apply (ListAt_pages_through_the_listing [1; 2; 3; 4; 5] [0; 0]). discriminate. Defined.

(** A negative offset makes [ListAt] slice out of range. *)
Lemma ListAt_negative_offset {A} (l f : list A) (offset : Z) :
  (offset < 0)%Z → ListAt l f offset = Panics "slice bounds out of range".
Proof.
  intros Hneg. unfold ListAt.
  destruct (Z.geb_spec offset (Z.of_nat (length l))) as [?|_]; [lia|].
  by destruct (Z.ltb_spec offset 0) as [_|?]; [|lia].
Qed.

(** ** The directory cache of [initFS] *)

Section dir_cache.
Implicit Types (cache : gmap string (list loc)) (kvs : list (string * loc)) (d p : string).

Lemma build_cache_foldl base : build_cache base = foldl cache_step ∅ (map_to_list base).
Proof.
  unfold build_cache. generalize (∅ : gmap string (list loc)).
  induction (map_to_list base) as [|[p e] kvs IH]; intros cache; [done|].
  cbn [foldl]. apply IH.
Qed.

Lemma cache_step_lookup cache p e d :
  default [] (cache_step cache (p, e) !! d) =
  default [] (cache !! d) ++ (if decide (path.Dir p = d ∧ p ≠ d) then [e] else []).
Proof.
  unfold cache_step. cbn [fst snd].
  destruct (String.eqb_spec p (path.Dir p)) as [Heq|Hne]; cbn [negb].
  - rewrite decide_False; [by rewrite app_nil_r|]. intros [<- ?]. done.
  - destruct (decide (path.Dir p = d)) as [<-|Hd].
    + rewrite lookup_insert_eq. cbn [default]. by rewrite decide_True.
    + rewrite lookup_insert_ne by done. rewrite decide_False; [by rewrite app_nil_r|].
      by intros [? _].
Qed.

(** Whatever the order of the loop, the cache of a directory holds, in
    that order, the entries of the paths below it. *)
Lemma cache_foldl cache kvs d :
  default [] (foldl cache_step cache kvs !! d) =
  default [] (cache !! d) ++ (filter (λ pe, path.Dir pe.1 = d ∧ pe.1 ≠ d) kvs).*2.
Proof.
  revert cache. induction kvs as [|[p e] kvs IH]; intros cache.
  - by rewrite app_nil_r.
  - cbn [foldl]. rewrite IH, cache_step_lookup, <- app_assoc. f_equal.
    rewrite filter_cons. cbn [fst snd]. by destruct (decide (path.Dir p = d ∧ p ≠ d)).
Qed.
End dir_cache.

(** [BaseFSDirCache] indexes [BaseFS] by parent directory: the cache of [d]
    holds exactly the entries of the paths whose [path.Dir] is [d], the
    directory itself left out; and each of them once, when no two paths of
    [BaseFS] share an entry. *)
Theorem build_cache_lists_the_children (base : gmap string loc) (d : string) :
  (∀ l, l ∈ default [] (build_cache base !! d) ↔
        ∃ p, base !! p = Some l ∧ path.Dir p = d ∧ p ≠ d) ∧
  ((∀ p q l, base !! p = Some l → base !! q = Some l → p = q) →
   NoDup (default [] (build_cache base !! d))).
Proof.
  rewrite build_cache_foldl, cache_foldl, lookup_empty. cbn [default app]. split.
  - intros l. rewrite list_elem_of_fmap. split.
    + intros ([p l'] & -> & [Hp Hin]%list_elem_of_filter).
      apply elem_of_map_to_list in Hin. by exists p.
    + intros (p & Hp & Hd). exists (p, l). split; [done|].
      apply list_elem_of_filter. split; [done|]. by apply elem_of_map_to_list.
  - intros Hinj. apply NoDup_fmap_2_strong.
    + intros [p l] [q l'] [_ Hp]%list_elem_of_filter [_ Hq]%list_elem_of_filter Heq.
      cbn [snd] in Heq. subst l'.
      apply elem_of_map_to_list in Hp, Hq. by rewrite (Hinj p q l).
    + apply NoDup_filter, NoDup_map_to_list.
Qed.

(** ** [parseArgs] *)

Section parse_args.
Implicit Types (w buf : string) (ws args : list string) (q c : ascii).

Lemma rev_app_rev_app w b (t : string) :
  String.rev_app (String.rev_app w b) t = String.rev_app b (w +:+ t).
Proof.
  revert b t. induction w as [|a w IH]; intros b t; [done|].
  cbn [String.rev_app]. by rewrite IH.
Qed.

Lemma append_nil_r w : w +:+ "" = w.
Proof.
  induction w as [|a w IH]; [done|].
  change (String a w +:+ "") with (String a (w +:+ "")). by rewrite IH.
Qed.

Lemma rev_rev_app w : String.rev (String.rev_app w "") = w.
Proof.
  unfold String.rev. rewrite rev_app_rev_app. cbn [String.rev_app]. apply append_nil_r.
Qed.

Lemma rev_app_nonempty w b : b ≠ "" → String.rev_app w b ≠ "".
Proof. revert b. induction w as [|a w IH]; intros b Hb; [done|]. cbn. by apply IH. Qed.

Lemma rev_nonempty buf : buf ≠ "" → String.rev buf ≠ "".
Proof. destruct buf as [|a buf]; [done|]. intros _. cbn. by apply rev_app_nonempty. Qed.

Lemma list_ascii_app (a b : string) :
  list_ascii_of_string (a +:+ b) = list_ascii_of_string a ++ list_ascii_of_string b.
Proof.
  induction a as [|x a IH]; [done|].
  change (String x a +:+ b) with (String x (a +:+ b)).
  cbn [list_ascii_of_string app]. by rewrite IH.
Qed.

(** The bytes of a plain word go to the builder, one by one. *)
Lemma parse_word w args buf (inQuote : bool) q :
  all_chars word_char w = true →
  foldl parse_step (args, buf, inQuote, q) (list_ascii_of_string w)
  = (args, String.rev_app w buf, inQuote, q).
Proof.
  revert buf. induction w as [|a w IH]; intros buf Hw; [done|].
  cbn [all_chars] in Hw. apply andb_true_iff in Hw as [Ha Hw].
  cbn [list_ascii_of_string foldl String.rev_app]. rewrite <- IH by done. f_equal.
  unfold word_char in Ha. apply negb_true_iff in Ha.
  apply orb_false_iff in Ha as [Ha H4]. apply orb_false_iff in Ha as [Ha H3].
  apply orb_false_iff in Ha as [H1 H2].
  unfold parse_step. by rewrite H1, H2, H3, H4.
Qed.

Lemma parse_blank args w q :
  w ≠ "" →
  parse_step (args, String.rev_app w "", false, q) " " = (w :: args, "", false, q).
Proof.
  intros Hw. unfold parse_step. cbn [Ascii.eqb Bool.eqb orb negb].
  assert (Hne : String.rev_app w "" ≠ "").
  { destruct w as [|a w]; [done|]. cbn. by apply rev_app_nonempty. }
  destruct (String.eqb_spec (String.rev_app w "") ""); [done|]. cbn [negb].
  by rewrite rev_rev_app.
Qed.

Lemma parse_words ws w args q :
  Forall plain ws → plain w →
  foldl parse_step (args, "", false, q) (list_ascii_of_string (strs.Join (ws ++ [w]) " "))
  = (rev ws ++ args, String.rev_app w "", false, q).
Proof.
  revert args. induction ws as [|w0 ws IH]; intros args Hws [Hw Hwc].
  - cbn [app strs.Join String.concat rev]. by apply parse_word.
  - inversion Hws as [|?? [Hw0 Hw0c] Hws']; subst.
    assert (Hj : strs.Join ((w0 :: ws) ++ [w]) " " = w0 +:+ " " +:+ strs.Join (ws ++ [w]) " ").
    { cbn [app]. unfold strs.Join. cbn [String.concat]. by destruct (ws ++ [w]) eqn:E;
        [destruct ws; discriminate E|]. }
    rewrite Hj, !list_ascii_app, !foldl_app, parse_word by done.
    cbn [list_ascii_of_string foldl]. rewrite parse_blank by done.
    rewrite IH by done. cbn [rev]. by rewrite <- app_assoc.
Qed.

Lemma parse_step_nonempty args buf (inQuote : bool) q c :
  Forall (λ a, a ≠ "") args → Forall (λ a, a ≠ "") (parse_step (args, buf, inQuote, q) c).1.1.1.
Proof.
  intros Hargs. unfold parse_step.
  repeat case_match; cbn [fst]; try done.
  constructor; [|done]. apply rev_nonempty.
  match goal with H : negb (String.eqb buf "") = true |- _ =>
    apply negb_true_iff in H; by destruct (String.eqb_spec buf "") end.
Qed.

Lemma parse_fold_nonempty (st : list string * string * bool * ascii) (l : list ascii) :
  Forall (λ a, a ≠ "") st.1.1.1 → Forall (λ a, a ≠ "") (foldl parse_step st l).1.1.1.
Proof.
  revert st. induction l as [|c l IH]; intros [[[args buf] inQuote] q] Hst; [done|].
  cbn [foldl]. apply IH. by apply parse_step_nonempty.
Qed.
End parse_args.

(** Plain words, joined by single blanks, parse back to themselves; and
    whatever the command line, no argument that [parseArgs] returns is
    empty. *)
Theorem parseArgs_splits_at_blanks (ws : list string) (cmdline : string) :
  Forall plain ws →
  parseArgs (strs.Join ws " ") = ws ∧ Forall (λ a, a ≠ "") (parseArgs cmdline).
Proof.
  intros Hws. split.
  - destruct (decide (ws = [])) as [->|Hne]; [done|].
    destruct (exists_last Hne) as (ws' & w & ->).
    apply Forall_app in Hws as [Hws' Hw]. inversion Hw as [|?? Hw' _]; subst.
    unfold parseArgs. rewrite (parse_words ws' w [] _ Hws' Hw').
    destruct Hw' as [Hw0 _].
    assert (Hne' : String.rev_app w "" ≠ "").
    { destruct w as [|a w]; [done|]. cbn. by apply rev_app_nonempty. }
    destruct (String.eqb_spec (String.rev_app w "") ""); [done|]. cbn [negb].
    rewrite rev_rev_app, app_nil_r. cbn [rev]. by rewrite rev_involutive.
  - unfold parseArgs.
    pose proof (parse_fold_nonempty ([], "", false, "000"%char)
                  (list_ascii_of_string cmdline) (Forall_nil_2 _)) as H.
    destruct (foldl parse_step _ _) as [[[args buf] inQuote] q]. cbn [fst] in H.
    apply Forall_rev. destruct (String.eqb_spec buf ""); cbn [negb]; [done|].
    constructor; [by apply rev_nonempty|done].
Qed.

Lemma parseArgs_splits_at_blanks_witness :
  parseArgs (strs.Join ["grep"; "-v"; "root"; "/etc/passwd"] " ")
    = ["grep"; "-v"; "root"; "/etc/passwd"] ∧
  Forall (λ a, a ≠ "") (parseArgs ("echo  " +:+ dq +:+ dq +:+ " x ")).
Proof.
  apply (parseArgs_splits_at_blanks ["grep"; "-v"; "root"; "/etc/passwd"]).
  repeat constructor; discriminate.
Defined.

(** Between two quotes of one kind, every byte that is not that quote is
    part of the argument, blanks and quotes of the other kind too; and a
    pair of quotes with nothing between them gives no argument at all. *)
Theorem parseArgs_keeps_what_is_quoted (q : ascii) (w : string) :
  q = "034"%char ∨ q = "039"%char →
  all_chars (λ c, negb (Ascii.eqb c q)) w = true →
  parseArgs (String q (w +:+ String q "")) = if String.eqb w "" then [] else [w].
Proof.
  intros Hq Hw. unfold parseArgs.
  change (String q (w +:+ String q "")) with (String q "" +:+ (w +:+ String q "")).
  rewrite !list_ascii_app, !foldl_app.
  assert (Hopen : foldl parse_step ([], "", false, "000"%char) (list_ascii_of_string (String q ""))
                  = ([], "", true, q)).
  { by destruct Hq as [-> | ->]. }
  rewrite Hopen.
  assert (Hbody : ∀ buf, foldl parse_step ([], buf, true, q) (list_ascii_of_string w)
                         = ([], String.rev_app w buf, true, q)).
  { clear Hopen. induction w as [|a w IH]; intros buf; [done|].
    cbn [all_chars] in Hw. apply andb_true_iff in Hw as [Ha Hw].
    cbn [list_ascii_of_string foldl String.rev_app]. rewrite <- IH by done. f_equal.
    apply negb_true_iff in Ha. unfold parse_step. rewrite Ha. cbn [negb].
    by repeat case_match. }
  rewrite Hbody.
  assert (Hclose : foldl parse_step ([], String.rev_app w "", true, q)
                     (list_ascii_of_string (String q ""))
                   = ([], String.rev_app w "", false, q)).
  { cbn [list_ascii_of_string foldl]. unfold parse_step.
    rewrite Ascii.eqb_refl. by destruct Hq as [-> | ->]. }
  rewrite Hclose.
  destruct w as [|a w]; [done|].
  assert (Hne : String.rev_app (String a w) "" ≠ "") by (cbn; by apply rev_app_nonempty).
  destruct (String.eqb_spec (String.rev_app (String a w) "") ""); [done|].
  cbn [negb rev app String.eqb]. by rewrite rev_rev_app.
Qed.

Lemma parseArgs_keeps_what_is_quoted_witness :
  parseArgs (String "034" ("it's  here" +:+ String "034" ""))
  = if String.eqb "it's  here" "" then [] else ["it's  here"].
Proof.
  apply (parseArgs_keeps_what_is_quoted "034" "it's  here"); [by left|reflexivity].
Defined.

(** ** [CRLFWriter] *)

Lemma replace_go_crlf (fuel : nat) (p : string) :
  String.length p ≤ fuel → strs.replace_go fuel p nl (cr +:+ nl) = crlf p.
Proof.
  revert fuel. induction p as [|c p IH]; intros fuel Hfuel.
  - by destruct fuel.
  - destruct fuel as [|fuel]; [cbn in Hfuel; lia|]. cbn [String.length] in Hfuel.
    cbn [strs.replace_go crlf]. unfold nl at 1. cbn [String.prefix].
    destruct (Ascii.ascii_dec "010" c) as [<-|Hne].
    + cbn [Ascii.eqb Bool.eqb]. assert (String.prefix "" p = true) as -> by (by destruct p).
      cbn [String.length strs.drop]. rewrite IH by lia. reflexivity.
    + destruct (Ascii.eqb_spec c "010") as [->|_]; [done|]. by rewrite IH by lia.
Qed.

(** What [CRLFWriter.Write] hands to the connection is
    [strings.ReplaceAll(p, "\n", "\r\n")]: every line feed gets a carriage
    return before it, also one that has one already, and no other byte
    changes. *)
Theorem CRLFWriter_is_ReplaceAll (p : string) :
  crlf p = strs.ReplaceAll p nl (cr +:+ nl).
Proof. unfold strs.ReplaceAll, nl at 1. by rewrite replace_go_crlf. Qed.

(** ** Redirection *)

Section redirect.
Implicit Types (w : string) (ws args : list string).

Lemma Split_absent (s : string) (c : ascii) :
  all_chars (λ x, negb (Ascii.eqb x c)) s = true → strs.Split s c = [s].
Proof.
  induction s as [|a s IH]; [done|]. cbn [all_chars strs.Split].
  intros [Ha Hs]%andb_true_iff. apply negb_true_iff in Ha. rewrite Ha. by rewrite IH.
Qed.

Lemma all_chars_app (f : ascii → bool) (a b : string) :
  all_chars f (a +:+ b) = all_chars f a && all_chars f b.
Proof.
  induction a as [|x a IH]; [done|].
  change (String x a +:+ b) with (String x (a +:+ b)). cbn [all_chars].
  by rewrite IH, andb_assoc.
Qed.

Lemma all_chars_Join (f : ascii → bool) ws :
  f " "%char = true → Forall (λ w, all_chars f w = true) ws →
  all_chars f (strs.Join ws " ") = true.
Proof.
  intros Hsp. induction ws as [|w [|w' ws] IH]; intros Hall; [done|..].
  - by inversion Hall.
  - inversion Hall as [|?? Hw Hrest]; subst.
    change (strs.Join (w :: w' :: ws) " ") with (w +:+ " " +:+ strs.Join (w' :: ws) " ").
    rewrite !all_chars_app. cbn [all_chars]. by rewrite Hw, Hsp, IH.
Qed.

Lemma find_redirect_cons (a b : string) (tl before : list string) :
  find_redirect (a :: b :: tl) before =
  if String.eqb a ">" || String.eqb a ">>" then Some (before, b)
  else find_redirect (b :: tl) (before ++ [a]).
Proof. reflexivity. Qed.

Lemma find_redirect_first args before (target : string) (rest : list string) :
  Forall (λ a, a ≠ ">" ∧ a ≠ ">>") args →
  find_redirect (args ++ ">" :: target :: rest) before = Some (before ++ args, target).
Proof.
  revert before. induction args as [|a args IH]; intros before Hargs.
  - cbn [app]. rewrite find_redirect_cons. cbn. by rewrite app_nil_r.
  - inversion Hargs as [|?? [H1 H2] Hargs']; subst.
    cbn [app].
    destruct (args ++ ">" :: target :: rest) as [|b tl] eqn:E; [by destruct args|].
    rewrite find_redirect_cons.
    destruct (String.eqb_spec a ">"); [done|]. destruct (String.eqb_spec a ">>"); [done|].
    cbn [orb]. rewrite IH by done. by rewrite <- app_assoc.
Qed.

Lemma the_fs_put st s h :
  fs_at (put (FS (c_term st)) (s, h) (c_world st)) (FS (c_term st)) = s.
Proof. apply fs_at_put. Qed.

(** A write of new bytes through [t.FS.Write], within the quota: the path
    then holds them. *)
Lemma write_fresh_get (p : string) (c : bytes) (mode : Z) (st : cst) :
  (Z.of_nat (length c) ≤ MaxFileSize)%Z →
  ∃ l, GetEntry (the_globals (write_fresh p c mode st).2)
                (the_fs (write_fresh p c mode st).2) p = Some l ∧
       content (the_heap (write_fresh p c mode st).2) l = c.
Proof.
  intros Hq.
  destruct (slice_of_bytes c (the_heap st)) as [Hbytes Hlen].
  destruct (Write_within_quota (the_globals st) p (slice_of c (the_heap st)).1 mode
              (the_fs st) (slice_of c (the_heap st)).2)
    as (l & s' & h' & HW & HG & HC & Harr & _); [by rewrite Hlen|].
  assert (Hr : (write_fresh p c mode st).2 =
               set_world (put (FS (c_term st)) (s', h') (c_world st)) st).
  { unfold write_fresh, call.
    destruct (slice_of c (the_heap st)) as [d h1]. cbn [fst snd] in HW. by rewrite HW. }
  rewrite Hr. exists l. unfold the_fs, the_heap, the_globals. cbn [c_term c_world set_world].
  rewrite fs_at_put. cbn [put globals heap snd]. split; [done|].
  unfold content. rewrite HC. unfold slice_bytes, array_at in *. by rewrite Harr.
Qed.
End redirect.

(** A command with its output redirected: for words that need no quoting,
    [cmd args > f] runs the command with a buffer as its output, and then
    the file at [Abs f], taken in the working directory before the command,
    holds what the command wrote: the bytes as written, with bare line
    feeds. *)
Theorem redirect_writes_the_output
    (args : list string) (f : string) (t : Terminal) (w : World) :
  args ≠ [] → Forall command_word args → plain f →
  let st := runCommand args "" Buffer (set_exit 0 (session t w)) in
  c_crash st = None →
  (Z.of_nat (length (to_bytes (c_out st))) ≤ MaxFileSize)%Z →
  let r := execPipeline (strs.Join (args ++ [">"; f]) " ") t w in
  r.2 = None ∧
  ∃ l, GetEntry (globals r.1.2) (fs_at r.1.2 (FS r.1.1)) (Abs (fs_at w (FS t)) f) = Some l ∧
       content (heap r.1.2) l = to_bytes (c_out st).
Proof.
  intros Hne Hargs Hf st Hcrash Hq r.
  assert (Hplain : Forall plain (args ++ [">"; f])).
  { apply Forall_app. split.
    - eapply Forall_impl; [done|]. by intros ? [].
    - apply Forall_cons. split; [by split|]. apply Forall_cons. split; [done|constructor]. }
  assert (Hparse : parseArgs (strs.Join (args ++ [">"; f]) " ") = args ++ [">"; f])
    by (by apply (parseArgs_splits_at_blanks _ "")).
  assert (Hfind : find_redirect (args ++ [">"; f]) [] = Some (args, f)).
  { apply (find_redirect_first args [] f []).
    eapply Forall_impl; [done|]. by intros ? (_ & _ & ? & ?). }
  assert (Hsplit : strs.Split (strs.Join args " ") "|" = [strs.Join args " "]).
  { apply Split_absent, all_chars_Join; [done|].
    eapply Forall_impl; [done|]. by intros ? (_ & ? & _). }
  assert (Hparse' : parseArgs (strs.Join args " ") = args).
  { apply (parseArgs_splits_at_blanks _ "").
    eapply Forall_impl; [done|]. by intros ? []. }
  assert (Hrun : runPipelineWithOutput [strs.Join args " "] Buffer (set_exit 0 (session t w)) = st).
  { unfold runPipelineWithOutput. cbn [fmap list_fmap]. rewrite Hparse'.
    cbn [List.filter]. rewrite bool_decide_eq_false_2 by done. reflexivity. }
  assert (Hr : r = ((c_term (write_fresh (Abs (fs_at w (FS t)) f) (to_bytes (c_out st))
                                 (perm "644") st).2),
                    (c_world (write_fresh (Abs (fs_at w (FS t)) f) (to_bytes (c_out st))
                                 (perm "644") st).2), None)).
  { subst r. unfold execPipeline. rewrite Hparse, Hfind, Hsplit.
    fold (session t w). rewrite Hrun, Hcrash. reflexivity. }
  rewrite Hr. cbn [fst snd]. split; [done|].
  destruct (write_fresh_get (Abs (fs_at w (FS t)) f) (to_bytes (c_out st)) (perm "644") st Hq)
    as (l & Hl & Hc).
  exists l. split; [|done]. exact Hl.
Qed.

Lemma redirect_writes_the_output_witness :
  let t := handleSSHConn_shell boot ssh_env 80 24 in
  let st := runCommand ["echo"; "hello"] "" Buffer (set_exit 0 (session t boot)) in
  let r := execPipeline (strs.Join (["echo"; "hello"] ++ [">"; "/tmp/x"]) " ") t boot in
  r.2 = None ∧
  ∃ l, GetEntry (globals r.1.2) (fs_at r.1.2 (FS r.1.1)) (Abs (fs_at boot (FS t)) "/tmp/x") = Some l ∧
       content (heap r.1.2) l = to_bytes (c_out st).
Proof.
  intros t.
  apply (redirect_writes_the_output ["echo"; "hello"] "/tmp/x" t boot).
  - discriminate.
  - repeat constructor; discriminate.
  - split; [discriminate|reflexivity].
  - vm_compute. reflexivity.
  - vm_compute. discriminate.
Defined.
